(** * market/data.go: indicator engine and snapshot aggregator

    A shallow embedding of [src/market/data.go].

    - Go [int] is [Z]; a slice is a [list]; [len] is [len].  Every
      integer the code computes is bounded by a slice length or by the
      constants 60 and 120, so no 64-bit wrap-around is reachable and the
      arithmetic on [Z] is the arithmetic of the code.
    - A run-time panic (index out of range, integer division by zero) is
      [None] in the [option] monad; [x ← m; k] sequences two steps.
    - [float64] arithmetic is an interface, [Float64], with two
      instances: [IEEE] is binary64 as the Go program runs it (Rocq's
      primitive floats, every operation rounded on its own: no fused
      multiply-add, as on amd64), [Exact] is arithmetic without
      rounding, overflow or NaN on [Q].  Every function of the source
      is embedded once, over the interface.
    - The network is a [World]: what the three remote calls answer.
      The candle fetch is also embedded on its own, in the module
      [Wire], over an [Endpoint]: what the call meets, and the decoding
      of the rows as the source does it, panics included;
      [Wire.GetWithInterval] is the aggregator over that fetch.
    - [strings.ToUpper] is embedded as it works on ASCII text; what is
      proved of the spelling of a symbol assumes ASCII text.
    - [Format] and [formatFloatSlice] render text with the float
      formatting of [fmt] and take no part in what is proved here; they
      are not embedded. *)

From Stdlib Require Import ZArith QArith Qabs Qminmax Qpower Lqa Floats String
  Ascii Lia.
From stdpp Require Import base tactics option list list_numbers strings
  pretty.

Local Open Scope Z_scope.

(** ** Go control flow and slices *)

Definition len {A} (s : list A) : Z := Z.of_nat (length s).

(** [s[i]]: panics unless [0 <= i < len(s)]. *)
Definition at_index {A} (s : list A) (i : Z) : option A :=
  if decide (0 ≤ i) then s !! Z.to_nat i else None.

(** [s[i] = v]: panics unless [0 <= i < len(s)]. *)
Definition set_index {A} (s : list A) (i : Z) (v : A) : option (list A) :=
  if decide (0 ≤ i < len s) then Some (<[Z.to_nat i := v]> s) else None.

(** [s[:n]]: panics unless [0 <= n <= len(s)] (no slice here has spare
    capacity beyond its length that the code relies on). *)
Definition slice_to {A} (s : list A) (n : Z) : option (list A) :=
  if decide (0 ≤ n ≤ len s) then Some (take (Z.to_nat n) s) else None.

(** The two reads [s[i]] and [s[i-1]] of the delta and true-range loops. *)
Definition pair_at {A} (s : list A) (i : Z) : option (A * A) :=
  cur ← at_index s i; prev ← at_index s (i - 1); Some (prev, cur).

(** The body of a loop run at each index of [idxs], threading the state. *)
Fixpoint loop {S} (body : Z → S → option S) (idxs : list Z) (s : S) : option S :=
  match idxs with
  | [] => Some s
  | i :: rest => s' ← body i s; loop body rest s'
  end.

(** [for i := lo; i < hi; i++ { s = body(i, s) }] *)
Definition for_range {S} (lo hi : Z) (body : Z → S → option S) (s : S) : option S :=
  loop body (seqZ lo (hi - lo)) s.

(** [a / b] on [int]: truncated division, panics when [b = 0]. *)
Definition int_div (a b : Z) : option Z :=
  if decide (b = 0) then None else Some (Z.quot a b).

(** ** float64 *)

Class Float64 (F : Type) := {
  of_int : Z → F;              (* float64(n); an integer-valued constant *)
  f0_999 : F;                  (* the constant 0.999 *)
  fadd : F → F → F;
  fsub : F → F → F;
  fmul : F → F → F;
  fdiv : F → F → F;
  fneg : F → F;
  fabs : F → F;                (* math.Abs *)
  fmax : F → F → F;            (* math.Max *)
  fgt : F → F → bool;          (* x > y *)
  feq : F → F → bool;          (* x == y *)
}.

Declare Scope float64_scope.
Delimit Scope float64_scope with F.
Notation "x + y" := (fadd x y) : float64_scope.
Notation "x - y" := (fsub x y) : float64_scope.
Notation "x * y" := (fmul x y) : float64_scope.
Notation "x / y" := (fdiv x y) : float64_scope.
Notation "- x" := (fneg x) : float64_scope.
Abbreviation F0 := (of_int 0).
Abbreviation F1 := (of_int 1).
Abbreviation F2 := (of_int 2).
Abbreviation F100 := (of_int 100).

Module IEEE.

(** int64 to binary64, rounded to nearest even, for [|n| < 2^63]. *)
Definition float64_of_int (n : Z) : float :=
  if decide (n < 0) then PrimFloat.opp (of_uint63 (Uint63.of_Z (- n)))
  else of_uint63 (Uint63.of_Z n).

(** Go's [math.Max], with its special cases for +Inf, NaN and the
    signed zeros. *)
Definition math_Max (x y : float) : float :=
  if PrimFloat.eqb x infinity || PrimFloat.eqb y infinity then infinity
  else if is_nan x || is_nan y then nan
  else if PrimFloat.eqb x 0 && PrimFloat.eqb x y
       then (if get_sign x then y else x)
  else if PrimFloat.ltb y x then x else y.

#[global] Instance float64 : Float64 float := {|
  of_int := float64_of_int;
  f0_999 := 0x1.ff7ced916872bp-1%float;
  fadd := PrimFloat.add;
  fsub := PrimFloat.sub;
  fmul := PrimFloat.mul;
  fdiv := PrimFloat.div;
  fneg := PrimFloat.opp;
  fabs := PrimFloat.abs;
  fmax := math_Max;
  fgt := λ x y, PrimFloat.ltb y x;
  feq := PrimFloat.eqb;
|}.

End IEEE.

Module Exact.

#[global] Instance float64 : Float64 Q := {|
  of_int := inject_Z;
  f0_999 := 999 # 1000;
  fadd := Qplus;
  fsub := Qminus;
  fmul := Qmult;
  fdiv := Qdiv;
  fneg := Qopp;
  fabs := Qabs;
  fmax := Qmax;
  fgt := λ x y, negb (Qle_bool x y);
  feq := Qeq_bool;
|}.

End Exact.

(** ** Data model (data.go 13-65) *)

Record Kline (F : Type) := mkKline {
  OpenTime : Z;
  Open : F;
  High : F;
  Low : F;
  Close : F;
  Volume : F;
  CloseTime : Z;
}.
Arguments mkKline {F}.
Arguments OpenTime {F}.
Arguments Open {F}.
Arguments High {F}.
Arguments Low {F}.
Arguments Close {F}.
Arguments Volume {F}.
Arguments CloseTime {F}.

Record OIData (F : Type) := mkOIData {
  Latest : F;
  Average : F;
}.
Arguments mkOIData {F}.
Arguments Latest {F}.
Arguments Average {F}.

Record IntradayData (F : Type) := mkIntradayData {
  MidPrices : list F;
  EMA20Values : list F;
  MACDValues : list F;
  RSI7Values : list F;
  RSI14Values : list F;
  Interval : string;
}.
Arguments mkIntradayData {F}.
Arguments MidPrices {F}.
Arguments EMA20Values {F}.
Arguments MACDValues {F}.
Arguments RSI7Values {F}.
Arguments RSI14Values {F}.
Arguments Interval {F}.

(** [LongerTermData] has fields named like those of [IntradayData]; the
    module keeps both sets of names. *)
Module LongerTerm.

Record LongerTermData (F : Type) := mkLongerTermData {
  EMA20 : F;
  EMA50 : F;
  ATR3 : F;
  ATR14 : F;
  CurrentVolume : F;
  AverageVolume : F;
  MACDValues : list F;
  RSI14Values : list F;
}.
Arguments mkLongerTermData {F}.
Arguments EMA20 {F}.
Arguments EMA50 {F}.
Arguments ATR3 {F}.
Arguments ATR14 {F}.
Arguments CurrentVolume {F}.
Arguments AverageVolume {F}.
Arguments MACDValues {F}.
Arguments RSI14Values {F}.

End LongerTerm.
Export LongerTerm (LongerTermData, mkLongerTermData).

Record Data (F : Type) := mkData {
  Symbol : string;
  CurrentPrice : F;
  PriceChange1h : F;
  PriceChange4h : F;
  CurrentEMA20 : F;
  CurrentMACD : F;
  CurrentRSI7 : F;
  OpenInterest : OIData F;
  FundingRate : F;
  IntradaySeries : IntradayData F;
  LongerTermContext : LongerTermData F;
}.
Arguments mkData {F}.
Arguments Symbol {F}.
Arguments CurrentPrice {F}.
Arguments PriceChange1h {F}.
Arguments PriceChange4h {F}.
Arguments CurrentEMA20 {F}.
Arguments CurrentMACD {F}.
Arguments CurrentRSI7 {F}.
Arguments OpenInterest {F}.
Arguments FundingRate {F}.
Arguments IntradaySeries {F}.
Arguments LongerTermContext {F}.

(** A Go result pair [(value, error)]: exactly one side is set at every
    return of the functions below. *)
Inductive go_result (A : Type) :=
| Value (a : A)
| Error (err : string).
Arguments Value {A}.
Arguments Error {A}.

Definition is_error {A} (r : go_result A) : Prop :=
  match r with Error _ => True | Value _ => False end.

Definition map_value {A B} (f : A → B) (r : go_result A) : go_result B :=
  match r with Value a => Value (f a) | Error err => Error err end.

(** What one remote call of [getOpenInterestData] or [getFundingRate]
    meets: [http.Get] fails, [ioutil.ReadAll] fails, [json.Unmarshal]
    fails, or the body decodes and the field of interest is [field]. *)
Inductive http_outcome :=
| HttpGetFailed (err : string)
| ReadAllFailed (err : string)
| UnmarshalFailed (err : string)
| Decoded (field : string).

(** The market-data provider.  [getKlines] (data.go 186-228) is the
    candle fetch, transport and decoding together; the world gives its
    answer for a symbol, an interval and a limit.  [ParseFloat] is the
    value of [strconv.ParseFloat(s, 64)], whose error the code drops. *)
Record World (F : Type) := mkWorld {
  getKlines : string → string → Z → go_result (list (Kline F));
  openInterest : string → http_outcome;
  premiumIndex : string → http_outcome;
  ParseFloat : string → F;
}.
Arguments mkWorld {F}.
Arguments getKlines {F}.
Arguments openInterest {F}.
Arguments premiumIndex {F}.
Arguments ParseFloat {F}.

(** ** Symbol normalization (data.go 580-586) *)

(** ASCII text: every byte is below [utf8.RuneSelf] (0x80).  On such
    text [strings.ToUpper] takes its byte-wise path; other text it
    decodes as UTF-8 and maps rune by rune with the Unicode tables,
    which are not part of this development. *)
Definition is_ascii (s : string) : bool :=
  forallb (λ c, (nat_of_ascii c <? 128)%nat) (list_ascii_of_string s).

(** [strings.ToUpper] as Go computes it on ASCII text: the bytes
    ['a'..'z'] are mapped to ['A'..'Z'], every other byte is kept.
    The theorems on the result of [ToUpper] and [Normalize] take ASCII
    text ([is_ascii]). *)
Definition upper_byte (c : ascii) : ascii :=
  let n := nat_of_ascii c in
  if (97 <=? n)%nat && (n <=? 122)%nat then ascii_of_nat (n - 32) else c.

Fixpoint ToUpper (s : string) : string :=
  match s with
  | EmptyString => EmptyString
  | String c s' => String (upper_byte c) (ToUpper s')
  end.

(** [strings.HasSuffix]:
    [len(s) >= len(suffix) && s[len(s)-len(suffix):] == suffix]. *)
Definition HasSuffix (s suffix : string) : bool :=
  (String.length suffix <=? String.length s)%nat
  && String.eqb (substring (String.length s - String.length suffix)
                           (String.length suffix) s) suffix.

Definition Normalize (symbol : string) : string :=
  let symbol := ToUpper symbol in
  if HasSuffix symbol "USDT" then symbol else symbol +:+ "USDT".

(** ** Interval selection (data.go 155-183) *)

Definition selectInterval (scanIntervalMinutes : Z) : string :=
  if decide (scanIntervalMinutes ≤ 1) then "1m"
  else if decide (scanIntervalMinutes ≤ 3) then "3m"
  else if decide (scanIntervalMinutes ≤ 5) then "5m"
  else if decide (scanIntervalMinutes ≤ 15) then "15m"
  else if decide (scanIntervalMinutes ≤ 30) then "30m"
  else "1h".

Definition calculateIntradayLimit (scanIntervalMinutes : Z) : option Z :=
  barsFor2Hours ← int_div 120 scanIntervalMinutes;
  if decide (barsFor2Hours < 40) then Some 40 else Some barsFor2Hours.

Section Engine.
Context {F : Type} `{Float64 F}.

(** ** Indicator engine *)

(** calculateEMA (data.go 231-250) *)
Definition calculateEMA (klines : list (Kline F)) (period : Z) : option F :=
  if decide (len klines < period) then Some F0 else
  sum ← for_range 0 period
           (λ i sum, k ← at_index klines i; Some (sum + Close k)%F) F0;
  let ema := (sum / of_int period)%F in
  let multiplier := (F2 / of_int (period + 1))%F in
  for_range period (len klines)
    (λ i ema, k ← at_index klines i;
              Some ((Close k - ema) * multiplier + ema)%F) ema.

(** calculateMACD (data.go 253-264) *)
Definition calculateMACD (klines : list (Kline F)) : option F :=
  if decide (len klines < 26) then Some F0 else
  ema12 ← calculateEMA klines 12;
  ema26 ← calculateEMA klines 26;
  Some (ema12 - ema26)%F.

(** calculateRSI (data.go 267-308) *)
Definition calculateRSI (klines : list (Kline F)) (period : Z) : option F :=
  if decide (len klines ≤ period) then Some F0 else
  '(gains, losses) ← for_range 1 (period + 1)
    (λ i '(gains, losses),
       ki ← at_index klines i;
       kp ← at_index klines (i - 1);
       let change := (Close ki - Close kp)%F in
       if fgt change F0 then Some ((gains + change)%F, losses)
       else Some (gains, (losses + - change)%F))
    (F0, F0);
  let avgGain := (gains / of_int period)%F in
  let avgLoss := (losses / of_int period)%F in
  '(avgGain, avgLoss) ← for_range (period + 1) (len klines)
    (λ i '(avgGain, avgLoss),
       ki ← at_index klines i;
       kp ← at_index klines (i - 1);
       let change := (Close ki - Close kp)%F in
       if fgt change F0
       then Some (((avgGain * of_int (period - 1) + change) / of_int period)%F,
                  ((avgLoss * of_int (period - 1)) / of_int period)%F)
       else Some (((avgGain * of_int (period - 1)) / of_int period)%F,
                  ((avgLoss * of_int (period - 1) + - change) / of_int period)%F))
    (avgGain, avgLoss);
  if feq avgLoss F0 then Some F100 else
  let rs := (avgGain / avgLoss)%F in
  let rsi := (F100 - F100 / (F1 + rs))%F in
  Some rsi.

(** calculateATR (data.go 311-342) *)
Definition calculateATR (klines : list (Kline F)) (period : Z) : option F :=
  if decide (len klines ≤ period) then Some F0 else
  trs ← for_range 1 (len klines)
    (λ i trs,
       ki ← at_index klines i;
       kp ← at_index klines (i - 1);
       let high := High ki in
       let low := Low ki in
       let prevClose := Close kp in
       let tr1 := (high - low)%F in
       let tr2 := fabs (high - prevClose)%F in
       let tr3 := fabs (low - prevClose)%F in
       set_index trs i (fmax tr1 (fmax tr2 tr3)))
    (replicate (length klines) F0);
  sum ← for_range 1 (period + 1)
           (λ i sum, tr ← at_index trs i; Some (sum + tr)%F) F0;
  let atr := (sum / of_int period)%F in
  for_range (period + 1) (len klines)
    (λ i atr, tr ← at_index trs i;
              Some ((atr * of_int (period - 1) + tr) / of_int period)%F) atr.

(** ** Series sampler *)

(** [data.X = append(data.X, v)] for each series of the two records. *)
Definition append_MidPrices (d : IntradayData F) (v : F) : IntradayData F :=
  mkIntradayData (MidPrices d ++ [v]) (EMA20Values d) (MACDValues d)
                 (RSI7Values d) (RSI14Values d) (Interval d).
Definition append_EMA20Values (d : IntradayData F) (v : F) : IntradayData F :=
  mkIntradayData (MidPrices d) (EMA20Values d ++ [v]) (MACDValues d)
                 (RSI7Values d) (RSI14Values d) (Interval d).
Definition append_MACDValues (d : IntradayData F) (v : F) : IntradayData F :=
  mkIntradayData (MidPrices d) (EMA20Values d) (MACDValues d ++ [v])
                 (RSI7Values d) (RSI14Values d) (Interval d).
Definition append_RSI7Values (d : IntradayData F) (v : F) : IntradayData F :=
  mkIntradayData (MidPrices d) (EMA20Values d) (MACDValues d)
                 (RSI7Values d ++ [v]) (RSI14Values d) (Interval d).
Definition append_RSI14Values (d : IntradayData F) (v : F) : IntradayData F :=
  mkIntradayData (MidPrices d) (EMA20Values d) (MACDValues d)
                 (RSI7Values d) (RSI14Values d ++ [v]) (Interval d).
Definition set_Interval (d : IntradayData F) (s : string) : IntradayData F :=
  mkIntradayData (MidPrices d) (EMA20Values d) (MACDValues d)
                 (RSI7Values d) (RSI14Values d) s.

(** [start := len(klines) - 10; if start < 0 { start = 0 }] *)
Definition window_start (klines : list (Kline F)) : Z :=
  let start := len klines - 10 in
  if decide (start < 0) then 0 else start.

(** calculateIntradaySeries (data.go 345-387) *)
Definition calculateIntradaySeries (klines : list (Kline F))
  : option (IntradayData F) :=
  let data := mkIntradayData [] [] [] [] [] EmptyString in
  let start := window_start klines in
  for_range start (len klines)
    (λ i data,
       ki ← at_index klines i;
       let data := append_MidPrices data (Close ki) in
       data ← (if decide (i >= 19) then
                 prefix ← slice_to klines (i + 1);
                 ema20 ← calculateEMA prefix 20;
                 Some (append_EMA20Values data ema20)
               else Some data);
       data ← (if decide (i >= 25) then
                 prefix ← slice_to klines (i + 1);
                 macd ← calculateMACD prefix;
                 Some (append_MACDValues data macd)
               else Some data);
       data ← (if decide (i >= 7) then
                 prefix ← slice_to klines (i + 1);
                 rsi7 ← calculateRSI prefix 7;
                 Some (append_RSI7Values data rsi7)
               else Some data);
       if decide (i >= 14) then
         prefix ← slice_to klines (i + 1);
         rsi14 ← calculateRSI prefix 14;
         Some (append_RSI14Values data rsi14)
       else Some data)
    data.

(** calculateLongerTermData (data.go 390-433).  The record is built
    field by field in the source; here the scalar fields are bound in
    the same order and the two series are the state of the loop. *)
Definition calculateLongerTermData (klines : list (Kline F))
  : option (LongerTermData F) :=
  ema20 ← calculateEMA klines 20;
  ema50 ← calculateEMA klines 50;
  atr3 ← calculateATR klines 3;
  atr14 ← calculateATR klines 14;
  '(currentVolume, averageVolume) ←
    (if decide (len klines > 0) then
       last ← at_index klines (len klines - 1);
       let sum := foldl (λ sum k, (sum + Volume k)%F) F0 klines in
       Some (Volume last, (sum / of_int (len klines))%F)
     else Some (F0, F0));
  let start := window_start klines in
  '(macdValues, rsi14Values) ← for_range start (len klines)
    (λ i '(macdValues, rsi14Values),
       macdValues ← (if decide (i >= 25) then
                       prefix ← slice_to klines (i + 1);
                       macd ← calculateMACD prefix;
                       Some (macdValues ++ [macd])
                     else Some macdValues);
       if decide (i >= 14) then
         prefix ← slice_to klines (i + 1);
         rsi14 ← calculateRSI prefix 14;
         Some (macdValues, rsi14Values ++ [rsi14])
       else Some (macdValues, rsi14Values))
    ([], []);
  Some (mkLongerTermData ema20 ema50 atr3 atr14 currentVolume averageVolume
                         macdValues rsi14Values).

(** ** Remote scalars *)

(** getOpenInterestData (data.go 436-466) *)
Definition getOpenInterestData (w : World F) (symbol : string)
  : go_result (OIData F) :=
  match openInterest w symbol with
  | HttpGetFailed err => Error err
  | ReadAllFailed err => Error err
  | UnmarshalFailed err => Error err
  | Decoded field =>
      let oi := ParseFloat w field in
      Value (mkOIData oi (oi * f0_999)%F)
  end.

(** getFundingRate (data.go 469-499): the pair [(rate, err)] as the
    source returns it, [err] being [None] for [nil]. *)
Definition getFundingRate (w : World F) (symbol : string)
  : F * option string :=
  match premiumIndex w symbol with
  | HttpGetFailed err => (F0, Some err)
  | ReadAllFailed err => (F0, Some err)
  | UnmarshalFailed err => (F0, Some err)
  | Decoded field => (ParseFloat w field, None)
  end.

(** ** Snapshot aggregator *)

(** The two percentages of GetWithInterval (data.go 100-116). *)
Definition priceChange1h (klinesIntraday : list (Kline F)) (currentPrice : F)
    (scanIntervalMinutes : Z) : option F :=
  barsFor1h ← int_div 60 scanIntervalMinutes;
  if decide (len klinesIntraday >= barsFor1h + 1) then
    k ← at_index klinesIntraday (len klinesIntraday - barsFor1h - 1);
    let price1hAgo := Close k in
    if fgt price1hAgo F0
    then Some (((currentPrice - price1hAgo) / price1hAgo) * F100)%F
    else Some F0
  else Some F0.

Definition priceChange4h (klines4h : list (Kline F)) (currentPrice : F)
  : option F :=
  if decide (len klines4h >= 2) then
    k ← at_index klines4h (len klines4h - 2);
    let price4hAgo := Close k in
    if fgt price4hAgo F0
    then Some (((currentPrice - price4hAgo) / price4hAgo) * F100)%F
    else Some F0
  else Some F0.

(** GetWithInterval (data.go 68-148).  [fmt.Errorf] with [%s] and [%v]
    splices the interval and the message of the cause into the text. *)
Definition GetWithInterval (w : World F) (symbol : string)
    (scanIntervalMinutes : Z) : option (go_result (Data F)) :=
  let symbol := Normalize symbol in
  let interval := selectInterval scanIntervalMinutes in
  intradayLimit ← calculateIntradayLimit scanIntervalMinutes;
  match getKlines w symbol interval intradayLimit with
  | Error err => Some (Error ("获取" +:+ interval +:+ " K线失败: " +:+ err))
  | Value klinesIntraday =>
  match getKlines w symbol "4h" 60 with
  | Error err => Some (Error ("获取4小时K线失败: " +:+ err))
  | Value klines4h =>
      last ← at_index klinesIntraday (len klinesIntraday - 1);
      let currentPrice := Close last in
      currentEMA20 ← calculateEMA klinesIntraday 20;
      currentMACD ← calculateMACD klinesIntraday;
      currentRSI7 ← calculateRSI klinesIntraday 7;
      change1h ← priceChange1h klinesIntraday currentPrice scanIntervalMinutes;
      change4h ← priceChange4h klines4h currentPrice;
      let oiData := match getOpenInterestData w symbol with
                    | Value oi => oi
                    | Error _ => mkOIData F0 F0
                    end in
      let fundingRate := fst (getFundingRate w symbol) in
      intradayData ← calculateIntradaySeries klinesIntraday;
      let intradayData := set_Interval intradayData interval in
      longerTermData ← calculateLongerTermData klines4h;
      Some (Value (mkData symbol currentPrice change1h change4h
                          currentEMA20 currentMACD currentRSI7
                          oiData fundingRate intradayData longerTermData))
  end end.

(** Get (data.go 151-153) *)
Definition Get (w : World F) (symbol : string) : option (go_result (Data F)) :=
  GetWithInterval w symbol 3.

End Engine.

(** ** Candle fetch (data.go 186-228, 589-602) *)

(** A value of type [interface{}], told by its dynamic type: the four
    types that [parseFloat] tells apart, and any other type, of which
    the name that [%T] prints is kept.  [json.Unmarshal] stores a JSON
    number as a [float64] and a JSON string as a [string]; null, the
    booleans, arrays and objects are of other types. *)
Inductive any (F : Type) :=
| AnyString (val : string)
| AnyFloat64 (val : F)
| AnyInt (val : Z)
| AnyInt64 (val : Z)
| AnyOther (type_name : string).
Arguments AnyString {F}.
Arguments AnyFloat64 {F}.
Arguments AnyInt {F}.
Arguments AnyInt64 {F}.
Arguments AnyOther {F}.

(** What the remote call of [getKlines] meets: [http.Get] fails,
    [ioutil.ReadAll] fails, [json.Unmarshal] into [[][]interface{}]
    fails, or the body decodes to [rawData]. *)
Inductive klines_outcome (F : Type) :=
| KlinesGetFailed (err : string)
| KlinesReadAllFailed (err : string)
| KlinesUnmarshalFailed (err : string)
| KlinesDecoded (rawData : list (list (any F))).
Arguments KlinesGetFailed {F}.
Arguments KlinesReadAllFailed {F}.
Arguments KlinesUnmarshalFailed {F}.
Arguments KlinesDecoded {F}.

(** The candle endpoint and the two conversions of the standard
    library that the decoding relies on: [strconv.ParseFloat(s, 64)],
    value and error, and the conversion [int64(x)] of a [float64]. *)
Record Endpoint (F : Type) := mkEndpoint {
  klines_response : string → klines_outcome F;
  strconv_ParseFloat : string → F * option string;
  int64_of_float64 : F → Z;
}.
Arguments mkEndpoint {F}.
Arguments klines_response {F}.
Arguments strconv_ParseFloat {F}.
Arguments int64_of_float64 {F}.

Module Wire.
Section Decoding.
Context {F : Type} `{Float64 F}.

(** parseFloat (data.go 589-602): the pair [(value, err)]. *)
Definition parseFloat (e : Endpoint F) (v : any F) : F * option string :=
  match v with
  | AnyString val => strconv_ParseFloat e val
  | AnyFloat64 val => (val, None)
  | AnyInt val => (of_int val, None)
  | AnyInt64 val => (of_int val, None)
  | AnyOther type_name => (F0, Some ("unsupported type: " +:+ type_name))
  end.

(** [v.(float64)]: panics unless the dynamic type is [float64]. *)
Definition assert_float64 (v : any F) : option F :=
  match v with AnyFloat64 val => Some val | _ => None end.

(** The request of [getKlines]; [%d] prints the limit in decimal. *)
Definition klines_url (symbol interval : string) (limit : Z) : string :=
  "https://fapi.binance.com/fapi/v1/klines?symbol=" +:+ symbol
  +:+ "&interval=" +:+ interval +:+ "&limit=" +:+ pretty limit.

(** getKlines (data.go 186-228) *)
Definition getKlines (e : Endpoint F) (symbol interval : string) (limit : Z)
  : option (go_result (list (Kline F))) :=
  let url := klines_url symbol interval limit in
  match klines_response e url with
  | KlinesGetFailed err => Some (Error err)
  | KlinesReadAllFailed err => Some (Error err)
  | KlinesUnmarshalFailed err => Some (Error err)
  | KlinesDecoded rawData =>
      klines ← for_range 0 (len rawData)
        (λ i klines,
           item ← at_index rawData i;
           v0 ← at_index item 0;
           t0 ← assert_float64 v0;
           let openTime := int64_of_float64 e t0 in
           v1 ← at_index item 1;
           let open := (parseFloat e v1).1 in
           v2 ← at_index item 2;
           let high := (parseFloat e v2).1 in
           v3 ← at_index item 3;
           let low := (parseFloat e v3).1 in
           v4 ← at_index item 4;
           let close := (parseFloat e v4).1 in
           v5 ← at_index item 5;
           let volume := (parseFloat e v5).1 in
           v6 ← at_index item 6;
           t6 ← assert_float64 v6;
           let closeTime := int64_of_float64 e t6 in
           set_index klines i
             (mkKline openTime open high low close volume closeTime))
        (replicate (length rawData) (mkKline 0 F0 F0 F0 F0 F0 0));
      Some (Value klines)
  end.

(** GetWithInterval (data.go 68-148) with its two candle fetches as
    the source has them, over the endpoint: a fetch may panic, and the
    panic is the panic of [GetWithInterval].  The two remote scalars
    are read from the provider [w], whose own candle answers are not
    consulted. *)
Definition GetWithInterval (e : Endpoint F) (w : World F) (symbol : string)
    (scanIntervalMinutes : Z) : option (go_result (Data F)) :=
  let symbol := Normalize symbol in
  let interval := selectInterval scanIntervalMinutes in
  intradayLimit ← calculateIntradayLimit scanIntervalMinutes;
  fetched ← getKlines e symbol interval intradayLimit;
  match fetched with
  | Error err => Some (Error ("获取" +:+ interval +:+ " K线失败: " +:+ err))
  | Value klinesIntraday =>
  fetched ← getKlines e symbol "4h" 60;
  match fetched with
  | Error err => Some (Error ("获取4小时K线失败: " +:+ err))
  | Value klines4h =>
      last ← at_index klinesIntraday (len klinesIntraday - 1);
      let currentPrice := Close last in
      currentEMA20 ← calculateEMA klinesIntraday 20;
      currentMACD ← calculateMACD klinesIntraday;
      currentRSI7 ← calculateRSI klinesIntraday 7;
      change1h ← priceChange1h klinesIntraday currentPrice scanIntervalMinutes;
      change4h ← priceChange4h klines4h currentPrice;
      let oiData := match getOpenInterestData w symbol with
                    | Value oi => oi
                    | Error _ => mkOIData F0 F0
                    end in
      let fundingRate := fst (getFundingRate w symbol) in
      intradayData ← calculateIntradaySeries klinesIntraday;
      let intradayData := set_Interval intradayData interval in
      longerTermData ← calculateLongerTermData klines4h;
      Some (Value (mkData symbol currentPrice change1h change4h
                          currentEMA20 currentMACD currentRSI7
                          oiData fundingRate intradayData longerTermData))
  end end.

(** Get (data.go 151-153) *)
Definition Get (e : Endpoint F) (w : World F) (symbol : string)
  : option (go_result (Data F)) :=
  GetWithInterval e w symbol 3.

End Decoding.
End Wire.

(** ** The indicators as the specification words them

    Each definition below follows section 4 of the specification, on
    lists, with no index and no panic; the theorems compare them with
    the functions of the source above. *)

Section Specification.
Context {F : Type} `{Float64 F}.

(** A sum taken from [0], oldest term first. *)
Definition sum_list (xs : list F) : F := foldl fadd F0 xs.

(** EMA.  Seed: simple average of the first [period] closes. *)
Definition ema_seed (klines : list (Kline F)) (period : nat) : F :=
  (sum_list (Close <$> take period klines) / of_int (Z.of_nat period))%F.

(** Recurrence: [ema = (close - ema) * (2/(period+1)) + ema]. *)
Definition ema_step (period : nat) (ema : F) (k : Kline F) : F :=
  ((Close k - ema) * (F2 / of_int (Z.of_nat period + 1)) + ema)%F.

(** Applied once per candle from index [period] to the end. *)
Definition ema_spec (klines : list (Kline F)) (period : nat) : F :=
  foldl (ema_step period) (ema_seed klines period) (drop period klines).

Definition macd_spec (klines : list (Kline F)) : F :=
  (ema_spec klines 12 - ema_spec klines 26)%F.

(** The close-to-close delta of a candle and the one before it. *)
Definition delta_of (pc : Kline F * Kline F) : F := (Close pc.2 - Close pc.1)%F.

(** Close-to-close deltas: entry [j] is [close (j+1) - close j]. *)
Definition deltas (klines : list (Kline F)) : list F :=
  zip_with (λ prev cur, (Close cur - Close prev)%F) klines (tail klines).

(** The positive deltas are summed as gains, the magnitudes [-d] of the
    others as losses. *)
Definition sum_gains (ds : list F) : F :=
  foldl (λ gains d, if fgt d F0 then (gains + d)%F else gains) F0 ds.
Definition sum_losses (ds : list F) : F :=
  foldl (λ losses d, if fgt d F0 then losses else (losses + - d)%F) F0 ds.

(** Wilder recurrence [avg = (avg*(period-1) + contribution)/period];
    the side that takes no part decays, its zero contribution not
    being added. *)
Definition wilder (period : nat) (avg contribution : F) : F :=
  ((avg * of_int (Z.of_nat period - 1) + contribution)
   / of_int (Z.of_nat period))%F.
Definition wilder_decay (period : nat) (avg : F) : F :=
  ((avg * of_int (Z.of_nat period - 1)) / of_int (Z.of_nat period))%F.

Definition rsi_step (period : nat) (avgs : F * F) (d : F) : F * F :=
  if fgt d F0
  then (wilder period avgs.1 d, wilder_decay period avgs.2)
  else (wilder_decay period avgs.1, wilder period avgs.2 (- d)%F).

(** Seed over the first [period] deltas, then one Wilder step per
    subsequent delta: the final [(avgGain, avgLoss)]. *)
Definition rsi_seed (klines : list (Kline F)) (period : nat) : F * F :=
  let ds := take period (deltas klines) in
  ((sum_gains ds / of_int (Z.of_nat period))%F,
   (sum_losses ds / of_int (Z.of_nat period))%F).
Definition rsi_averages (klines : list (Kline F)) (period : nat) : F * F :=
  foldl (rsi_step period) (rsi_seed klines period)
        (drop period (deltas klines)).

Definition rsi_of_averages (avgs : F * F) : F :=
  if feq avgs.2 F0 then F100
  else (F100 - F100 / (F1 + avgs.1 / avgs.2))%F.

Definition rsi_spec (klines : list (Kline F)) (period : nat) : F :=
  rsi_of_averages (rsi_averages klines period).

(** True range of a candle given the one before it. *)
Definition true_range (prev cur : Kline F) : F :=
  fmax (High cur - Low cur)%F
       (fmax (fabs (High cur - Close prev)%F) (fabs (Low cur - Close prev)%F)).

(** Entry [j] is the true range of candle [j+1]; the first candle has
    none. *)
Definition true_ranges (klines : list (Kline F)) : list F :=
  zip_with true_range klines (tail klines).

Definition atr_spec (klines : list (Kline F)) (period : nat) : F :=
  let trs := true_ranges klines in
  foldl (wilder period)
        (sum_list (take period trs) / of_int (Z.of_nat period))%F
        (drop period trs).

(** The four indicators, failing closed on a short history. *)
Definition EMA (klines : list (Kline F)) (period : nat) : F :=
  if decide (len klines < Z.of_nat period) then F0 else ema_spec klines period.
Definition MACD (klines : list (Kline F)) : F :=
  if decide (len klines < 26) then F0 else macd_spec klines.
Definition RSI (klines : list (Kline F)) (period : nat) : F :=
  if decide (len klines ≤ Z.of_nat period) then F0 else rsi_spec klines period.
Definition ATR (klines : list (Kline F)) (period : nat) : F :=
  if decide (len klines ≤ Z.of_nat period) then F0 else atr_spec klines period.

(** Series sampler: the candle indices [max(0, N-10) .. N-1]. *)
Definition trailing_window (klines : list (Kline F)) : list Z :=
  seqZ (Z.max 0 (len klines - 10)) (Z.min 10 (len klines)).

(** The prefix [sequence[0..i]], inclusive. *)
Definition prefix (klines : list (Kline F)) (i : Z) : list (Kline F) :=
  take (Z.to_nat (i + 1)) klines.

(** One point per index of [idxs] that reaches [gate], none for the
    others. *)
Definition sample_on (idxs : list Z) (gate : Z)
    (indicator : list (Kline F) → F) (klines : list (Kline F)) : list F :=
  (λ i, indicator (prefix klines i)) <$> filter (λ i, gate ≤ i) idxs.

Definition sample (gate : Z) (indicator : list (Kline F) → F)
    (klines : list (Kline F)) : list F :=
  sample_on (trailing_window klines) gate indicator klines.

(** Mid prices: the close of each candle of the trailing window. *)
Definition mid_prices (klines : list (Kline F)) : list F :=
  Close <$> drop (length klines - 10) klines.

(** Longer-term context: the volume of the latest candle and the mean
    volume of the sequence, both [0] on an empty sequence. *)
Definition current_volume (klines : list (Kline F)) : F :=
  match last klines with Some k => Volume k | None => F0 end.
Definition average_volume (klines : list (Kline F)) : F :=
  match klines with
  | [] => F0
  | _ => (sum_list (Volume <$> klines) / of_int (len klines))%F
  end.

Definition longer_term_spec (klines : list (Kline F)) : LongerTermData F :=
  mkLongerTermData (EMA klines 20) (EMA klines 50) (ATR klines 3) (ATR klines 14)
    (current_volume klines) (average_volume klines)
    (sample 25 macd_spec klines) (sample 14 (λ l, rsi_spec l 14) klines).

(** Price change: [(current - past)/past * 100], guarded to [0] when
    [past] is not positive. *)
Definition percent_change (current past : F) : F :=
  if fgt past F0 then ((current - past) / past * F100)%F else F0.

(** The candle [k] bars before the latest one, if the history reaches
    that far. *)
Definition lookback (klines : list (Kline F)) (k : nat) : option (Kline F) :=
  if decide (k < length klines)%nat then klines !! (length klines - 1 - k)%nat
  else None.

Definition price_change (klines : list (Kline F)) (k : nat) (current : F) : F :=
  match lookback klines k with
  | Some past => percent_change current (Close past)
  | None => F0
  end.

Definition intraday_spec (klines : list (Kline F)) : IntradayData F :=
  mkIntradayData (mid_prices klines)
    (sample 19 (λ l, ema_spec l 20) klines)
    (sample 25 macd_spec klines)
    (sample 7 (λ l, rsi_spec l 7) klines)
    (sample 14 (λ l, rsi_spec l 14) klines) EmptyString.

(** Open interest and funding rate as the aggregator stores them. *)
Definition open_interest_or_default (w : World F) (symbol : string) : OIData F :=
  match getOpenInterestData w symbol with
  | Value oi => oi
  | Error _ => mkOIData F0 F0
  end.

(** The snapshot built from an intraday sequence whose latest candle is
    [latest] and a 4h sequence. *)
Definition snapshot_spec (w : World F) (symbol : string) (scan : Z)
    (klinesIntraday klines4h : list (Kline F)) (latest : Kline F) : Data F :=
  mkData (Normalize symbol) (Close latest)
    (price_change klinesIntraday (Z.to_nat (60 / scan)) (Close latest))
    (price_change klines4h 1 (Close latest))
    (EMA klinesIntraday 20) (MACD klinesIntraday) (RSI klinesIntraday 7)
    (open_interest_or_default w (Normalize symbol))
    (getFundingRate w (Normalize symbol)).1
    (set_Interval (intraday_spec klinesIntraday) (selectInterval scan))
    (longer_term_spec klines4h).

(** A remote call failed: any outcome but a decoded body. *)
Definition failed (o : http_outcome) : Prop :=
  match o with Decoded _ => False | _ => True end.

(** The same provider, answering the open-interest call or the
    funding-rate call differently. *)
Definition with_openInterest (w : World F) (answer : string → http_outcome)
  : World F :=
  mkWorld (getKlines w) answer (premiumIndex w) (ParseFloat w).
Definition with_premiumIndex (w : World F) (answer : string → http_outcome)
  : World F :=
  mkWorld (getKlines w) (openInterest w) answer (ParseFloat w).

(** A snapshot with one field replaced, the others kept. *)
Definition set_OpenInterest (oi : OIData F) (d : Data F) : Data F :=
  mkData (Symbol d) (CurrentPrice d) (PriceChange1h d) (PriceChange4h d)
    (CurrentEMA20 d) (CurrentMACD d) (CurrentRSI7 d) oi (FundingRate d)
    (IntradaySeries d) (LongerTermContext d).
Definition set_FundingRate (rate : F) (d : Data F) : Data F :=
  mkData (Symbol d) (CurrentPrice d) (PriceChange1h d) (PriceChange4h d)
    (CurrentEMA20 d) (CurrentMACD d) (CurrentRSI7 d) (OpenInterest d) rate
    (IntradaySeries d) (LongerTermContext d).

(** The candle limit of the intraday fetch:
    [max(40, floor(120/scanIntervalMinutes))]. *)
Definition intraday_limit (scan : Z) : Z := Z.max 40 (120 / scan).

End Specification.

(** The candle that a row of the response decodes to: the timestamps
    are the entries 0 and 6, which must be numbers; the prices and the
    volume are the entries 1 to 5, read by [parseFloat]. *)
Definition kline_of_row {F} `{Float64 F} (e : Endpoint F) (item : list (any F))
  : option (Kline F) :=
  match item with
  | AnyFloat64 t0 :: v1 :: v2 :: v3 :: v4 :: v5 :: AnyFloat64 t6 :: _ =>
      Some (mkKline (int64_of_float64 e t0)
                    (Wire.parseFloat e v1).1 (Wire.parseFloat e v2).1
                    (Wire.parseFloat e v3).1 (Wire.parseFloat e v4).1
                    (Wire.parseFloat e v5).1 (int64_of_float64 e t6))
  | _ => None
  end.

(** The provider [w] with the candle fetches answered as they are over
    an endpoint: the 4h fetch with [answer4h], any other with
    [answerIntraday]. *)
Definition with_getKlines {F} (w : World F)
    (answerIntraday answer4h : go_result (list (Kline F))) : World F :=
  mkWorld (λ _ interval _,
             if String.eqb interval "4h" then answer4h else answerIntraday)
          (openInterest w) (premiumIndex w) (ParseFloat w).

(** The same endpoint, answering the candle call differently. *)
Definition with_klines_response {F} (e : Endpoint F)
    (answer : string → klines_outcome F) : Endpoint F :=
  mkEndpoint answer (strconv_ParseFloat e) (int64_of_float64 e).

(** ** Sample sequences

    Candle sequences on binary64 at which the theorems are exercised. *)

(** A candle whose open, high, low and close are the integer [c]. *)
Definition candle_at (c : Z) : Kline float :=
  let c := IEEE.float64_of_int c in mkKline 0 c c c c 0%float 0.

(** 30 candles with closes 1..30. *)
Definition rising_candles : list (Kline float) := candle_at <$> seqZ 1 30.

(** 12 candles with closes 1..12. *)
Definition twelve_candles : list (Kline float) := candle_at <$> seqZ 1 12.

(** 15 flat candles: high = low = close = 100. *)
Definition flat_candles : list (Kline float) := replicate 15 (candle_at 100).

(** 21 candles with closes 100, but for the latest: 110. *)
Definition jump_candles : list (Kline float) :=
  replicate 20 (candle_at 100) ++ [candle_at 110].

(** Four candles with closes 5, 3, 4, 6. *)
Definition wave_candles : list (Kline float) := candle_at <$> [5; 3; 4; 6].

(** Four candles whose closes 9, 7, 7, 4 never rise; the volume of
    each is its close. *)
Definition falling_candles : list (Kline float) :=
  (λ c, mkKline 0 c c c c c 0) <$> [9; 7; 7; 4]%float.

(** Three candles whose closes are the least positive binary64 value,
    twice, and then 0. *)
Definition tiny_candles : list (Kline float) :=
  (λ c, mkKline 0 c c c c 0%float 0) <$> [0x1p-1074; 0x1p-1074; 0]%float.

(** Two 4h candles with closes 100 and 105. *)
Definition two_4h_candles : list (Kline float) := [candle_at 100; candle_at 105].

(** A provider that answers the 4h fetch with [klines4h] and any other
    candle fetch with [klinesIntraday]; its open-interest call times
    out and its funding rate is 0.0001. *)
Definition sample_world (klinesIntraday klines4h : list (Kline float))
  : World float :=
  mkWorld (λ _ interval _,
             if String.eqb interval "4h" then Value klines4h
             else Value klinesIntraday)
          (λ _, HttpGetFailed "timeout")
          (λ _, Decoded "0.0001")
          (λ _, 0x1.a36e2eb1c432dp-14%float).

(** 8 candles whose closes alternate between 0 and 1.7e308, a finite
    binary64 value. *)
Definition spike_candles : list (Kline float) :=
  (λ c, mkKline 0 c c c c 0%float 0)
    <$> [0; 0x1.e42d130773b76p+1023; 0; 0x1.e42d130773b76p+1023;
         0; 0x1.e42d130773b76p+1023; 0; 0x1.e42d130773b76p+1023]%float.

(** Four candles on exact arithmetic, closes 5, 3, 4, 6. *)
Definition exact_candles : list (Kline Q) :=
  (λ c, mkKline 0 c c c c 0%Q 0) ∘ inject_Z <$> [5; 3; 4; 6].

(** [int64(x)] as amd64 computes it: the fraction is dropped, and what
    does not fit, NaN included, gives [-2^63]. *)
Definition amd64_int64 (x : float) : Z :=
  match Prim2SF x with
  | S754_zero _ => 0
  | S754_finite s m e =>
      let n := if 0 <=? e then Z.pos m * 2 ^ e else Z.pos m / 2 ^ (- e) in
      if n <? 2 ^ 63 then cond_Zopp s n else - 2 ^ 63
  | _ => - 2 ^ 63
  end.

(** Two rows as the candle endpoint sends them, with the 12 entries of
    a row; the close of the second row is a JSON null. *)
Definition sample_rows : list (list (any float)) :=
  [ [AnyFloat64 1700000000000; AnyString "100.5"; AnyString "101";
     AnyString "99.5"; AnyString "100"; AnyString "12";
     AnyFloat64 1700000179999; AnyString "1200"; AnyFloat64 3;
     AnyString "6"; AnyString "600"; AnyString "0"];
    [AnyFloat64 1700000180000; AnyString "100"; AnyString "101";
     AnyString "99.5"; AnyOther "<nil>"; AnyString "12";
     AnyFloat64 1700000359999; AnyString "1200"; AnyFloat64 3;
     AnyString "6"; AnyString "600"; AnyString "0"] ]%float.

(** An endpoint that answers every call with these rows. *)
Definition sample_endpoint : Endpoint float :=
  mkEndpoint (λ _, KlinesDecoded sample_rows)
    (λ s, if String.eqb s "100.5" then (100.5%float, None)
          else if String.eqb s "101" then (101%float, None)
          else if String.eqb s "99.5" then (99.5%float, None)
          else if String.eqb s "100" then (100%float, None)
          else if String.eqb s "12" then (12%float, None)
          else (0%float, Some "invalid syntax"))
    amd64_int64.

(** The result is in [0, 100] under the order of binary64. *)
Definition in_percent_range (x : float) : bool :=
  PrimFloat.leb 0 x && PrimFloat.leb x 100.

(** ** Binary64 numbers

    The rational number [m * 2^e] that a mantissa [m] and an exponent
    [e] stand for. *)
Definition p2 (e : Z) : Q := (2 ^ e)%Q.
Definition value (m e : Z) : Q := (inject_Z m * p2 e)%Q.

(** The mantissa is at least as wide as its exponent asks for: the
    rounding shifts to the right, never to the left. *)
Definition wide (mx ex : Z) : Prop := ex ≤ fexp prec emax (Zdigits2 mx + ex).

(** The sign bit is not set, or the number is NaN: a zero, a positive
    number, +Inf or NaN. *)
Definition nonneg_or_nan (x : spec_float) : Prop :=
  match x with
  | S754_zero true | S754_infinity true | S754_finite true _ _ => False
  | _ => True
  end.
Definition nonneg_float (x : float) : Prop := nonneg_or_nan (Prim2SF x).

(** The float is not below zero: as above, or the negative zero. *)
Definition not_negative (x : float) : Prop :=
  match Prim2SF x with
  | S754_infinity true | S754_finite true _ _ => False
  | _ => True
  end.

(** A zero of either sign. *)
Definition signed_zero (x : float) : Prop :=
  match Prim2SF x with S754_zero _ => True | _ => False end.

(** * Theorems *)

(** ** Loops over slices *)

Section Loops.
Context {A B S : Type}.

Lemma loop_foldl (g : Z → option B) (f : S → B → S) body idxs bs s :
  (∀ i s, body i s = b ← g i; Some (f s b)) →
  mapM g idxs = Some bs →
  loop body idxs s = Some (foldl f s bs).
Proof.
  intros Hbody Hm%mapM_Some_1. revert s.
  induction Hm as [|i b idxs bs Hg _ IH]; intros s; simpl; [done|].
  rewrite Hbody, Hg. simpl. apply IH.
Qed.

Lemma mapM_seqZ (g : Z → option B) (lo n : Z) (bs : list B) :
  Z.of_nat (length bs) = n →
  (∀ j b, bs !! j = Some b → g (lo + Z.of_nat j) = Some b) →
  mapM g (seqZ lo n) = Some bs.
Proof.
  intros Hlen Hg. apply mapM_Some, Forall2_same_length_lookup_2.
  - rewrite length_seqZ. lia.
  - intros j x b [-> _]%lookup_seqZ Hb. by apply Hg.
Qed.

End Loops.

Section Slices.
Context {A : Type}.
Implicit Types l : list A.

Lemma at_index_lookup l (i : nat) : at_index l (Z.of_nat i) = l !! i.
Proof.
  unfold at_index. destruct (decide _); [|lia]. by rewrite Nat2Z.id.
Qed.

Lemma mapM_at_index l (lo n : nat) :
  (lo + n ≤ length l)%nat →
  mapM (at_index l) (seqZ (Z.of_nat lo) (Z.of_nat n)) = Some (take n (drop lo l)).
Proof.
  intros Hle. apply mapM_seqZ.
  - rewrite length_take, length_drop. lia.
  - intros j b Hb. rewrite <- Nat2Z.inj_add, at_index_lookup.
    apply lookup_take_Some in Hb as [Hb _]. by rewrite lookup_drop in Hb.
Qed.

Lemma mapM_pair_at l (lo n : nat) :
  (S lo + n ≤ length l)%nat →
  mapM (pair_at l) (seqZ (Z.of_nat (S lo)) (Z.of_nat n))
  = Some (take n (drop lo (zip l (tail l)))).
Proof.
  intros Hle. apply mapM_seqZ.
  - rewrite length_take, length_drop, length_zip_with, length_tl. lia.
  - intros j [p c] Hb. apply lookup_take_Some in Hb as [Hb _].
    rewrite lookup_drop in Hb.
    apply lookup_zip_with_Some in Hb as (p' & c' & [= <- <-] & Hp & Hc).
    rewrite lookup_tail in Hc. unfold pair_at.
    rewrite <- Nat2Z.inj_add, at_index_lookup.
    replace (Z.of_nat (S lo + j) - 1) with (Z.of_nat (lo + j)) by lia.
    rewrite at_index_lookup.
    replace (S lo + j)%nat with (S (lo + j)) by lia.
    by rewrite Hc, Hp.
Qed.

End Slices.

Section SliceLoops.
Context {A St : Type}.
Implicit Types l : list A.

Lemma for_range_at_index l (f : St → A → St) body (lo hi : nat) s :
  (lo ≤ hi ≤ length l)%nat →
  (∀ i s, body i s = x ← at_index l i; Some (f s x)) →
  for_range (Z.of_nat lo) (Z.of_nat hi) body s
  = Some (foldl f s (take (hi - lo) (drop lo l))).
Proof.
  intros Hle Hbody. unfold for_range.
  replace (Z.of_nat hi - Z.of_nat lo) with (Z.of_nat (hi - lo)) by lia.
  eapply loop_foldl; [exact Hbody|]. apply mapM_at_index. lia.
Qed.

Lemma for_range_pair_at l (f : St → A * A → St) body (lo hi : nat) s :
  (lo ≤ hi)%nat → (S hi ≤ length l)%nat →
  (∀ i s, body i s = x ← pair_at l i; Some (f s x)) →
  for_range (Z.of_nat (S lo)) (Z.of_nat (S hi)) body s
  = Some (foldl f s (take (hi - lo) (drop lo (zip l (tail l))))).
Proof.
  intros Hle Hhi Hbody. unfold for_range.
  replace (Z.of_nat (S hi) - Z.of_nat (S lo)) with (Z.of_nat (hi - lo)) by lia.
  eapply loop_foldl; [exact Hbody|]. apply mapM_pair_at. lia.
Qed.

End SliceLoops.

(** ** The indicator engine against its specification *)

Section Refinement.
Context {F : Type} `{Float64 F}.
Implicit Types klines : list (Kline F).

Lemma len_nat klines : len klines = Z.of_nat (length klines).
Proof. done. Qed.

Local Ltac side := intros; first [reflexivity | lia].

Lemma calculateEMA_spec klines (period : nat) :
  calculateEMA klines (Z.of_nat period)
  = Some (EMA klines period).
Proof.
  unfold calculateEMA, EMA. destruct (decide _) as [|Hlen]; [done|].
  unfold len in Hlen.
  rewrite (for_range_at_index klines (λ sum k, (sum + Close k)%F) _ 0 period)
    by side.
  simpl. rewrite len_nat.
  rewrite (for_range_at_index klines (ema_step period)) by side.
  f_equal. rewrite Nat.sub_0_r, (take_ge (drop period klines)) by (rewrite length_drop; lia).
  unfold ema_spec, ema_seed, sum_list. by rewrite foldl_fmap.
Qed.

(** A negative period is outside the theorems below: the second loop
    of [calculateEMA] then starts at a negative index. *)
Lemma calculateEMA_negative_period klines period :
  period < 0 → calculateEMA klines period = None.
Proof.
  intros Hneg. unfold calculateEMA, for_range, len.
  destruct (decide _); [lia|].
  rewrite (seqZ_nil 0) by lia. simpl.
  rewrite seqZ_cons by lia. simpl.
  unfold at_index. by destruct (decide _); [lia|].
Qed.

Lemma calculateMACD_spec klines :
  calculateMACD klines = Some (MACD klines).
Proof.
  unfold calculateMACD, MACD. destruct (decide _) as [|Hlen]; [done|].
  change (calculateEMA klines 12) with (calculateEMA klines (Z.of_nat 12)).
  change (calculateEMA klines 26) with (calculateEMA klines (Z.of_nat 26)).
  rewrite !calculateEMA_spec.
  unfold EMA. simpl.
  repeat (destruct (decide _); [lia|]). reflexivity.
Qed.

Lemma deltas_zip klines : deltas klines = delta_of <$> zip klines (tail klines).
Proof.
  unfold deltas. rewrite zip_with_zip. apply list_fmap_ext. by intros ? [] ?.
Qed.

Lemma seed_loop_foldl (ps : list (Kline F * Kline F)) gains losses :
  foldl (λ (s : F * F) pc,
           if fgt (delta_of pc) F0 then ((s.1 + delta_of pc)%F, s.2)
           else (s.1, (s.2 + - delta_of pc)%F)) (gains, losses) ps
  = (foldl (λ gains d, if fgt d F0 then (gains + d)%F else gains) gains
           (delta_of <$> ps),
     foldl (λ losses d, if fgt d F0 then losses else (losses + - d)%F) losses
           (delta_of <$> ps)).
Proof.
  revert gains losses. induction ps as [|pc ps IH]; intros gains losses; [done|].
  simpl. destruct (fgt (delta_of pc) F0); simpl; apply IH.
Qed.

Lemma calculateRSI_spec klines (period : nat) :
  calculateRSI klines (Z.of_nat period)
  = Some (RSI klines period).
Proof.
  unfold calculateRSI, RSI. destruct (decide _) as [|Hlen]; [done|].
  unfold len in Hlen.
  assert (length klines = S (length klines - 1)) as Hlast by lia.
  replace (Z.of_nat period + 1) with (Z.of_nat (S period)) by lia.
  change 1 with (Z.of_nat 1) at 1.
  erewrite (for_range_pair_at klines
    (λ (s : F * F) pc,
       if fgt (delta_of pc) F0 then ((s.1 + delta_of pc)%F, s.2)
       else (s.1, (s.2 + - delta_of pc)%F)) _ 0 period); [|lia|lia|].
  2: { intros i [gains losses]. unfold pair_at.
       destruct (at_index klines i) as [ki|]; [|done]; simpl.
       destruct (at_index klines (i - 1)) as [kp|]; [|done]; simpl.
       unfold delta_of; simpl. by destruct (fgt _ _). }
  rewrite seed_loop_foldl. simpl. rewrite len_nat, Hlast.
  erewrite (for_range_pair_at klines
    (λ (s : F * F) pc, rsi_step period s (delta_of pc))); [|lia|lia|].
  2: { intros i [avgGain avgLoss]. unfold pair_at.
       destruct (at_index klines i) as [ki|]; [|done]; simpl.
       destruct (at_index klines (i - 1)) as [kp|]; [|done]; simpl.
       unfold rsi_step, delta_of; simpl. by destruct (fgt _ _). }
  rewrite Nat.sub_0_r, drop_0, <- foldl_fmap, !fmap_take, fmap_drop, <- deltas_zip.
  rewrite (take_ge (drop period _))
    by (rewrite length_drop; unfold deltas;
        rewrite length_zip_with, length_tl; lia).
  fold (sum_gains (take period (deltas klines))).
  fold (sum_losses (take period (deltas klines))).
  fold (rsi_seed klines period). fold (rsi_averages klines period).
  unfold rsi_spec, rsi_of_averages.
  destruct (rsi_averages klines period) as [avgGain avgLoss]. simpl.
  by destruct (feq avgLoss F0).
Qed.

Lemma true_ranges_length klines :
  length (true_ranges klines) = (length klines - 1)%nat.
Proof. unfold true_ranges. rewrite length_zip_with, length_tl. lia. Qed.

Lemma true_ranges_lookup klines (j : nat) prev cur :
  klines !! j = Some prev → klines !! S j = Some cur →
  true_ranges klines !! j = Some (true_range prev cur).
Proof.
  intros Hp Hc. unfold true_ranges. apply lookup_zip_with_Some.
  exists prev, cur. by rewrite lookup_tail.
Qed.

(** The loop that fills [trs]: after the indices [lo+1 ..] have been
    written, the slots up to [lo] are as they were and the others hold
    the true ranges. *)
Lemma true_range_loop klines body (n lo : nat) (trs : list F) :
  (∀ i trs, body i trs
            = pc ← pair_at klines i; set_index trs i (true_range pc.1 pc.2)) →
  (S lo + n = length klines)%nat → length trs = length klines →
  loop body (seqZ (Z.of_nat (S lo)) (Z.of_nat n)) trs
  = Some (take (S lo) trs ++ drop lo (true_ranges klines)).
Proof.
  intros Hbody. revert lo trs.
  induction n as [|n IH]; intros lo trs Hn Htrs.
  - simpl. rewrite take_ge, drop_ge, app_nil_r by (rewrite ?true_ranges_length; lia).
    done.
  - rewrite seqZ_cons by lia. simpl.
    destruct (lookup_lt_is_Some_2 klines lo) as [prev Hprev]; [lia|].
    destruct (lookup_lt_is_Some_2 klines (S lo)) as [cur Hcur]; [lia|].
    rewrite Hbody. unfold pair_at.
    replace (Z.of_nat (S lo) - 1) with (Z.of_nat lo) by lia.
    rewrite !at_index_lookup, Hcur, Hprev. simpl.
    unfold set_index. destruct (decide _) as [_|Hout]; [|unfold len in Hout; lia].
    simpl. rewrite Nat2Z.id.
    replace (Z.succ (Z.of_nat (S lo))) with (Z.of_nat (S (S lo))) by lia.
    replace (Z.pred (Z.of_nat (S n))) with (Z.of_nat n) by lia.
    rewrite IH by (rewrite ?length_insert; lia). f_equal.
    rewrite (take_S_r _ (S lo) (true_range prev cur))
      by (apply list_lookup_insert_eq; lia).
    rewrite take_insert_ge by lia.
    rewrite (drop_S (true_ranges klines) (true_range prev cur) lo)
      by (by apply true_ranges_lookup).
    by rewrite <- app_assoc.
Qed.

Lemma true_range_fill klines body :
  (1 ≤ length klines)%nat →
  (∀ i trs, body i trs
            = pc ← pair_at klines i; set_index trs i (true_range pc.1 pc.2)) →
  for_range 1 (len klines) body (replicate (length klines) F0)
  = Some (F0 :: true_ranges klines).
Proof.
  intros Hlen Hbody. unfold for_range, len.
  replace (Z.of_nat (length klines) - 1) with (Z.of_nat (length klines - 1)) by lia.
  change 1 with (Z.of_nat 1).
  rewrite (true_range_loop klines body (length klines - 1) 0 _ Hbody)
    by (rewrite ?length_replicate; lia).
  destruct klines; [simpl in Hlen; lia|]. by rewrite drop_0.
Qed.

Lemma calculateATR_spec klines (period : nat) :
  calculateATR klines (Z.of_nat period)
  = Some (ATR klines period).
Proof.
  unfold calculateATR, ATR. destruct (decide _) as [|Hlen]; [done|].
  unfold len in Hlen.
  assert (length klines = S (length klines - 1)) as Hlast by lia.
  erewrite (true_range_fill klines); [|lia|].
  2: { intros i trs. unfold pair_at.
       destruct (at_index klines i); [|done]; simpl.
       by destruct (at_index klines (i - 1)). }
  simpl. rewrite len_nat.
  replace (Z.of_nat period + 1) with (Z.of_nat (S period)) by lia.
  change 1 with (Z.of_nat 1).
  rewrite (for_range_at_index (F0 :: true_ranges klines) fadd)
    by (intros; first [reflexivity | simpl; rewrite true_ranges_length; lia]).
  simpl.
  rewrite (for_range_at_index (F0 :: true_ranges klines) (wilder period))
    by (intros; first [reflexivity | simpl; rewrite true_ranges_length; lia]).
  simpl. f_equal. rewrite Nat.sub_0_r.
  rewrite (take_ge (drop period _))
    by (rewrite length_drop, true_ranges_length; lia).
  reflexivity.
Qed.

(** ** The series sampler *)

Lemma at_index_Some klines i k :
  at_index klines i = Some k → 0 ≤ i < len klines.
Proof.
  unfold at_index, len. destruct (decide _); [|done].
  intros Hk%lookup_lt_Some. lia.
Qed.

Lemma slice_to_prefix klines i :
  0 ≤ i < len klines → slice_to klines (i + 1) = Some (prefix klines i).
Proof. intros Hi. unfold slice_to. destruct (decide _); [done|lia]. Qed.

Lemma len_prefix klines i : 0 ≤ i < len klines → len (prefix klines i) = i + 1.
Proof. unfold len, prefix. rewrite length_take. lia. Qed.

(** One gated block of the sampling loops: the indicator is recomputed
    on the prefix when the index reaches the gate, nothing is appended
    otherwise. *)
Lemma gated_block {T} (indicator : list (Kline F) → option F) indicator_spec
    (gate : Z) (app : T → F → T) klines i (data : T) :
  0 ≤ i < len klines →
  (∀ l, gate < len l → indicator l = Some (indicator_spec l)) →
  (if decide (i >= gate) then
     pre ← slice_to klines (i + 1); v ← indicator pre; Some (app data v)
   else Some data)
  = Some (if decide (gate ≤ i) then app data (indicator_spec (prefix klines i))
          else data).
Proof.
  intros Hi Hind. destruct (decide (i >= gate)), (decide (gate ≤ i)); try lia; [|done].
  rewrite slice_to_prefix by done. simpl.
  rewrite Hind by (rewrite len_prefix; lia). done.
Qed.

Lemma calculateEMA_enough klines (period : nat) :
  Z.of_nat period - 1 < len klines →
  calculateEMA klines (Z.of_nat period) = Some (ema_spec klines period).
Proof.
  intros Hlen. rewrite calculateEMA_spec. unfold EMA. by destruct (decide _); [lia|].
Qed.

Lemma calculateMACD_enough klines :
  25 < len klines → calculateMACD klines = Some (macd_spec klines).
Proof.
  intros Hlen. rewrite calculateMACD_spec. unfold MACD. by destruct (decide _); [lia|].
Qed.

Lemma calculateRSI_enough klines (period : nat) :
  Z.of_nat period < len klines →
  calculateRSI klines (Z.of_nat period) = Some (rsi_spec klines period).
Proof.
  intros Hlen. rewrite calculateRSI_spec. unfold RSI. by destruct (decide _); [lia|].
Qed.

Lemma sample_on_cons idxs i gate indicator klines :
  sample_on (i :: idxs) gate indicator klines
  = (if decide (gate ≤ i) then [indicator (prefix klines i)] else [])
    ++ sample_on idxs gate indicator klines.
Proof. unfold sample_on. rewrite filter_cons. by destruct (decide _). Qed.

Lemma trailing_window_start klines :
  seqZ (window_start klines) (len klines - window_start klines)
  = trailing_window klines.
Proof.
  unfold trailing_window, window_start. destruct (decide _); f_equal; lia.
Qed.

Lemma window_candles klines :
  mapM (at_index klines) (trailing_window klines)
  = Some (drop (length klines - 10) klines).
Proof.
  unfold trailing_window, len.
  replace (Z.max 0 (Z.of_nat (length klines) - 10))
    with (Z.of_nat (length klines - 10)) by lia.
  replace (Z.min 10 (Z.of_nat (length klines)))
    with (Z.of_nat (length klines - (length klines - 10))) by lia.
  rewrite mapM_at_index by lia.
  by rewrite take_ge by (rewrite length_drop; lia).
Qed.

Lemma intraday_loop klines body idxs ks data :
  (∀ i data, body i data =
     ki ← at_index klines i;
     let data := append_MidPrices data (Close ki) in
     data ← (if decide (i >= 19) then
               pre ← slice_to klines (i + 1);
               ema20 ← calculateEMA pre 20;
               Some (append_EMA20Values data ema20)
             else Some data);
     data ← (if decide (i >= 25) then
               pre ← slice_to klines (i + 1);
               macd ← calculateMACD pre;
               Some (append_MACDValues data macd)
             else Some data);
     data ← (if decide (i >= 7) then
               pre ← slice_to klines (i + 1);
               rsi7 ← calculateRSI pre 7;
               Some (append_RSI7Values data rsi7)
             else Some data);
     if decide (i >= 14) then
       pre ← slice_to klines (i + 1);
       rsi14 ← calculateRSI pre 14;
       Some (append_RSI14Values data rsi14)
     else Some data) →
  mapM (at_index klines) idxs = Some ks →
  loop body idxs data
  = Some (mkIntradayData
            (MidPrices data ++ (Close <$> ks))
            (EMA20Values data ++ sample_on idxs 19 (λ l, ema_spec l 20) klines)
            (MACDValues data ++ sample_on idxs 25 macd_spec klines)
            (RSI7Values data ++ sample_on idxs 7 (λ l, rsi_spec l 7) klines)
            (RSI14Values data ++ sample_on idxs 14 (λ l, rsi_spec l 14) klines)
            (Interval data)).
Proof.
  intros Hbody Hm%mapM_Some_1. revert data.
  induction Hm as [|i k idxs ks Hk _ IH]; intros data.
  - simpl. unfold sample_on. simpl. rewrite !app_nil_r. by destruct data.
  - simpl. rewrite Hbody, Hk. simpl.
    pose proof (at_index_Some _ _ _ Hk) as Hi.
    rewrite (gated_block (λ l, calculateEMA l 20) (λ l, ema_spec l 20) 19)
      by (done || intros; by apply (calculateEMA_enough _ 20)).
    simpl.
    rewrite (gated_block calculateMACD macd_spec 25)
      by (done || intros; by apply calculateMACD_enough).
    simpl.
    rewrite (gated_block (λ l, calculateRSI l 7) (λ l, rsi_spec l 7) 7)
      by (done || intros; by apply (calculateRSI_enough _ 7)).
    simpl.
    rewrite (gated_block (λ l, calculateRSI l 14) (λ l, rsi_spec l 14) 14)
      by (done || intros; by apply (calculateRSI_enough _ 14)).
    simpl. rewrite IH, !sample_on_cons.
    repeat destruct (decide _); simpl; rewrite <- ?app_assoc; reflexivity.
Qed.

Lemma calculateIntradaySeries_spec klines :
  calculateIntradaySeries klines
  = Some (intraday_spec klines).
Proof.
  unfold calculateIntradaySeries, for_range.
  rewrite trailing_window_start.
  erewrite intraday_loop; [reflexivity|reflexivity|apply window_candles].
Qed.

Lemma longer_term_loop klines body idxs ks (macds rsis : list F) :
  (∀ i s, body i s =
     let '(macdValues, rsi14Values) := s in
     macdValues ← (if decide (i >= 25) then
                     pre ← slice_to klines (i + 1);
                     macd ← calculateMACD pre;
                     Some (macdValues ++ [macd])
                   else Some macdValues);
     if decide (i >= 14) then
       pre ← slice_to klines (i + 1);
       rsi14 ← calculateRSI pre 14;
       Some (macdValues, rsi14Values ++ [rsi14])
     else Some (macdValues, rsi14Values)) →
  mapM (at_index klines) idxs = Some ks →
  loop body idxs (macds, rsis)
  = Some (macds ++ sample_on idxs 25 macd_spec klines,
          rsis ++ sample_on idxs 14 (λ l, rsi_spec l 14) klines).
Proof.
  intros Hbody Hm%mapM_Some_1. revert macds rsis.
  induction Hm as [|i k idxs ks Hk _ IH]; intros macds rsis.
  - simpl. unfold sample_on. simpl. by rewrite !app_nil_r.
  - simpl. rewrite Hbody, !sample_on_cons.
    pose proof (at_index_Some _ _ _ Hk) as Hi.
    destruct (decide (i >= 25)), (decide (i >= 14));
      repeat (destruct (decide (_ ≤ i)); try lia); simpl;
      rewrite ?slice_to_prefix by done; simpl;
      rewrite ?calculateMACD_enough by (rewrite len_prefix; lia); simpl;
      rewrite ?(calculateRSI_enough _ 14) by (rewrite len_prefix; lia); simpl;
      rewrite IH, <- ?app_assoc; reflexivity.
Qed.

Lemma at_index_last klines :
  at_index klines (len klines - 1) = last klines.
Proof.
  unfold at_index, len. rewrite last_lookup.
  destruct (decide _) as [|Hneg].
  - f_equal. lia.
  - destruct klines; [done|]. simpl in Hneg. lia.
Qed.

Lemma calculateLongerTermData_spec klines :
  calculateLongerTermData klines = Some (longer_term_spec klines).
Proof.
  unfold calculateLongerTermData.
  change (calculateEMA klines 20) with (calculateEMA klines (Z.of_nat 20)).
  change (calculateEMA klines 50) with (calculateEMA klines (Z.of_nat 50)).
  change (calculateATR klines 3) with (calculateATR klines (Z.of_nat 3)).
  change (calculateATR klines 14) with (calculateATR klines (Z.of_nat 14)).
  rewrite !calculateEMA_spec, !calculateATR_spec.
  simpl.
  assert ((if decide (len klines > 0) then
             last ← at_index klines (len klines - 1);
             Some (Volume last,
                   (foldl (λ sum k, (sum + Volume k)%F) F0 klines
                    / of_int (len klines))%F)
           else Some (F0, F0))
          = Some (current_volume klines, average_volume klines)) as ->.
  { unfold current_volume, average_volume, sum_list.
    rewrite foldl_fmap, at_index_last.
    destruct (decide _) as [Hpos|Hpos].
    - destruct (last klines) eqn:Hl; [by destruct klines|].
      apply last_None in Hl. subst. unfold len in Hpos. simpl in Hpos. lia.
    - destruct klines; [done|]. unfold len in Hpos. simpl in Hpos. lia. }
  simpl. unfold for_range. rewrite trailing_window_start.
  erewrite longer_term_loop;
    [reflexivity|by intros i [macds rsis]|apply window_candles].
Qed.

(** ** The snapshot aggregator *)

Lemma priceChange4h_spec klines4h current :
  priceChange4h klines4h current = Some (price_change klines4h 1 current).
Proof.
  unfold priceChange4h, price_change, lookback, percent_change, at_index, len.
  destruct (decide (_ >= 2)), (decide (1 < _)%nat); try lia; [|done].
  destruct (decide _); [|lia].
  replace (Z.to_nat (Z.of_nat (length klines4h) - 2))
    with (length klines4h - 1 - 1)%nat by lia.
  destruct (lookup_lt_is_Some_2 klines4h (length klines4h - 1 - 1)) as [k ->];
    [lia|].
  simpl. by destruct (fgt _ _).
Qed.

Lemma priceChange1h_spec klinesIntraday current scan :
  1 ≤ scan →
  priceChange1h klinesIntraday current scan
  = Some (price_change klinesIntraday (Z.to_nat (60 / scan)) current).
Proof.
  intros Hscan.
  unfold priceChange1h, int_div, price_change, lookback, percent_change,
    at_index, len.
  destruct (decide (scan = 0)); [lia|]. simpl.
  rewrite Z.quot_div_nonneg by lia.
  pose proof (Z.div_pos 60 scan ltac:(lia) ltac:(lia)) as Hk.
  destruct (decide (_ >= _)), (decide (_ < _)%nat); try lia; [|done].
  destruct (decide _); [|lia].
  replace (Z.to_nat (Z.of_nat (length klinesIntraday) - 60 / scan - 1))
    with (length klinesIntraday - 1 - Z.to_nat (60 / scan))%nat by lia.
  destruct (lookup_lt_is_Some_2 klinesIntraday
              (length klinesIntraday - 1 - Z.to_nat (60 / scan))) as [k ->];
    [lia|].
  simpl. by destruct (fgt _ _).
Qed.

Lemma calculateIntradayLimit_spec scan :
  1 ≤ scan → calculateIntradayLimit scan = Some (intraday_limit scan).
Proof.
  intros Hscan. unfold calculateIntradayLimit, int_div, intraday_limit.
  destruct (decide (scan = 0)); [lia|]. simpl.
  rewrite Z.quot_div_nonneg by lia.
  destruct (decide _); f_equal; lia.
Qed.

(** Once both candle fetches have answered, the rest of
    [GetWithInterval] neither fails nor panics, unless the intraday
    sequence is empty. *)
Lemma GetWithInterval_fetched (w : World F) symbol scan klinesIntraday klines4h :
  1 ≤ scan →
  getKlines w (Normalize symbol) (selectInterval scan) (intraday_limit scan)
  = Value klinesIntraday →
  getKlines w (Normalize symbol) "4h" 60 = Value klines4h →
  GetWithInterval w symbol scan
  = latest ← last klinesIntraday;
    Some (Value (snapshot_spec w symbol scan klinesIntraday klines4h latest)).
Proof.
  intros Hscan Hi H4. unfold GetWithInterval.
  rewrite calculateIntradayLimit_spec by done. simpl. rewrite Hi, H4.
  rewrite at_index_last. destruct (last klinesIntraday) as [latest|]; [|done].
  simpl.
  change (calculateEMA klinesIntraday 20)
    with (calculateEMA klinesIntraday (Z.of_nat 20)).
  change (calculateRSI klinesIntraday 7)
    with (calculateRSI klinesIntraday (Z.of_nat 7)).
  rewrite calculateEMA_spec, calculateMACD_spec, calculateRSI_spec. simpl.
  rewrite priceChange1h_spec, priceChange4h_spec by done. simpl.
  rewrite calculateIntradaySeries_spec, calculateLongerTermData_spec.
  reflexivity.
Qed.

End Refinement.

(** * The claims *)

Section EMA.

(** C2. For every candle sequence and period, [calculateEMA] returns 0
    when the sequence is shorter than the period; otherwise it returns
    the value obtained by seeding with the simple average of the first
    [period] closes and applying [ema = (close - ema) * (2/(period+1)) + ema]
    once per candle, from index [period] to the last index, oldest
    first.  For 30 candles with closes 1..30 and period 20 the seed is
    10.5 and the recurrence runs over the candles at indices 20..29
    (the result is 20.5).  The period ranges over the non-negative
    ints. *)
Theorem calculateEMA_seed_and_recurrence :
  (∀ (F : Type) (ops : Float64 F) (klines : list (Kline F)) (period : nat),
     calculateEMA klines (Z.of_nat period)
     = Some (if decide (len klines < Z.of_nat period) then F0
             else foldl (ema_step period) (ema_seed klines period)
                        (drop period klines))
     ∧ (Z.of_nat period ≤ len klines →
        mapM (at_index klines)
             (seqZ (Z.of_nat period) (len klines - Z.of_nat period))
        = Some (drop period klines)))
  ∧ (∀ klines : list (Kline float),
       Close <$> klines = IEEE.float64_of_int <$> seqZ 1 30 →
       ema_seed klines 20 = 10.5%float
       ∧ mapM (at_index klines) (seqZ 20 10) = Some (drop 20 klines)
       ∧ calculateEMA klines 20
         = Some (foldl (ema_step 20) 10.5%float (drop 20 klines))
       ∧ calculateEMA klines 20 = Some 20.5%float).
Proof.
  split.
  - intros F ops klines period. split; [apply calculateEMA_spec|].
    intros Hlen. unfold len in *.
    replace (Z.of_nat (length klines) - Z.of_nat period)
      with (Z.of_nat (length klines - period)) by lia.
    rewrite mapM_at_index by lia.
    by rewrite take_ge by (rewrite length_drop; lia).
  - intros klines Hc.
    assert (length klines = 30%nat) as Hlen
      by (apply (f_equal length) in Hc; by rewrite length_fmap in Hc).
    assert (ema_seed klines 20 = 10.5%float) as Hseed
      by (unfold ema_seed; rewrite fmap_take, Hc; by vm_compute).
    assert (calculateEMA klines 20
            = Some (foldl (ema_step 20) 10.5%float (drop 20 klines))) as Hema.
    { change 20 with (Z.of_nat 20). rewrite calculateEMA_spec.
      unfold EMA, len. rewrite Hlen. simpl. unfold ema_spec. by rewrite Hseed. }
    repeat split; [done| |done|].
    + change (mapM (at_index klines) (seqZ (Z.of_nat 20) (Z.of_nat 10))
              = Some (drop 20 klines)).
      rewrite mapM_at_index by lia.
      by rewrite take_ge by (rewrite length_drop; lia).
    + rewrite Hema. f_equal.
      change (foldl (ema_step 20) 10.5%float (drop 20 klines))
        with (foldl (λ ema k, ema_step 20 ema (mkKline 0 F0 F0 F0 (Close k) F0 0))
                    10.5%float (drop 20 klines)).
      rewrite <- (foldl_fmap (λ ema c, ema_step 20 ema (mkKline 0 F0 F0 F0 c F0 0))).
      rewrite fmap_drop, Hc. by vm_compute.
Qed.

Lemma calculateEMA_seed_and_recurrence_witness :
  calculateEMA rising_candles 20 = Some 20.5%float
  ∧ mapM (at_index rising_candles) (seqZ 20 (len rising_candles - 20))
    = Some (drop 20 rising_candles).
Proof.
  split.
  - apply (proj2 calculateEMA_seed_and_recurrence rising_candles). by vm_compute.
  - apply (proj2 (proj1 calculateEMA_seed_and_recurrence float _
                         rising_candles 20%nat)).
    by vm_compute.
Defined.

End EMA.

Section MACD.

(** C5. [calculateMACD] returns [EMA(sequence, 12) - EMA(sequence, 26)]
    for every sequence of at least 26 candles, both being what
    [calculateEMA] returns on the same full sequence; it returns 0 for
    every shorter sequence, also where [calculateEMA(sequence, 12)] is
    not 0 (closes 1..12: EMA12 is 6.5, MACD is 0). *)
Theorem calculateMACD_difference_of_EMAs :
  (∀ (F : Type) (ops : Float64 F) (klines : list (Kline F)),
     ∃ ema12 ema26,
       calculateEMA klines 12 = Some ema12
       ∧ calculateEMA klines 26 = Some ema26
       ∧ calculateMACD klines
         = Some (if decide (len klines < 26) then F0 else (ema12 - ema26)%F))
  ∧ (len twelve_candles = 12
     ∧ calculateEMA twelve_candles 12 = Some 6.5%float
     ∧ calculateMACD twelve_candles = Some 0%float).
Proof.
  split; [|by vm_compute].
  intros F ops klines. exists (EMA klines 12), (EMA klines 26).
  split; [apply (calculateEMA_spec klines 12)|].
  split; [apply (calculateEMA_spec klines 26)|].
  rewrite calculateMACD_spec. unfold MACD, macd_spec, EMA.
  by repeat (destruct (decide _); try lia).
Qed.

End MACD.

Section ATR.

Local Ltac flat_fields :=
  repeat match goal with
  | Hall : Forall _ (_ :: _) |- _ =>
      apply Forall_cons_1 in Hall as [(? & ? & ?) Hall]
  | k : Kline float |- _ => destruct k; simpl in *; subst
  end.

(** C4. [calculateATR] returns 0 when the sequence has at most [period]
    candles; otherwise it returns the average of the true ranges
    [max(high-low, |high-prevClose|, |low-prevClose|)] of the candles at
    positions 1..period (the first candle has none), then smoothed by
    [atr = (atr*(period-1) + tr)/period] over each remaining candle.
    For 15 candles with high = low = close = 100 and period 14 the
    result is 0.  The period ranges over the non-negative ints. *)
Theorem calculateATR_true_range_average :
  (∀ (F : Type) (ops : Float64 F) (klines : list (Kline F)) (period : nat),
     calculateATR klines (Z.of_nat period)
     = Some (if decide (len klines ≤ Z.of_nat period) then F0
             else foldl (wilder period)
                    (sum_list (take period (true_ranges klines))
                     / of_int (Z.of_nat period))%F
                    (drop period (true_ranges klines)))
     ∧ length (true_ranges klines) = (length klines - 1)%nat
     ∧ (∀ (j : nat) prev cur,
          klines !! j = Some prev → klines !! S j = Some cur →
          true_ranges klines !! j
          = Some (fmax (High cur - Low cur)%F
                       (fmax (fabs (High cur - Close prev)%F)
                             (fabs (Low cur - Close prev)%F)))))
  ∧ (∀ klines : list (Kline float),
       length klines = 15%nat →
       Forall (λ k, High k = 100%float ∧ Low k = 100%float
                    ∧ Close k = 100%float) klines →
       calculateATR klines 14 = Some 0%float).
Proof.
  split.
  - intros F ops klines period.
    split; [apply calculateATR_spec|].
    split; [apply true_ranges_length|]. apply true_ranges_lookup.
  - intros klines Hlen Hflat.
    do 16 (destruct klines as [|? klines]; try discriminate Hlen).
    flat_fields. by vm_compute.
Qed.

Lemma calculateATR_true_range_average_witness :
  calculateATR flat_candles 14 = Some 0%float
  ∧ true_ranges flat_candles !! 0%nat = Some 0%float.
Proof.
  split.
  - apply (proj2 calculateATR_true_range_average flat_candles); [by vm_compute|].
    unfold flat_candles. apply Forall_replicate. by vm_compute.
  - etrans;
      [apply (proj2 (proj2 (proj1 calculateATR_true_range_average float _
                              flat_candles 14%nat)) 0%nat
                (candle_at 100) (candle_at 100))|];
      by vm_compute.
Defined.

End ATR.

Section Series.

(** C6. For a sequence of N candles, [calculateIntradaySeries] walks the
    candle indices [max(0, N-10) .. N-1].  Each trailing series holds,
    for the indices of that window that reach the indicator's gate
    (EMA20: i >= 19, MACD: i >= 25, RSI7: i >= 7, RSI14: i >= 14) and
    for no other, what the indicator returns on the prefix [0..i]; such
    a prefix is long enough for the indicator, so no point is a
    fail-closed zero.  The mid-price series holds the closes of the
    whole window, min(10, N) of them.  On 5 candles the EMA20 series is
    empty and there are 5 mid prices. *)
Theorem calculateIntradaySeries_sampling
    (F : Type) (ops : Float64 F) (klines : list (Kline F)) :
  ∃ data,
    calculateIntradaySeries klines = Some data
    ∧ mapM (λ i, k ← at_index klines i; Some (Close k)) (trailing_window klines)
      = Some (MidPrices data)
    ∧ length (MidPrices data) = (10 `min` length klines)%nat
    ∧ EMA20Values data
      = (λ i, ema_spec (prefix klines i) 20)
          <$> filter (λ i, 19 ≤ i) (trailing_window klines)
    ∧ MACDValues data
      = (λ i, macd_spec (prefix klines i))
          <$> filter (λ i, 25 ≤ i) (trailing_window klines)
    ∧ RSI7Values data
      = (λ i, rsi_spec (prefix klines i) 7)
          <$> filter (λ i, 7 ≤ i) (trailing_window klines)
    ∧ RSI14Values data
      = (λ i, rsi_spec (prefix klines i) 14)
          <$> filter (λ i, 14 ≤ i) (trailing_window klines)
    ∧ (∀ i, i ∈ trailing_window klines →
         Z.max 0 (len klines - 10) ≤ i ≤ len klines - 1
         ∧ (19 ≤ i → 20 ≤ len (prefix klines i)
                     ∧ calculateEMA (prefix klines i) 20
                       = Some (ema_spec (prefix klines i) 20))
         ∧ (25 ≤ i → 26 ≤ len (prefix klines i)
                     ∧ calculateMACD (prefix klines i)
                       = Some (macd_spec (prefix klines i)))
         ∧ (7 ≤ i → 7 < len (prefix klines i)
                    ∧ calculateRSI (prefix klines i) 7
                      = Some (rsi_spec (prefix klines i) 7))
         ∧ (14 ≤ i → 14 < len (prefix klines i)
                     ∧ calculateRSI (prefix klines i) 14
                       = Some (rsi_spec (prefix klines i) 14)))
    ∧ (length klines = 5%nat →
       EMA20Values data = [] ∧ length (MidPrices data) = 5%nat).
Proof.
  exists (intraday_spec klines).
  split; [apply calculateIntradaySeries_spec|].
  assert (length (mid_prices klines) = (10 `min` length klines)%nat) as Hmid
    by (unfold mid_prices; rewrite length_fmap, length_drop; lia).
  split.
  { simpl. unfold mid_prices. apply mapM_Some.
    pose proof (window_candles klines) as Hw%mapM_Some_1.
    rewrite Forall2_fmap_r. eapply Forall2_impl; [exact Hw|].
    intros i k ->. done. }
  split; [done|]. do 4 (split; [reflexivity|]).
  split.
  - intros i Hi. unfold trailing_window in Hi. apply elem_of_seqZ in Hi.
    assert (0 ≤ i < len klines) as Hin by lia.
    pose proof (len_prefix klines i Hin) as Hp.
    split; [lia|].
    repeat split; try lia.
    + apply (calculateEMA_enough _ 20). lia.
    + apply calculateMACD_enough. lia.
    + apply (calculateRSI_enough _ 7). lia.
    + apply (calculateRSI_enough _ 14). lia.
  - intros H5. split; [|simpl; lia].
    simpl. unfold sample, sample_on, trailing_window, len. rewrite H5.
    by vm_compute.
Qed.

Lemma calculateIntradaySeries_sampling_witness :
  ∃ data, calculateIntradaySeries twelve_candles = Some data
          ∧ length (MidPrices data) = 10%nat
          ∧ (7 < len (prefix twelve_candles 9)
             ∧ calculateRSI (prefix twelve_candles 9) 7 = Some 100%float).
Proof.
  destruct (calculateIntradaySeries_sampling float _ twelve_candles)
    as (data & Hd & _ & Hlen & _ & _ & _ & _ & Hpts & _).
  exists data. split; [exact Hd|]. split; [exact Hlen|].
  destruct (Hpts 9) as (_ & _ & _ & H7 & _);
    [unfold trailing_window; apply elem_of_seqZ;
     change (len twelve_candles) with 12; lia|].
  destruct H7 as [Hlong Hrsi]; [lia|]. split; [exact Hlong|].
  rewrite Hrsi. by vm_compute.
Defined.

End Series.

(** ** Price changes of the snapshot *)

Section PriceChange.
Context {F : Type} `{Float64 F}.
Implicit Types klines : list (Kline F).

Lemma price_change_enough klines (k : nat) current :
  (k < length klines)%nat →
  ∃ past, at_index klines (len klines - 1 - Z.of_nat k) = Some past
          ∧ klines !! (length klines - 1 - k)%nat = Some past
          ∧ price_change klines k current = percent_change current (Close past).
Proof.
  intros Hk. unfold price_change, lookback, at_index, len.
  destruct (decide (k < _)%nat); [|lia]. destruct (decide (0 ≤ _)); [|lia].
  replace (Z.to_nat (Z.of_nat (length klines) - 1 - Z.of_nat k))
    with (length klines - 1 - k)%nat by lia.
  destruct (lookup_lt_is_Some_2 klines (length klines - 1 - k)) as [past Hp];
    [lia|].
  exists past. by rewrite Hp.
Qed.

Lemma price_change_short klines (k : nat) current :
  (length klines ≤ k)%nat → price_change klines k current = F0.
Proof.
  intros Hk. unfold price_change, lookback. by destruct (decide _); [lia|].
Qed.

Lemma GetWithInterval_snapshot (w : World F) symbol scan klinesIntraday klines4h :
  1 ≤ scan →
  getKlines w (Normalize symbol) (selectInterval scan) (intraday_limit scan)
  = Value klinesIntraday →
  getKlines w (Normalize symbol) "4h" 60 = Value klines4h →
  klinesIntraday ≠ [] →
  ∃ latest,
    last klinesIntraday = Some latest
    ∧ GetWithInterval w symbol scan
      = Some (Value (snapshot_spec w symbol scan klinesIntraday klines4h latest)).
Proof.
  intros Hscan Hi H4 Hne.
  rewrite (GetWithInterval_fetched w symbol scan klinesIntraday klines4h) by done.
  destruct (last klinesIntraday) as [latest|] eqn:Hlast.
  - by exists latest.
  - by apply last_None in Hlast.
Qed.

End PriceChange.

Section PriceChange1h.

(** C7. For every scanIntervalMinutes >= 1, with k = floor(60 /
    scanIntervalMinutes): when the intraday sequence has at least k+1
    candles and the close k candles before the latest is positive,
    PriceChange1h is [(latest close - past close) / past close * 100];
    otherwise it is 0.  With scanIntervalMinutes = 3 and 21 candles
    whose closes are 100 but for the latest, 110, it is exactly 10. *)
Theorem GetWithInterval_priceChange1h :
  (∀ (F : Type) (ops : Float64 F) (w : World F) symbol scan
     (klinesIntraday klines4h : list (Kline F)),
     1 ≤ scan →
     getKlines w (Normalize symbol) (selectInterval scan) (intraday_limit scan)
     = Value klinesIntraday →
     getKlines w (Normalize symbol) "4h" 60 = Value klines4h →
     klinesIntraday ≠ [] →
     ∃ data latest,
       GetWithInterval w symbol scan = Some (Value data)
       ∧ last klinesIntraday = Some latest
       ∧ let k := 60 / scan in
         (k + 1 ≤ len klinesIntraday →
          ∃ past,
            at_index klinesIntraday (len klinesIntraday - 1 - k) = Some past
            ∧ PriceChange1h data
              = if fgt (Close past) F0
                then ((Close latest - Close past) / Close past * F100)%F
                else F0)
         ∧ (len klinesIntraday < k + 1 → PriceChange1h data = F0))
  ∧ (∀ (w : World float) symbol (klinesIntraday klines4h : list (Kline float)),
       getKlines w (Normalize symbol) "3m" 40 = Value klinesIntraday →
       getKlines w (Normalize symbol) "4h" 60 = Value klines4h →
       Close <$> klinesIntraday = replicate 20 100%float ++ [110%float] →
       ∃ data, GetWithInterval w symbol 3 = Some (Value data)
               ∧ PriceChange1h data = 10%float).
Proof.
  split.
  - intros F ops w symbol scan klinesIntraday klines4h Hscan Hi H4 Hne.
    destruct (GetWithInterval_snapshot w symbol scan klinesIntraday klines4h)
      as (latest & Hlast & Hget); [done..|].
    eexists _, latest. split; [exact Hget|]. split; [done|]. simpl.
    pose proof (Z.div_pos 60 scan ltac:(lia) ltac:(lia)) as Hk.
    unfold len. split.
    + intros Hlen.
      destruct (price_change_enough klinesIntraday (Z.to_nat (60 / scan))
                  (Close latest)) as (past & Hpast & _ & Hchange); [lia|].
      exists past. rewrite Z2Nat.id in Hpast by done. split; [exact Hpast|].
      by rewrite Hchange.
    + intros Hlen. apply price_change_short. lia.
  - intros w symbol klinesIntraday klines4h Hi H4 Hc.
    assert (length klinesIntraday = 21%nat) as Hlen
      by (apply (f_equal length) in Hc; by rewrite length_fmap in Hc).
    destruct (GetWithInterval_snapshot w symbol 3 klinesIntraday klines4h)
      as (latest & Hlast & Hget); [done..| |].
    { intros ->. discriminate Hlen. }
    eexists. split; [exact Hget|]. simpl.
    assert (Close latest = 110%float) as Hcur.
    { apply (f_equal last) in Hc. rewrite fmap_last, Hlast in Hc.
      by injection Hc. }
    destruct (price_change_enough klinesIntraday 20 (Close latest))
      as (past & _ & Hpast & Hchange); [lia|].
    assert (Close past = 100%float) as Hp.
    { apply (f_equal (λ l, l !! 0%nat)) in Hc. rewrite list_lookup_fmap in Hc.
      rewrite Hlen in Hpast. simpl in Hpast.
      rewrite Hpast in Hc. by injection Hc. }
    change (Z.to_nat (60 / 3)) with 20%nat.
    rewrite Hchange, Hcur, Hp. by vm_compute.
Qed.

End PriceChange1h.

Lemma GetWithInterval_priceChange1h_witness :
  ∃ data,
    GetWithInterval (sample_world jump_candles two_4h_candles) "btc" 3
    = Some (Value data)
    ∧ PriceChange1h data = 10%float.
Proof.
  apply (proj2 GetWithInterval_priceChange1h
           (sample_world jump_candles two_4h_candles) "btc"
           jump_candles two_4h_candles);
    by vm_compute.
Defined.

(** ** The guard [past > 0] *)

Lemma float_nonpositive_not_gt (x : float) :
  PrimFloat.leb x 0 = true → fgt x F0 = false.
Proof.
  simpl. rewrite leb_spec, ltb_spec.
  change (Prim2SF (IEEE.float64_of_int 0)) with (S754_zero false).
  change (Prim2SF 0) with (S754_zero false).
  by destruct (Prim2SF x) as [[]|[]| |[]].
Qed.

Lemma exact_nonpositive_not_gt (x : Q) : (x <= 0)%Q → fgt x F0 = false.
Proof.
  intros Hx. simpl. apply negb_false_iff, Qle_bool_iff. exact Hx.
Qed.

Section PriceChange4h.

(** C1, as the source has it.  PriceChange4h compares the current
    price, which is the close of the latest intraday candle, with the
    close of the 4h candle at index len-2: when the 4h sequence has at
    least 2 candles and that past close is positive, it is
    [(current price - past close) / past close * 100]; it is 0 when the
    4h sequence has fewer than 2 candles or that past close is not
    positive, in particular when it is <= 0. *)
Theorem GetWithInterval_priceChange4h :
  (∀ (F : Type) (ops : Float64 F) (w : World F) symbol scan
     (klinesIntraday klines4h : list (Kline F)),
     1 ≤ scan →
     getKlines w (Normalize symbol) (selectInterval scan) (intraday_limit scan)
     = Value klinesIntraday →
     getKlines w (Normalize symbol) "4h" 60 = Value klines4h →
     klinesIntraday ≠ [] →
     ∃ data latest,
       GetWithInterval w symbol scan = Some (Value data)
       ∧ last klinesIntraday = Some latest
       ∧ CurrentPrice data = Close latest
       ∧ (2 ≤ len klines4h →
          ∃ past,
            at_index klines4h (len klines4h - 2) = Some past
            ∧ PriceChange4h data
              = if fgt (Close past) F0
                then ((Close latest - Close past) / Close past * F100)%F
                else F0)
       ∧ (len klines4h < 2 → PriceChange4h data = F0))
  ∧ (∀ past : float, PrimFloat.leb past 0 = true → fgt past F0 = false)
  ∧ (∀ past : Q, (past <= 0)%Q → fgt past F0 = false).
Proof.
  split; [|split; [apply float_nonpositive_not_gt|apply exact_nonpositive_not_gt]].
  intros F ops w symbol scan klinesIntraday klines4h Hscan Hi H4 Hne.
  destruct (GetWithInterval_snapshot w symbol scan klinesIntraday klines4h)
    as (latest & Hlast & Hget); [done..|].
  eexists _, latest. split; [exact Hget|]. do 2 (split; [done|]). simpl.
  unfold len. split.
  - intros Hlen.
    destruct (price_change_enough klines4h 1 (Close latest))
      as (past & Hpast & _ & Hchange); [lia|].
    exists past. split; [|by rewrite Hchange].
    rewrite <- Hpast. f_equal. unfold len. lia.
  - intros Hlen. apply price_change_short. lia.
Qed.

Lemma GetWithInterval_priceChange4h_witness :
  ∃ data,
    GetWithInterval (sample_world jump_candles two_4h_candles) "btc" 3
    = Some (Value data)
    ∧ CurrentPrice data = 110%float
    ∧ PriceChange4h data = 10%float.
Proof.
  destruct (proj1 GetWithInterval_priceChange4h float _
              (sample_world jump_candles two_4h_candles) "btc" 3
              jump_candles two_4h_candles)
    as (data & latest & Hget & Hlast & Hcur & Hlong & _);
    [lia|reflexivity|reflexivity|discriminate|].
  exists data. split; [exact Hget|].
  injection Hlast as <-. split; [exact Hcur|].
  destruct Hlong as (past & Hpast & ->); [by vm_compute|].
  injection Hpast as <-. by vm_compute.
Defined.

(** C1, counterexample.  With 4h closes 100 and 105 and a latest
    intraday close of 110, PriceChange4h is 10, not the 5 that the two
    4h closes give. *)
Lemma priceChange4h_uses_intraday_close :
  ∃ data latest4h past4h,
    GetWithInterval (sample_world jump_candles two_4h_candles) "btc" 3
    = Some (Value data)
    ∧ last two_4h_candles = Some latest4h
    ∧ at_index two_4h_candles (len two_4h_candles - 2) = Some past4h
    ∧ fgt (Close past4h) F0 = true
    ∧ ((Close latest4h - Close past4h) / Close past4h * F100)%F = 5%float
    ∧ PriceChange4h data = 10%float
    ∧ PriceChange4h data
      ≠ ((Close latest4h - Close past4h) / Close past4h * F100)%F.
Proof.
  eexists _, _, _. repeat split; by vm_compute.
Qed.

End PriceChange4h.

Section EmptyLongTerm.

(** C9. With a non-empty intraday sequence (and scanIntervalMinutes >=
    1), an empty 4h sequence causes no error and no out-of-range
    access: the snapshot is returned, its PriceChange4h is 0, the six
    scalars of the longer-term context are 0 and its two series are
    empty.  Whatever the 4h sequence, the snapshot is returned when the
    intraday sequence is not empty; an empty intraday sequence makes
    the source index out of range. *)
Theorem GetWithInterval_empty_4h
    (F : Type) (ops : Float64 F) (w : World F) symbol scan
    (klinesIntraday klines4h : list (Kline F)) :
  1 ≤ scan →
  getKlines w (Normalize symbol) (selectInterval scan) (intraday_limit scan)
  = Value klinesIntraday →
  getKlines w (Normalize symbol) "4h" 60 = Value klines4h →
  calculateLongerTermData (@nil (Kline F))
  = Some (mkLongerTermData F0 F0 F0 F0 F0 F0 [] [])
  ∧ (∀ current, priceChange4h (@nil (Kline F)) current = Some F0)
  ∧ (klinesIntraday = [] → GetWithInterval w symbol scan = None)
  ∧ (klinesIntraday ≠ [] →
     ∃ data,
       GetWithInterval w symbol scan = Some (Value data)
       ∧ (klines4h = [] →
          PriceChange4h data = F0
          ∧ LongerTermContext data
            = mkLongerTermData F0 F0 F0 F0 F0 F0 [] [])).
Proof.
  intros Hscan Hi H4.
  split; [by vm_compute|]. split; [by vm_compute|]. split.
  - intros ->.
    by rewrite (GetWithInterval_fetched w symbol scan [] klines4h).
  - intros Hne.
    destruct (GetWithInterval_snapshot w symbol scan klinesIntraday klines4h)
      as (latest & Hlast & Hget); [done..|].
    eexists. split; [exact Hget|]. intros ->. simpl. split; by vm_compute.
Qed.

Lemma GetWithInterval_empty_4h_witness :
  (∃ data,
     GetWithInterval (sample_world jump_candles []) "btc" 3 = Some (Value data)
     ∧ PriceChange4h data = 0%float
     ∧ LongerTermContext data = mkLongerTermData F0 F0 F0 F0 F0 F0 [] [])
  ∧ GetWithInterval (sample_world [] two_4h_candles) "btc" 3 = None.
Proof.
  split.
  - destruct (GetWithInterval_empty_4h float _ (sample_world jump_candles [])
                "btc" 3 jump_candles [])
      as (_ & _ & _ & data & Hget & Hempty);
      [lia|reflexivity|reflexivity|discriminate|].
    exists data. split; [exact Hget|]. by apply Hempty.
  - apply (GetWithInterval_empty_4h float _ (sample_world [] two_4h_candles)
             "btc" 3 [] two_4h_candles);
      [lia|reflexivity|reflexivity|reflexivity].
Defined.

End EmptyLongTerm.

(** ** Fetch failures *)

Section FetchFailures.
Context {F : Type} `{Float64 F}.

Lemma calculateIntradayLimit_nonzero scan :
  scan ≠ 0 → ∃ limit, calculateIntradayLimit scan = Some limit.
Proof.
  intros Hscan. unfold calculateIntradayLimit, int_div.
  destruct (decide (scan = 0)); [done|]. simpl.
  destruct (decide _); eauto.
Qed.

(** The text of the two errors differs at its seventh byte: the first
    character of the interval is 1, 3 or 5, never the 4 of the
    4-hour message. *)
Lemma error_texts_differ scan cause cause' :
  "获取" +:+ selectInterval scan +:+ " K线失败: " +:+ cause
  ≠ "获取4小时K线失败: " +:+ cause'.
Proof.
  unfold selectInterval. repeat destruct (decide _); simpl; discriminate.
Qed.

Local Ltac step_both :=
  match goal with
  | |- context [mbind _ ?m] => destruct m; simpl; [|reflexivity]
  end.

Lemma GetWithInterval_without_openInterest (w : World F) answer symbol scan :
  failed (answer (Normalize symbol)) →
  GetWithInterval (with_openInterest w answer) symbol scan
  = map_value (set_OpenInterest (mkOIData F0 F0))
      <$> GetWithInterval w symbol scan.
Proof.
  intros Hfail. unfold GetWithInterval, getOpenInterestData, getFundingRate.
  simpl.
  destruct (calculateIntradayLimit scan); simpl; [|reflexivity].
  destruct (getKlines w _ _ _); simpl; [|reflexivity].
  destruct (getKlines w _ _ _); simpl; [|reflexivity].
  repeat step_both.
  destruct (answer (Normalize symbol)); by simpl in *.
Qed.

Lemma GetWithInterval_without_fundingRate (w : World F) answer symbol scan :
  failed (answer (Normalize symbol)) →
  GetWithInterval (with_premiumIndex w answer) symbol scan
  = map_value (set_FundingRate F0) <$> GetWithInterval w symbol scan.
Proof.
  intros Hfail. unfold GetWithInterval, getOpenInterestData, getFundingRate.
  simpl.
  destruct (calculateIntradayLimit scan); simpl; [|reflexivity].
  destruct (getKlines w _ _ _); simpl; [|reflexivity].
  destruct (getKlines w _ _ _); simpl; [|reflexivity].
  repeat step_both.
  destruct (answer (Normalize symbol)); by simpl in *.
Qed.

End FetchFailures.

Section FetchFailuresClaim.

Local Ltac step_option :=
  match goal with
  | Hret : context [mbind _ ?m] |- _ => destruct m; simpl in Hret; [|discriminate]
  end.

(** C8. Where the candle limit is defined (scanIntervalMinutes is not
    0), [GetWithInterval] returns an error if and only if the intraday
    candle fetch or the 4h candle fetch fails.  The text of the error
    names the fetch: the interval for the intraday one, "4小时" for the
    4h one, and the two texts never coincide.  A failing open-interest
    call changes nothing but the OpenInterest field of the snapshot,
    which is [{0, 0}]; a failing funding-rate call changes nothing but
    FundingRate, which is [0]: construction aborts, or not, exactly as
    it would with the call answered, and every other field is the
    same.  With both candle fetches answered, the intraday one with at
    least one candle, and scanIntervalMinutes >= 1, the snapshot
    returned in both cases is [snapshot_spec] with that one field
    replaced, and each field of [snapshot_spec] is what the function of
    the source returns on the fetched candles: [Normalize],
    the close of the latest candle, [calculateEMA] at 20,
    [calculateMACD], [calculateRSI] at 7, the two price changes,
    [calculateIntradaySeries] labelled with the interval,
    [calculateLongerTermData], and the other remote scalar as the
    provider answers it. *)
Theorem GetWithInterval_fetch_failures
    (F : Type) (ops : Float64 F) (w : World F) symbol scan limit :
  calculateIntradayLimit scan = Some limit →
  let intraday := getKlines w (Normalize symbol) (selectInterval scan) limit in
  let longTerm := getKlines w (Normalize symbol) "4h" 60 in
  ((∃ text, GetWithInterval w symbol scan = Some (Error text))
   ↔ is_error intraday ∨ is_error longTerm)
  ∧ (∀ cause, intraday = Error cause →
       GetWithInterval w symbol scan
       = Some (Error ("获取" +:+ selectInterval scan +:+ " K线失败: " +:+ cause)))
  ∧ (∀ klinesIntraday cause,
       intraday = Value klinesIntraday → longTerm = Error cause →
       GetWithInterval w symbol scan
       = Some (Error ("获取4小时K线失败: " +:+ cause)))
  ∧ (∀ cause cause',
       "获取" +:+ selectInterval scan +:+ " K线失败: " +:+ cause
       ≠ "获取4小时K线失败: " +:+ cause')
  ∧ (∀ answer, failed (answer (Normalize symbol)) →
       GetWithInterval (with_openInterest w answer) symbol scan
       = map_value (set_OpenInterest (mkOIData F0 F0))
           <$> GetWithInterval w symbol scan)
  ∧ (∀ answer, failed (answer (Normalize symbol)) →
       GetWithInterval (with_premiumIndex w answer) symbol scan
       = map_value (set_FundingRate F0) <$> GetWithInterval w symbol scan)
  ∧ (∀ klinesIntraday klines4h answer,
       1 ≤ scan → intraday = Value klinesIntraday → longTerm = Value klines4h →
       klinesIntraday ≠ [] → failed (answer (Normalize symbol)) →
       (∃ data,
          GetWithInterval (with_openInterest w answer) symbol scan
          = Some (Value data)
          ∧ OpenInterest data = mkOIData F0 F0)
       ∧ (∃ data,
            GetWithInterval (with_premiumIndex w answer) symbol scan
            = Some (Value data)
            ∧ FundingRate data = F0))
  ∧ (∀ klinesIntraday klines4h answer,
       1 ≤ scan → intraday = Value klinesIntraday → longTerm = Value klines4h →
       klinesIntraday ≠ [] → failed (answer (Normalize symbol)) →
       ∃ latest series,
         let data := snapshot_spec w symbol scan klinesIntraday klines4h
                       latest in
         at_index klinesIntraday (len klinesIntraday - 1) = Some latest
         ∧ GetWithInterval (with_openInterest w answer) symbol scan
           = Some (Value (set_OpenInterest (mkOIData F0 F0) data))
         ∧ GetWithInterval (with_premiumIndex w answer) symbol scan
           = Some (Value (set_FundingRate F0 data))
         ∧ Symbol data = Normalize symbol
         ∧ CurrentPrice data = Close latest
         ∧ calculateEMA klinesIntraday 20 = Some (CurrentEMA20 data)
         ∧ calculateMACD klinesIntraday = Some (CurrentMACD data)
         ∧ calculateRSI klinesIntraday 7 = Some (CurrentRSI7 data)
         ∧ priceChange1h klinesIntraday (Close latest) scan
           = Some (PriceChange1h data)
         ∧ priceChange4h klines4h (Close latest) = Some (PriceChange4h data)
         ∧ calculateIntradaySeries klinesIntraday = Some series
         ∧ IntradaySeries data = set_Interval series (selectInterval scan)
         ∧ calculateLongerTermData klines4h = Some (LongerTermContext data)
         ∧ OpenInterest data
           = match getOpenInterestData w (Normalize symbol) with
             | Value oi => oi
             | Error _ => mkOIData F0 F0
             end
         ∧ FundingRate data = fst (getFundingRate w (Normalize symbol))).
Proof.
  intros Hlimit intraday longTerm.
  assert (∀ cause, intraday = Error cause →
            GetWithInterval w symbol scan
            = Some (Error ("获取" +:+ selectInterval scan
                           +:+ " K线失败: " +:+ cause))) as Hfirst.
  { intros cause Hi. unfold GetWithInterval. rewrite Hlimit. simpl.
    fold intraday. by rewrite Hi. }
  assert (∀ klinesIntraday cause,
            intraday = Value klinesIntraday → longTerm = Error cause →
            GetWithInterval w symbol scan
            = Some (Error ("获取4小时K线失败: " +:+ cause))) as Hsecond.
  { intros klinesIntraday cause Hi H4. unfold GetWithInterval.
    rewrite Hlimit. simpl. fold intraday longTerm. by rewrite Hi, H4. }
  split; [|split; [done|split; [done|split; [apply error_texts_differ|]]]].
  - split.
    + intros [text Hret]. unfold GetWithInterval in Hret.
      rewrite Hlimit in Hret. simpl in Hret. fold intraday longTerm in Hret.
      destruct intraday; [|by left]. destruct longTerm; [|by right].
      repeat step_option. discriminate Hret.
    + intros [Hi|H4].
      * destruct intraday as [|cause] eqn:Hi'; [done|]. eauto.
      * destruct intraday as [klinesIntraday|cause] eqn:Hi'; [|eauto].
        destruct longTerm as [|cause] eqn:H4'; [done|]. eauto.
  - split; [intros answer; apply GetWithInterval_without_openInterest|].
    split; [intros answer; apply GetWithInterval_without_fundingRate|].
    split.
    + intros klinesIntraday klines4h answer Hscan Hi H4 Hne Hfail.
      assert (limit = intraday_limit scan) as ->
        by (rewrite calculateIntradayLimit_spec in Hlimit by done; congruence).
      destruct (GetWithInterval_snapshot w symbol scan klinesIntraday klines4h)
        as (latest & Hlast & Hget); [done..|].
      rewrite GetWithInterval_without_openInterest,
        GetWithInterval_without_fundingRate, Hget by done.
      simpl. split; eexists; (split; [reflexivity|reflexivity]).
    + intros klinesIntraday klines4h answer Hscan Hi H4 Hne Hfail.
      assert (limit = intraday_limit scan) as ->
        by (rewrite calculateIntradayLimit_spec in Hlimit by done; congruence).
      destruct (GetWithInterval_snapshot w symbol scan klinesIntraday klines4h)
        as (latest & Hlast & Hget); [done..|].
      exists latest, (intraday_spec klinesIntraday). cbv zeta.
      rewrite GetWithInterval_without_openInterest,
        GetWithInterval_without_fundingRate, Hget by done.
      rewrite at_index_last.
      change (calculateEMA klinesIntraday 20)
        with (calculateEMA klinesIntraday (Z.of_nat 20)).
      change (calculateRSI klinesIntraday 7)
        with (calculateRSI klinesIntraday (Z.of_nat 7)).
      rewrite calculateEMA_spec, calculateMACD_spec, calculateRSI_spec,
        priceChange4h_spec, calculateIntradaySeries_spec,
        calculateLongerTermData_spec, priceChange1h_spec by done.
      repeat split; done.
Qed.

Lemma GetWithInterval_fetch_failures_witness :
  ∃ data,
    GetWithInterval (sample_world jump_candles two_4h_candles) "btc" 3
    = Some (Value data)
    ∧ FundingRate data = 0x1.a36e2eb1c432dp-14%float
    ∧ GetWithInterval
        (with_premiumIndex (sample_world jump_candles two_4h_candles)
                           (λ _, ReadAllFailed "reset"))
        "btc" 3
      = Some (Value (set_FundingRate F0 data)).
Proof.
  destruct (GetWithInterval_fetch_failures float _
              (sample_world jump_candles two_4h_candles) "btc" 3 40)
    as (_ & _ & _ & _ & _ & Hfunding & _); [reflexivity|].
  eexists. split; [by vm_compute|]. split; [reflexivity|].
  rewrite Hfunding by exact I. by vm_compute.
Defined.

End FetchFailuresClaim.

(** ** Symbol normalization *)

Section Symbols.
Implicit Types s t : string.

Lemma string_length_app s t :
  String.length (s +:+ t) = (String.length s + String.length t)%nat.
Proof. induction s as [|c s IH]; simpl; [done|]. by rewrite IH. Qed.

Lemma substring_all t : substring 0 (String.length t) t = t.
Proof. induction t as [|c t IH]; simpl; [done|]. by rewrite IH. Qed.

Lemma substring_app_suffix s t :
  substring (String.length s) (String.length t) (s +:+ t) = t.
Proof. induction s as [|c s IH]; simpl; [apply substring_all|done]. Qed.


Lemma HasSuffix_app s t : HasSuffix (s +:+ t) t = true.
Proof.
  unfold HasSuffix. rewrite string_length_app.
  replace (String.length s + String.length t - String.length t)%nat
    with (String.length s) by lia.
  rewrite substring_app_suffix, String.eqb_refl.
  apply andb_true_iff. split; [|done]. apply Nat.leb_le. lia.
Qed.


Lemma upper_byte_idempotent c : upper_byte (upper_byte c) = upper_byte c.
Proof. by destruct c as [[] [] [] [] [] [] [] []]. Qed.


Lemma ToUpper_idempotent s : ToUpper (ToUpper s) = ToUpper s.
Proof.
  induction s as [|c s IH]; simpl; [done|].
  by rewrite upper_byte_idempotent, IH.
Qed.

Lemma ToUpper_app s t : ToUpper (s +:+ t) = ToUpper s +:+ ToUpper t.
Proof. induction s as [|c s IH]; simpl; [done|]. by rewrite IH. Qed.

Lemma Normalize_cases s :
  Normalize s = ToUpper s ∧ HasSuffix (ToUpper s) "USDT" = true
  ∨ Normalize s = ToUpper s +:+ "USDT".
Proof. unfold Normalize. destruct (HasSuffix _ _); auto. Qed.

Lemma ToUpper_Normalize s : ToUpper (Normalize s) = Normalize s.
Proof.
  destruct (Normalize_cases s) as [[-> _]| ->].
  - apply ToUpper_idempotent.
  - by rewrite ToUpper_app, ToUpper_idempotent.
Qed.

Lemma HasSuffix_Normalize s : HasSuffix (Normalize s) "USDT" = true.
Proof.
  destruct (Normalize_cases s) as [[-> Hs]| ->]; [done|apply HasSuffix_app].
Qed.


Lemma is_ascii_app s t : is_ascii (s +:+ t) = is_ascii s && is_ascii t.
Proof.
  unfold is_ascii. induction s as [|c s IH]; simpl; [done|].
  by rewrite IH, andb_assoc.
Qed.

Lemma upper_byte_ascii c :
  (nat_of_ascii c <? 128)%nat = true →
  (nat_of_ascii (upper_byte c) <? 128)%nat = true.
Proof. by destruct c as [[] [] [] [] [] [] [] []]. Qed.

Lemma is_ascii_ToUpper s : is_ascii s = true → is_ascii (ToUpper s) = true.
Proof.
  unfold is_ascii. induction s as [|c s IH]; simpl; [done|].
  intros [Hc Hs]%andb_true_iff. apply andb_true_iff.
  split; [by apply upper_byte_ascii|by apply IH].
Qed.

Lemma is_ascii_Normalize s : is_ascii s = true → is_ascii (Normalize s) = true.
Proof.
  intros Hs%is_ascii_ToUpper.
  destruct (Normalize_cases s) as [[-> _]| ->]; [done|].
  by rewrite is_ascii_app, Hs.
Qed.



End Symbols.

(** ** Wilder smoothing in exact arithmetic *)

Section WilderExact.
Local Open Scope Q_scope.

Lemma exact_period_pos (period : nat) :
  (1 ≤ period)%nat → 0 < of_int (Z.of_nat period).
Proof. intros Hp. simpl. change 0 with (inject_Z 0). rewrite <- Zlt_Qlt. lia. Qed.

Lemma exact_period_pred (period : nat) :
  (1 ≤ period)%nat → 0 <= of_int (Z.of_nat period - 1).
Proof. intros Hp. simpl. change 0 with (inject_Z 0). rewrite <- Zle_Qle. lia. Qed.

Lemma exact_wilder_nonneg (period : nat) avg contribution :
  (1 ≤ period)%nat → 0 <= avg → 0 <= contribution →
  0 <= wilder period avg contribution.
Proof.
  intros Hp Ha Hc. unfold wilder.
  pose proof (exact_period_pos period Hp). pose proof (exact_period_pred period Hp).
  simpl in *. apply Qle_shift_div_l; [done|].
  pose proof (Qmult_le_0_compat _ _ Ha H0). lra.
Qed.

End WilderExact.

(** ** Rounding of binary64

    Bounds on the results of the binary64 addition, subtraction and
    division, from the definitions of [SpecFloat], which the primitive
    floats implement: rounding to nearest is monotone, so that a sum is
    not below a representable number that one of its terms reaches, and
    a difference or a quotient by a number of at least 1 is not above
    its first operand. *)

Section Shift.

Lemma iter_pos_nat {A} (f : A → A) (p : positive) (x : A) :
  SpecFloat.iter_pos f p x = Nat.iter (Pos.to_nat p) f x.
Proof.
  revert x. induction p as [p IH|p IH|]; intros x; cbn [SpecFloat.iter_pos].
  - rewrite !IH, Pos2Nat.inj_xI, <- Nat.iter_add, <- Nat.iter_succ_r.
    f_equal. lia.
  - rewrite !IH, Pos2Nat.inj_xO, <- Nat.iter_add. f_equal. lia.
  - done.
Qed.

Lemma shr_1_m mrs : 0 ≤ shr_m mrs → shr_m (shr_1 mrs) = shr_m mrs / 2.
Proof.
  destruct mrs as [m r s]. intros Hm. rewrite <- Z.div2_div.
  by destruct m as [|[p|p|]|p].
Qed.

Lemma shr_1_exact m :
  0 ≤ m → m mod 2 = 0 →
  shr_1 (Build_shr_record m false false) = Build_shr_record (m / 2) false false.
Proof.
  intros Hm Heven. rewrite <- Z.div2_div.
  destruct m as [|[p|p|]|p]; try done.
  rewrite Pos2Z.inj_xI in Heven.
  rewrite Z.add_comm, Z.mul_comm, Z.mod_add in Heven by lia. done.
Qed.

Lemma shr_iter_m (n : nat) mrs :
  0 ≤ shr_m mrs →
  shr_m (Nat.iter n shr_1 mrs) = shr_m mrs / 2 ^ Z.of_nat n.
Proof.
  intros Hm. induction n as [|n IH].
  - simpl. by rewrite Z.div_1_r.
  - rewrite Nat2Z.inj_succ, Z.pow_succ_r by lia. simpl.
    rewrite shr_1_m by (rewrite IH; apply Z.div_pos; lia).
    rewrite IH, Z.div_div by lia. f_equal. lia.
Qed.

Lemma shr_iter_exact (n : nat) m :
  0 ≤ m → m mod 2 ^ Z.of_nat n = 0 →
  Nat.iter n shr_1 (Build_shr_record m false false)
  = Build_shr_record (m / 2 ^ Z.of_nat n) false false.
Proof.
  intros Hm. induction n as [|n IH]; intros Hmod.
  - simpl. by rewrite Z.div_1_r.
  - rewrite Nat2Z.inj_succ, Z.pow_succ_r in * by lia. simpl.
    assert (0 < 2 ^ Z.of_nat n) by (apply Z.pow_pos_nonneg; lia).
    apply Z.mod_divide in Hmod as [k Hk]; [|lia].
    rewrite IH.
    2: { apply Z.mod_divide; [lia|]. exists (k * 2). lia. }
    assert (m / 2 ^ Z.of_nat n = k * 2) as Hq.
    { subst m. replace (k * (2 * 2 ^ Z.of_nat n)) with (k * 2 * 2 ^ Z.of_nat n) by lia.
      by rewrite Z.div_mul by lia. }
    rewrite shr_1_exact.
    + f_equal. rewrite Z.div_div by lia. f_equal. lia.
    + apply Z.div_pos; lia.
    + rewrite Hq. by rewrite Z.mod_mul.
Qed.

End Shift.

Section Values.
Local Open Scope Q_scope.

Lemma p2_pos e : 0 < p2 e.
Proof. apply Qpower_0_lt. lra. Qed.

Lemma p2_add a b : p2 (a + b) == p2 a * p2 b.
Proof. apply Qpower_plus. lra. Qed.

Lemma p2_lt a b : (a < b)%Z → p2 a < p2 b.
Proof. intros. apply Qpower_lt_compat_l; [done|lra]. Qed.

Lemma p2_le a b : (a ≤ b)%Z → p2 a <= p2 b.
Proof. intros. apply Qpower_le_compat_l; [done|lra]. Qed.

Lemma p2_lt_inv a b : p2 a < p2 b → (a < b)%Z.
Proof. intros. apply (Qpower_lt_compat_l_inv 2); [done|lra]. Qed.

Lemma p2_Z (n : Z) : (0 ≤ n)%Z → p2 n == inject_Z (2 ^ n).
Proof. intros Hn. unfold p2. by rewrite (Zpower_Qpower 2 n Hn). Qed.

Lemma value_shift m e n :
  (0 ≤ n)%Z → value m (e + n) == value (m * 2 ^ n) e.
Proof.
  intros Hn. unfold value. rewrite p2_add, (p2_Z n Hn), inject_Z_mult. ring.
Qed.

Lemma value_le m1 m2 e : value m1 e <= value m2 e ↔ (m1 ≤ m2)%Z.
Proof.
  unfold value. pose proof (p2_pos e). rewrite Zle_Qle.
  split; intros Hle.
  - by apply Qmult_le_r in Hle.
  - by apply Qmult_le_r.
Qed.

Lemma value_lt m1 m2 e : value m1 e < value m2 e ↔ (m1 < m2)%Z.
Proof.
  unfold value. pose proof (p2_pos e). rewrite Zlt_Qlt.
  split; intros Hlt.
  - by apply Qmult_lt_r in Hlt.
  - by apply Qmult_lt_r.
Qed.

Lemma value_eq m1 m2 e : value m1 e == value m2 e ↔ m1 = m2.
Proof.
  split; [|by intros ->].
  intros Heq. apply Z.le_antisymm; apply (value_le _ _ e); rewrite Heq; apply Qle_refl.
Qed.

End Values.

Section Digits.

Lemma digits2_pos_bounds p :
  2 ^ (Z.pos (digits2_pos p) - 1) ≤ Z.pos p < 2 ^ Z.pos (digits2_pos p).
Proof.
  induction p as [p IH|p IH|]; cbn [digits2_pos].
  - rewrite Pos2Z.inj_succ. change (Z.pos p~1) with (2 * Z.pos p + 1).
    replace (Z.succ (Z.pos (digits2_pos p)) - 1)
      with (Z.succ (Z.pos (digits2_pos p) - 1)) by lia.
    rewrite !Z.pow_succ_r by lia.
    generalize dependent (2 ^ (Z.pos (digits2_pos p) - 1)).
    generalize dependent (2 ^ Z.pos (digits2_pos p)). lia.
  - rewrite Pos2Z.inj_succ. change (Z.pos p~0) with (2 * Z.pos p).
    replace (Z.succ (Z.pos (digits2_pos p)) - 1)
      with (Z.succ (Z.pos (digits2_pos p) - 1)) by lia.
    rewrite !Z.pow_succ_r by lia.
    generalize dependent (2 ^ (Z.pos (digits2_pos p) - 1)).
    generalize dependent (2 ^ Z.pos (digits2_pos p)). lia.
  - done.
Qed.

Lemma Zdigits2_bounds m :
  0 < m → 0 < Zdigits2 m ∧ 2 ^ (Zdigits2 m - 1) ≤ m < 2 ^ Zdigits2 m.
Proof.
  destruct m as [|p|p]; try lia. intros _. simpl.
  split; [lia|apply digits2_pos_bounds].
Qed.

Lemma Zdigits2_nonneg m : 0 ≤ m → 0 ≤ Zdigits2 m.
Proof. destruct m; simpl; lia. Qed.

Lemma Zdigits2_le m d : 0 ≤ d → 0 ≤ m < 2 ^ d → Zdigits2 m ≤ d.
Proof.
  intros Hd [Hm Hlt]. destruct (decide (m = 0)) as [->|]; [done|].
  destruct (Zdigits2_bounds m) as (Hpos & Hlo & _); [lia|].
  destruct (decide (Zdigits2 m ≤ d)); [done|].
  assert (2 ^ d ≤ 2 ^ (Zdigits2 m - 1)) by (apply Z.pow_le_mono_r; lia). lia.
Qed.

Lemma Zdigits2_ge m d : 2 ^ (d - 1) ≤ m → 0 < m → d ≤ Zdigits2 m.
Proof.
  intros Hlo Hm. destruct (Zdigits2_bounds m) as (Hpos & _ & Hhi); [done|].
  destruct (decide (d ≤ Zdigits2 m)); [done|].
  assert (2 ^ Zdigits2 m ≤ 2 ^ (d - 1)) by (apply Z.pow_le_mono_r; lia). lia.
Qed.

Lemma Zdigits2_mono a b : 0 ≤ a ≤ b → Zdigits2 a ≤ Zdigits2 b.
Proof.
  intros [Ha Hab]. destruct (decide (a = 0)) as [->|]; [by apply Zdigits2_nonneg; lia|].
  destruct (Zdigits2_bounds a) as (Hpos & Hlo & _); [lia|].
  apply Zdigits2_ge; lia.
Qed.

Lemma fexp64 e : fexp prec emax e = Z.max (e - 53) (-1074).
Proof. reflexivity. Qed.

End Digits.

Section RoundAux.

Lemma shr_fexp_spec mx ex lx :
  0 ≤ mx → wide mx ex →
  ∃ mrs,
    shr_fexp prec emax mx ex lx = (mrs, fexp prec emax (Zdigits2 mx + ex))
    ∧ shr_m mrs = mx / 2 ^ (fexp prec emax (Zdigits2 mx + ex) - ex)
    ∧ (lx = loc_Exact →
       mx mod 2 ^ (fexp prec emax (Zdigits2 mx + ex) - ex) = 0 →
       loc_of_shr_record mrs = loc_Exact).
Proof.
  intros Hmx Hwide. unfold wide in Hwide. unfold shr_fexp, shr.
  set (e1 := fexp prec emax (Zdigits2 mx + ex)) in *.
  destruct (e1 - ex) as [|n|n] eqn:Hn; [| |lia].
  - eexists. split; [f_equal; lia|]. split.
    + rewrite Z.div_1_r. by destruct lx as [|[]].
    + by intros ->.
  - eexists. split; [f_equal; lia|].
    rewrite iter_pos_nat. split.
    + rewrite shr_iter_m by (by destruct lx as [|[]]).
      rewrite positive_nat_Z. by destruct lx as [|[]].
    + intros -> Hmod. simpl.
      rewrite shr_iter_exact by (rewrite ?positive_nat_Z; done). done.
Qed.

Lemma round_nearest_even_bounds m l :
  m ≤ round_nearest_even m l ≤ m + 1
  ∧ (l = loc_Exact → round_nearest_even m l = m).
Proof.
  split; [|by intros ->].
  destruct l as [|[]]; simpl; try lia. destruct (Z.even m); lia.
Qed.

(** What [binary_round_aux] computes on a wide, non-negative mantissa:
    a shift to the exponent [e1] of the format, a rounding of the
    mantissa by at most one unit, and a second shift, by one position
    at most, when the rounding carried into the next binade. *)
Lemma binary_round_aux_spec mx ex lx :
  0 ≤ mx → wide mx ex →
  ∃ mr m2 e2,
    let e1 := fexp prec emax (Zdigits2 mx + ex) in
    mx / 2 ^ (e1 - ex) ≤ mr ≤ mx / 2 ^ (e1 - ex) + 1
    ∧ (lx = loc_Exact → mx mod 2 ^ (e1 - ex) = 0 → mr = mx / 2 ^ (e1 - ex))
    ∧ e2 = fexp prec emax (Zdigits2 mr + e1)
    ∧ e1 ≤ e2
    ∧ m2 = mr / 2 ^ (e2 - e1)
    ∧ binary_round_aux prec emax false mx ex lx
      = match m2 with
        | Z0 => S754_zero false
        | Zpos m => if e2 <=? emax - prec then S754_finite false m e2
                    else S754_infinity false
        | Zneg _ => S754_nan
        end.
Proof.
  intros Hmx Hwide.
  destruct (shr_fexp_spec mx ex lx Hmx Hwide) as (mrs1 & Hs1 & Hm1 & Hx1).
  set (e1 := fexp prec emax (Zdigits2 mx + ex)) in *.
  set (mr := round_nearest_even (shr_m mrs1) (loc_of_shr_record mrs1)).
  destruct (round_nearest_even_bounds (shr_m mrs1) (loc_of_shr_record mrs1))
    as [Hmr Hexact]. fold mr in Hmr, Hexact.
  assert (0 ≤ mx / 2 ^ (e1 - ex)) as Hm1pos
    by (apply Z.div_pos; [done|apply Z.pow_pos_nonneg; unfold wide in Hwide; lia]).
  assert (wide mr e1) as Hwide2.
  { unfold wide. rewrite fexp64. subst e1. rewrite fexp64 in *.
    unfold wide in Hwide. rewrite fexp64 in Hwide.
    destruct (decide (Zdigits2 mx + ex - 53 ≤ -1074)); [lia|].
    assert (0 < mx) by (destruct mx; simpl in *; lia).
    destruct (Zdigits2_bounds mx) as (Hd & Hlo & _); [done|].
    replace (Z.max (Zdigits2 mx + ex - 53) (-1074)) with (Zdigits2 mx + ex - 53)
      in * by lia.
    replace (Zdigits2 mx + ex - 53 - ex) with (Zdigits2 mx - 53) in * by lia.
    assert (2 ^ (53 - 1) ≤ mx / 2 ^ (Zdigits2 mx - 53)) as H52.
    { apply Z.div_le_lower_bound; [apply Z.pow_pos_nonneg; lia|].
      rewrite <- Z.pow_add_r by lia.
      replace (Zdigits2 mx - 53 + (53 - 1)) with (Zdigits2 mx - 1) by lia. done. }
    assert (53 ≤ Zdigits2 mr); [|lia].
    assert (0 < 2 ^ (53 - 1)) by done.
    apply Zdigits2_ge; lia. }
  destruct (shr_fexp_spec mr e1 loc_Exact) as (mrs2 & Hs2 & Hm2 & _);
    [lia|done|].
  exists mr, (shr_m mrs2), (fexp prec emax (Zdigits2 mr + e1)).
  split; [lia|]. split; [intros Hl Hmod; rewrite <- Hm1; auto|].
  split; [done|]. split; [exact Hwide2|]. split; [done|].
  unfold binary_round_aux. rewrite Hs1. fold mr. rewrite Hs2. done.
Qed.

End RoundAux.

Section Bounds.

Lemma digits_value_lo m e : 0 < m → (p2 (Zdigits2 m - 1 + e) <= value m e)%Q.
Proof.
  intros Hm. destruct (Zdigits2_bounds m Hm) as (Hd & Hlo & _).
  rewrite (Z.add_comm _ e).
  assert (p2 (e + (Zdigits2 m - 1)) == value (2 ^ (Zdigits2 m - 1)) e)%Q as ->.
  { rewrite <- (Z.mul_1_l (2 ^ _)), <- value_shift by lia.
    unfold value. ring. }
  by apply value_le.
Qed.

Lemma digits_value_hi m e : 0 ≤ m → (value m e < p2 (Zdigits2 m + e))%Q.
Proof.
  intros Hm. destruct (decide (m = 0)) as [->|Hne].
  - unfold value. change (inject_Z 0) with 0%Q. rewrite Qmult_0_l.
    apply p2_pos.
  - destruct (Zdigits2_bounds m) as (Hd & _ & Hhi); [lia|].
    rewrite (Z.add_comm _ e).
    assert (p2 (e + Zdigits2 m) == value (2 ^ Zdigits2 m) e)%Q as ->.
    { rewrite <- (Z.mul_1_l (2 ^ _)), <- value_shift by lia.
      unfold value. ring. }
    by apply value_lt.
Qed.

(** A larger number has its leading digit at least as high. *)
Lemma digits_position_le m1 e1 m2 e2 :
  0 < m1 → 0 ≤ m2 → (value m1 e1 <= value m2 e2)%Q →
  Zdigits2 m1 + e1 ≤ Zdigits2 m2 + e2.
Proof.
  intros H1 H2 Hle.
  pose proof (digits_value_lo m1 e1 H1). pose proof (digits_value_hi m2 e2 H2).
  assert (p2 (Zdigits2 m1 - 1 + e1) < p2 (Zdigits2 m2 + e2))%Q as Hlt by lra.
  apply p2_lt_inv in Hlt. lia.
Qed.

Lemma bounded_spec m e :
  bounded prec emax m e = true →
  e = fexp prec emax (Z.pos (digits2_pos m) + e) ∧ e ≤ 971.
Proof.
  unfold bounded, canonical_mantissa.
  intros [Hc He]%andb_true_iff. apply Z.eqb_eq in Hc. apply Z.leb_le in He.
  split; [done|exact He].
Qed.

Lemma finite_leb_finite m1 e1 m2 e2 :
  e1 < e2 ∨ (e1 = e2 ∧ Z.pos m1 ≤ Z.pos m2) →
  SFleb (S754_finite false m1 e1) (S754_finite false m2 e2) = true.
Proof.
  unfold SFleb, SFcompare. intros [Hlt|[-> Hle]].
  - apply Z.compare_lt_iff in Hlt. by rewrite Hlt.
  - rewrite Z.compare_refl. change (Pos.compare_cont Eq m1 m2) with (m1 ?= m2)%positive.
    destruct (Pos.compare_spec m1 m2); try done. lia.
Qed.

(** Rounding does not go below a representable number that the exact
    value reaches. *)
Lemma round_aux_lb mx ex lx mB eB :
  0 < mx → wide mx ex → bounded prec emax mB eB = true →
  (value (Z.pos mB) eB <= value mx ex)%Q →
  SFleb (S754_finite false mB eB) (binary_round_aux prec emax false mx ex lx)
  = true.
Proof.
  intros Hmx Hwide [HcB HeB]%bounded_spec Hle.
  destruct (binary_round_aux_spec mx ex lx) as (mr & m2 & e2 & Hspec);
    [lia|done|].
  cbv zeta in Hspec. destruct Hspec as (Hmr & _ & He2 & He12 & Hm2 & ->).
  pose proof (digits_position_le (Z.pos mB) eB mx ex ltac:(lia) ltac:(lia) Hle)
    as Hpos.
  simpl in Hpos. unfold wide in Hwide. rewrite !fexp64 in *.
  set (e1 := Z.max (Zdigits2 mx + ex - 53) (-1074)) in *.
  assert (eB ≤ e1) as HeB1 by lia.
  destruct (Zdigits2_bounds mx Hmx) as (Hd & Hlo & Hhi).
  assert (0 < 2 ^ (e1 - ex)) as Hpow by (apply Z.pow_pos_nonneg; lia).
  (* the shifted mantissa is large enough *)
  assert ((eB = e1 → Z.pos mB ≤ mx / 2 ^ (e1 - ex))
          ∧ (eB < e1 → 2 ^ 52 ≤ mx / 2 ^ (e1 - ex))) as [Hsame Hhigher].
  { split.
    - intros ->. apply Z.div_le_lower_bound; [done|].
      replace e1 with (ex + (e1 - ex)) in Hle at 1 by lia.
      rewrite value_shift in Hle by lia. apply value_le in Hle. lia.
    - intros Hlt. assert (e1 = Zdigits2 mx + ex - 53) as He1 by lia.
      apply Z.div_le_lower_bound; [done|].
      rewrite Z.mul_comm, <- Z.pow_add_r by lia.
      replace (52 + (e1 - ex)) with (Zdigits2 mx - 1) by lia. done. }
  assert (1 ≤ mr) as Hmr1 by (destruct (decide (eB = e1)); lia).
  (* so is the final one *)
  assert (0 < 2 ^ (e2 - e1)) as Hpow2 by (apply Z.pow_pos_nonneg; lia).
  assert (1 ≤ m2 ∧ (e2 = e1 → m2 = mr)) as [Hm2pos Hm2same].
  { split.
    - destruct (Zdigits2_bounds mr ltac:(lia)) as (Hdr & Hlor & _).
      subst m2. apply Z.div_le_lower_bound; [done|].
      destruct (decide (e2 = e1)) as [->|]; [rewrite Z.sub_diag; simpl; lia|].
      assert (e2 = Zdigits2 mr + e1 - 53) as -> by lia.
      replace (Zdigits2 mr + e1 - 53 - e1) with (Zdigits2 mr - 53) by lia.
      etrans; [|exact Hlor]. rewrite Z.mul_1_r.
      apply Z.pow_le_mono_r; lia.
    - intros ->. subst m2. rewrite Z.sub_diag. apply Z.div_1_r. }
  destruct m2 as [|m|m]; try lia.
  destruct (e2 <=? emax - prec); [|done].
  apply finite_leb_finite.
  destruct (decide (eB < e2)); [by left|right].
  assert (e2 = e1 ∧ eB = e1) as [-> ->] by lia.
  split; [done|]. rewrite Hm2same by done. lia.
Qed.

Lemma zero_leb_finite s m e :
  SFleb (S754_zero s) (S754_finite false m e) = true.
Proof. done. Qed.

(** Rounding does not go above a representable number that the exact
    value does not pass. *)
Lemma round_aux_ub mx ex lx mB eB :
  0 ≤ mx → wide mx ex → bounded prec emax mB eB = true →
  (value mx ex < value (Z.pos mB) eB
   ∨ (value mx ex == value (Z.pos mB) eB ∧ lx = loc_Exact))%Q →
  SFleb (binary_round_aux prec emax false mx ex lx) (S754_finite false mB eB)
  = true.
Proof.
  intros Hmx Hwide [HcB HeB]%bounded_spec Hle.
  destruct (binary_round_aux_spec mx ex lx) as (mr & m2 & e2 & Hspec);
    [lia|done|].
  cbv zeta in Hspec. destruct Hspec as (Hmr & Hexact & He2 & He12 & Hm2 & ->).
  assert (value mx ex <= value (Z.pos mB) eB)%Q as Hle'
    by (destruct Hle as [?|[-> _]]; [by apply Qlt_le_weak|apply Qle_refl]).
  unfold wide in Hwide. rewrite !fexp64 in *.
  pose proof (Zdigits2_nonneg mx Hmx) as Hd0.
  set (e1 := Z.max (Zdigits2 mx + ex - 53) (-1074)) in *.
  destruct (digits2_pos_bounds mB) as [HloB HhiB].
  assert (e1 ≤ eB) as He1B.
  { destruct (decide (mx = 0)) as [->|]; [simpl in *; lia|].
    pose proof (digits_position_le mx ex (Z.pos mB) eB ltac:(lia) ltac:(lia) Hle')
      as Hpos.
    simpl in Hpos. lia. }
  assert (0 < 2 ^ (e1 - ex)) as Hpow by (apply Z.pow_pos_nonneg; lia).
  assert (0 ≤ mx / 2 ^ (e1 - ex) < 2 ^ 53) as Hm1.
  { split; [by apply Z.div_pos|].
    apply Z.div_lt_upper_bound; [done|].
    rewrite <- Z.pow_add_r by lia.
    destruct (decide (mx = 0)) as [->|]; [apply Z.pow_pos_nonneg; lia|].
    destruct (Zdigits2_bounds mx ltac:(lia)) as (_ & _ & Hhi).
    eapply Z.lt_le_trans; [exact Hhi|]. apply Z.pow_le_mono_r; lia. }
  assert (Z.pos (digits2_pos mB) ≤ 53) as HdB by lia.
  assert (Z.pos mB < 2 ^ 53) as HmB
    by (eapply Z.lt_le_trans; [exact HhiB|]; apply Z.pow_le_mono_r; lia).
  assert (0 < 2 ^ (e2 - e1)) as Hpow2 by (apply Z.pow_pos_nonneg; lia).
  assert (0 ≤ m2) as Hm2pos by (subst m2; apply Z.div_pos; lia).
  destruct (decide (e1 = eB)) as [Hsame|Hlower].
  - (* same binade: the rounded mantissa is at most that of the bound *)
    assert (mr ≤ Z.pos mB) as HmrB.
    { destruct Hle as [Hlt|[Heq ->]].
      - replace eB with (ex + (e1 - ex)) in Hlt by lia.
        rewrite value_shift in Hlt by lia. apply value_lt in Hlt.
        assert (mx / 2 ^ (e1 - ex) < Z.pos mB); [|lia].
        apply Z.div_lt_upper_bound; [done|]. lia.
      - replace eB with (ex + (e1 - ex)) in Heq by lia.
        rewrite value_shift in Heq by lia. apply value_eq in Heq.
        rewrite Hexact; [| done |by rewrite Heq, Z.mod_mul by lia].
        rewrite Heq, Z.div_mul by lia. lia. }
    assert (Zdigits2 mr ≤ 53) by (apply Zdigits2_le; lia).
    assert (e2 = e1) as -> by lia.
    rewrite Z.sub_diag, Z.div_1_r in Hm2. subst m2.
    destruct mr as [|m|m]; [done| |lia].
    destruct (e1 <=? emax - prec) eqn:Hov;
      [|apply Z.leb_gt in Hov; unfold emax, prec in Hov; lia].
    apply finite_leb_finite. right. split; [done|lia].
  - (* lower binade: at most one carry, into the binade of the bound *)
    assert (Zdigits2 mr ≤ 54) by (apply Zdigits2_le; [lia|]; change (2 ^ 54) with (2 * 2 ^ 53); lia).
    assert (e2 ≤ e1 + 1) by lia.
    destruct m2 as [|m|m]; [done| |lia].
    destruct (e2 <=? emax - prec) eqn:Hov;
      [|apply Z.leb_gt in Hov; unfold emax, prec in Hov; lia].
    apply finite_leb_finite.
    destruct (decide (e2 < eB)); [by left|right].
    assert (e2 = eB) as He2B by lia. split; [done|].
    assert (e2 = e1 + 1) as He21 by lia.
    assert (Zdigits2 mr = 54) as Hdr by lia.
    assert (0 < mr) as Hmrpos by (destruct mr; simpl in *; lia).
    destruct (Zdigits2_bounds mr Hmrpos) as (_ & Hlor & _).
    rewrite Hdr in Hlor. change (2 ^ (54 - 1)) with (2 ^ 53) in Hlor.
    assert (mr = 2 ^ 53) as -> by lia.
    rewrite He21 in Hm2. replace (e1 + 1 - e1) with 1 in Hm2 by lia.
    change (2 ^ 53 / 2 ^ 1) with (2 ^ 52) in Hm2.
    assert (Z.pos (digits2_pos mB) = 53) as HdB53 by lia.
    rewrite HdB53 in HloB. change (2 ^ (53 - 1)) with (2 ^ 52) in HloB. lia.
Qed.

End Bounds.

Section Operations.

Lemma leb_value ma ea mb eb :
  bounded prec emax ma ea = true → bounded prec emax mb eb = true →
  SFleb (S754_finite false ma ea) (S754_finite false mb eb) = true →
  (value (Z.pos ma) ea <= value (Z.pos mb) eb)%Q.
Proof.
  intros [Hca Hea]%bounded_spec [Hcb Heb]%bounded_spec.
  unfold SFleb, SFcompare. rewrite !fexp64 in *.
  destruct (Z.compare_spec ea eb) as [->|Hlt|Hgt]; [| |done].
  - change (Pos.compare_cont Eq ma mb) with (ma ?= mb)%positive.
    destruct (Pos.compare_spec ma mb); try done; intros _; apply value_le; lia.
  - intros _.
    pose proof (digits_value_hi (Z.pos ma) ea ltac:(lia)) as Hhi.
    pose proof (digits_value_lo (Z.pos mb) eb ltac:(lia)) as Hlo.
    simpl in Hhi, Hlo.
    assert (p2 (Z.pos (digits2_pos ma) + ea)
            <= p2 (Z.pos (digits2_pos mb) - 1 + eb))%Q by (apply p2_le; lia).
    lra.
Qed.

Lemma pos_iter_xO m d : Z.pos (Pos.iter xO m d) = Z.pos m * 2 ^ Z.pos d.
Proof.
  induction d as [|d IH] using Pos.peano_ind.
  - simpl. lia.
  - rewrite Pos.iter_succ, Pos2Z.inj_succ, Z.pow_succ_r by lia.
    change (Z.pos (Pos.iter xO m d)~0) with (2 * Z.pos (Pos.iter xO m d)).
    rewrite IH. lia.
Qed.

Lemma shl_align_spec mx ex ex' :
  let '(m, e) := shl_align mx ex ex' in
  e = Z.min ex ex' ∧ Z.pos m = Z.pos mx * 2 ^ (ex - e).
Proof.
  unfold shl_align. destruct (ex' - ex) as [|d|d] eqn:Hd.
  - split; [lia|]. rewrite Z.sub_diag. simpl. lia.
  - split; [lia|]. rewrite Z.sub_diag. simpl. lia.
  - split; [lia|]. rewrite pos_iter_xO. do 2 f_equal. lia.
Qed.

Lemma Zdigits2_shift m k : 0 < m → 0 ≤ k → Zdigits2 (m * 2 ^ k) = Zdigits2 m + k.
Proof.
  intros Hm Hk. destruct (Zdigits2_bounds m Hm) as (Hd & Hlo & Hhi).
  assert (0 < 2 ^ k) by (apply Z.pow_pos_nonneg; lia).
  apply Z.le_antisymm.
  - apply Zdigits2_le; [lia|]. split; [lia|]. rewrite Z.pow_add_r by lia.
    apply Z.mul_lt_mono_pos_r; lia.
  - apply Zdigits2_ge; [|lia].
    replace (Zdigits2 m + k - 1) with (Zdigits2 m - 1 + k) by lia.
    rewrite Z.pow_add_r by lia. apply Z.mul_le_mono_nonneg_r; lia.
Qed.

(** [binary_round] first widens the mantissa, then rounds it. *)
Lemma binary_round_spec m e :
  ∃ mz ez,
    binary_round prec emax false m e
    = binary_round_aux prec emax false (Z.pos mz) ez loc_Exact
    ∧ wide (Z.pos mz) ez
    ∧ (value (Z.pos mz) ez == value (Z.pos m) e)%Q.
Proof.
  unfold binary_round.
  pose proof (shl_align_spec m e (fexp prec emax (Z.pos (digits2_pos m) + e)))
    as Hs.
  destruct (shl_align _ _ _) as [mz ez]. destruct Hs as [Hez Hmz].
  exists mz, ez. split; [done|].
  assert (0 ≤ e - ez) by lia.
  assert (Zdigits2 (Z.pos mz) + ez = Z.pos (digits2_pos m) + e) as Hd.
  { rewrite Hmz, Zdigits2_shift by lia. simpl. lia. }
  split.
  - unfold wide. rewrite Hd. lia.
  - rewrite Hmz. replace e with (ez + (e - ez)) at 2 by lia.
    by rewrite value_shift by lia.
Qed.

Lemma binary_round_lb m e mB eB :
  bounded prec emax mB eB = true →
  (value (Z.pos mB) eB <= value (Z.pos m) e)%Q →
  SFleb (S754_finite false mB eB) (binary_round prec emax false m e) = true.
Proof.
  intros HB Hle. destruct (binary_round_spec m e) as (mz & ez & -> & Hw & Hv).
  apply round_aux_lb; [lia|done|done|]. by rewrite Hv.
Qed.

Lemma binary_round_ub m e mB eB :
  bounded prec emax mB eB = true →
  (value (Z.pos m) e <= value (Z.pos mB) eB)%Q →
  SFleb (binary_round prec emax false m e) (S754_finite false mB eB) = true.
Proof.
  intros HB Hle. destruct (binary_round_spec m e) as (mz & ez & -> & Hw & Hv).
  apply round_aux_ub; [lia|done|done|]. rewrite Hv.
  apply Qle_lt_or_eq in Hle as [?|?]; auto.
Qed.

Lemma binary_round_aux_nonneg mx ex lx :
  nonneg_or_nan (binary_round_aux prec emax false mx ex lx).
Proof.
  unfold binary_round_aux. destruct (shr_fexp _ _ _ _ _) as [mrs1 e1].
  destruct (shr_fexp _ _ _ _ _) as [mrs2 e2].
  destruct (shr_m mrs2); [done| |done]. by destruct (_ <=? _).
Qed.

Lemma binary_round_nonneg m e : nonneg_or_nan (binary_round prec emax false m e).
Proof.
  unfold binary_round. destruct (shl_align _ _ _).
  apply binary_round_aux_nonneg.
Qed.

End Operations.

Section Arithmetic.

Lemma value_pos m e : 0 < m → (0 < value m e)%Q.
Proof.
  intros Hm. unfold value. pose proof (p2_pos e).
  apply Qmult_lt_0_compat; [|done]. change 0%Q with (inject_Z 0).
  by rewrite <- Zlt_Qlt.
Qed.

Lemma value_nonneg m e : 0 ≤ m → (0 <= value m e)%Q.
Proof.
  intros Hm. unfold value. pose proof (p2_pos e).
  apply Qmult_le_0_compat; [|lra]. change 0%Q with (inject_Z 0).
  by rewrite <- Zle_Qle.
Qed.

Lemma value_add m1 m2 e : (value (m1 + m2) e == value m1 e + value m2 e)%Q.
Proof. unfold value. rewrite inject_Z_plus. ring. Qed.

(** The aligned mantissas of an addition or a subtraction. *)
Lemma aligned_value mx ex ez :
  ez ≤ ex →
  (value (Z.pos (shl_align mx ex ez).1) ez == value (Z.pos mx) ex)%Q.
Proof.
  intros Hz. pose proof (shl_align_spec mx ex ez) as Hs.
  destruct (shl_align mx ex ez) as [m e]. destruct Hs as [He Hm]. simpl.
  assert (e = ez) as -> by lia. rewrite Hm.
  replace ex with (ez + (ex - ez)) at 2 by lia.
  by rewrite value_shift by lia.
Qed.

(** A sum of two positive numbers is not below a representable number
    that its first term reaches. *)
Lemma SFadd_lb ma ea mb eb mB eB :
  bounded prec emax mB eB = true →
  (value (Z.pos mB) eB <= value (Z.pos ma) ea)%Q →
  SFleb (S754_finite false mB eB)
        (SFadd prec emax (S754_finite false ma ea) (S754_finite false mb eb))
  = true.
Proof.
  intros HB Hle. unfold SFadd. cbv zeta.
  pose proof (aligned_value ma ea (Z.min ea eb) ltac:(lia)) as Ha.
  pose proof (aligned_value mb eb (Z.min ea eb) ltac:(lia)) as Hb.
  simpl cond_Zopp.
  set (a := (shl_align ma ea (Z.min ea eb)).1) in *.
  set (b := (shl_align mb eb (Z.min ea eb)).1) in *.
  change (Z.pos a + Z.pos b) with (Z.pos (a + b)). simpl binary_normalize.
  apply binary_round_lb; [done|].
  rewrite Pos2Z.inj_add, value_add, Ha.
  pose proof (value_pos (Z.pos b) (Z.min ea eb) ltac:(lia)). lra.
Qed.

Lemma nonneg_leb_zero r m e :
  nonneg_or_nan r → SFleb r (S754_finite false m e) = true →
  SFleb (S754_zero false) r = true.
Proof. by destruct r as [[]|[]| |[]]. Qed.

(** For [0 < b <= a], the difference [a - b] is in [0, a]. *)
Lemma SFsub_range ma ea mb eb :
  bounded prec emax ma ea = true → bounded prec emax mb eb = true →
  SFleb (S754_finite false mb eb) (S754_finite false ma ea) = true →
  SFleb (S754_zero false)
        (SFsub prec emax (S754_finite false ma ea) (S754_finite false mb eb))
  = true
  ∧ SFleb (SFsub prec emax (S754_finite false ma ea) (S754_finite false mb eb))
          (S754_finite false ma ea)
    = true.
Proof.
  intros HA HB Hle. apply leb_value in Hle; [|done..].
  unfold SFsub. cbv zeta.
  pose proof (aligned_value ma ea (Z.min ea eb) ltac:(lia)) as Ha.
  pose proof (aligned_value mb eb (Z.min ea eb) ltac:(lia)) as Hb.
  simpl cond_Zopp.
  set (a := (shl_align ma ea (Z.min ea eb)).1) in *.
  set (b := (shl_align mb eb (Z.min ea eb)).1) in *.
  assert (Z.pos b ≤ Z.pos a) as Hba
    by (apply (value_le _ _ (Z.min ea eb)); by rewrite Ha, Hb).
  destruct (Z.pos a - Z.pos b) as [|d|d] eqn:Hd; [done| |lia].
  simpl binary_normalize.
  assert (SFleb (binary_round prec emax false d (Z.min ea eb))
                (S754_finite false ma ea) = true) as Hub.
  { apply binary_round_ub; [done|]. rewrite <- Ha, <- Hd.
    apply value_le. lia. }
  split; [|done].
  eapply nonneg_leb_zero; [apply binary_round_nonneg|exact Hub].
Qed.

Lemma new_location_exact nb k : new_location nb k = loc_Exact ↔ k = 0.
Proof.
  unfold new_location, new_location_even, new_location_odd.
  destruct (Z.even nb), (Z.eqb_spec k 0); split; try done.
Qed.

(** The integer division at the heart of [SFdiv]: quotient, remainder
    and the location of the exact quotient. *)
Lemma SFdiv_core_spec m1 e1 m2 e2 :
  ∃ q e' l r,
    SFdiv_core_binary prec emax (Z.pos m1) e1 (Z.pos m2) e2 = (q, e', l)
    ∧ 0 ≤ q ∧ wide q e' ∧ 0 ≤ r < Z.pos m2
    ∧ 0 ≤ e1 - e2 - e'
    ∧ Z.pos m1 * 2 ^ (e1 - e2 - e') = Z.pos m2 * q + r
    ∧ (r = 0 → l = loc_Exact).
Proof.
  unfold SFdiv_core_binary. cbv zeta. rewrite fexp64.
  set (d1 := Zdigits2 (Z.pos m1)). set (d2 := Zdigits2 (Z.pos m2)).
  set (e' := Z.min (Z.max (d1 + e1 - (d2 + e2) - 53) (-1074)) (e1 - e2)).
  set (s := e1 - e2 - e').
  assert (0 ≤ s) as Hs by lia.
  set (m' := match s with Z.pos _ => Z.shiftl (Z.pos m1) s | 0 => Z.pos m1
             | Z.neg _ => 0 end).
  assert (m' = Z.pos m1 * 2 ^ s) as Hm'.
  { subst m'. destruct s; [simpl; lia| |lia]. by rewrite Z.shiftl_mul_pow2. }
  pose proof (Z_div_mod m' (Z.pos m2) ltac:(lia)) as Hdiv.
  destruct (Z.div_eucl m' (Z.pos m2)) as [q r]. destruct Hdiv as [Heq Hr].
  assert (0 < 2 ^ s) by (apply Z.pow_pos_nonneg; lia).
  assert (0 ≤ q) as Hq by nia.
  exists q, e', (new_location (Z.pos m2) r), r.
  split; [done|]. split; [done|].
  split; [|split; [lia|split; [lia|split; [fold s; lia|]]]].
  2: { intros ->. by apply new_location_exact. }
  (* the quotient is wide enough *)
  unfold wide. rewrite !fexp64 in *.
  destruct (decide (e' ≤ -1074)); [lia|].
  destruct (Zdigits2_bounds (Z.pos m1) ltac:(lia)) as (Hd1 & Hlo1 & _).
  destruct (Zdigits2_bounds (Z.pos m2) ltac:(lia)) as (Hd2 & _ & Hhi2).
  fold d1 in Hlo1, Hd1. fold d2 in Hhi2, Hd2.
  assert (d2 - d1 + 53 ≤ s) as Hs53 by lia.
  assert (2 ^ (d1 + s - d2 - 1) ≤ q) as Hqlo.
  { assert (2 ^ (d1 + s - d2 - 1) * Z.pos m2 ≤ m'); [|nia].
    rewrite Hm'.
    assert (0 < 2 ^ (d1 + s - d2 - 1)) by (apply Z.pow_pos_nonneg; lia).
    assert (2 ^ (d1 + s - d2 - 1) * 2 ^ d2 = 2 ^ (d1 - 1) * 2 ^ s) as Hpow
      by (rewrite <- !Z.pow_add_r by lia; f_equal; lia).
    nia. }
  assert (0 < q)
    by (assert (0 < 2 ^ (d1 + s - d2 - 1)) by (apply Z.pow_pos_nonneg; lia); lia).
  assert (d1 + s - d2 ≤ Zdigits2 q) by (apply Zdigits2_ge; [|done]; exact Hqlo).
  lia.
Qed.

Lemma value_mul m1 e1 m2 e2 :
  (value (m1 * m2) (e1 + e2) == value m1 e1 * value m2 e2)%Q.
Proof. unfold value. rewrite inject_Z_mult, p2_add. ring. Qed.

(** For [0 < a] and [1 <= b], the quotient [a / b] is in [0, a]. *)
Lemma SFdiv_range ma ea mb eb :
  bounded prec emax ma ea = true →
  (1 <= value (Z.pos mb) eb)%Q →
  SFleb (S754_zero false)
        (SFdiv prec emax (S754_finite false ma ea) (S754_finite false mb eb))
  = true
  ∧ SFleb (SFdiv prec emax (S754_finite false ma ea) (S754_finite false mb eb))
          (S754_finite false ma ea)
    = true.
Proof.
  intros HA Hone. unfold SFdiv.
  destruct (SFdiv_core_spec ma ea mb eb)
    as (q & e' & l & r & -> & Hq & Hwide & Hr & Hs & Heq & Hexact).
  simpl xorb.
  assert (value (Z.pos ma) ea
          == value q e' * value (Z.pos mb) eb + value r (eb + e'))%Q as Hval.
  { replace ea with (eb + e' + (ea - eb - e')) at 1 by lia.
    rewrite value_shift, Heq, value_add by lia.
    rewrite (Z.mul_comm (Z.pos mb)), (Z.add_comm eb e') at 1.
    by rewrite value_mul. }
  pose proof (value_nonneg q e' Hq) as HX.
  assert (value q e' <= value q e' * value (Z.pos mb) eb)%Q as HXY by nra.
  assert (SFleb (binary_round_aux prec emax false q e' l)
                (S754_finite false ma ea) = true) as Hub.
  { apply round_aux_ub; [done..|].
    destruct (decide (r = 0)) as [->|Hne].
    - assert (value 0 (eb + e') == 0)%Q as Hz by (unfold value; ring).
      rewrite Hz, Qplus_0_r in Hval.
      assert (value q e' <= value (Z.pos ma) ea)%Q as Hle by (by rewrite Hval).
      apply Qle_lt_or_eq in Hle as [?|?]; auto.
    - left. pose proof (value_pos r (eb + e') ltac:(lia)). rewrite Hval. lra. }
  split; [|done].
  eapply nonneg_leb_zero; [apply binary_round_aux_nonneg|exact Hub].
Qed.

End Arithmetic.

(** ** RSI on binary64 *)

Section Binary64.

Lemma Prim2SF_inj x y : Prim2SF x = Prim2SF y → x = y.
Proof.
  intros Heq. by rewrite <- (SF2Prim_Prim2SF x), Heq, SF2Prim_Prim2SF.
Qed.

(** The sign analysis of the operations of [calculateRSI]. *)
Lemma nonneg_add x y :
  nonneg_float x → not_negative y → nonneg_float (x + y)%float.
Proof.
  unfold nonneg_float, not_negative. rewrite add_spec. unfold SF64add.
  destruct (Prim2SF x) as [[]|[]| |[] mx ex], (Prim2SF y) as [[]|[]| |[] my ey];
    try done.
  intros _ _. unfold SFadd. cbv zeta. simpl cond_Zopp.
  set (a := (shl_align mx ex (Z.min ex ey)).1).
  set (b := (shl_align my ey (Z.min ex ey)).1).
  change (Z.pos a + Z.pos b) with (Z.pos (a + b)).
  apply binary_round_nonneg.
Qed.

Lemma nonneg_not_negative x : nonneg_float x → not_negative x.
Proof.
  unfold nonneg_float, not_negative. by destruct (Prim2SF x) as [[]|[]| |[]].
Qed.

Lemma nonneg_mul x y :
  nonneg_float x → nonneg_float y → nonneg_float (x * y)%float.
Proof.
  unfold nonneg_float. rewrite mul_spec. unfold SF64mul.
  destruct (Prim2SF x) as [[]|[]| |[] mx ex], (Prim2SF y) as [[]|[]| |[] my ey];
    try done.
  intros _ _. apply binary_round_aux_nonneg.
Qed.

Lemma nonneg_div x y :
  nonneg_float x → nonneg_float y → nonneg_float (x / y)%float.
Proof.
  unfold nonneg_float. rewrite div_spec. unfold SF64div.
  destruct (Prim2SF x) as [[]|[]| |[] mx ex], (Prim2SF y) as [[]|[]| |[] my ey];
    try done.
  intros _ _. unfold SFdiv.
  destruct (SFdiv_core_spec mx ex my ey) as (q & e' & l & r & -> & _).
  apply binary_round_aux_nonneg.
Qed.

Lemma nonneg_of_int (n : Z) : 0 ≤ n → nonneg_float (of_int n).
Proof.
  intros Hn. unfold nonneg_float. simpl. unfold IEEE.float64_of_int.
  destruct (decide (n < 0)); [lia|]. rewrite of_uint63_spec.
  pose proof (Uint63.to_Z_bounded (Uint63.of_Z n)) as [Hlo _].
  destruct (Uint63.to_Z (Uint63.of_Z n)) as [|m|m]; [done| |lia].
  apply binary_round_nonneg.
Qed.

Lemma nonneg_gt x : fgt x F0 = true → nonneg_float x.
Proof.
  unfold nonneg_float. simpl. rewrite ltb_spec.
  change (Prim2SF (IEEE.float64_of_int 0)) with (S754_zero false).
  by destruct (Prim2SF x) as [[]|[]| |[]].
Qed.

Lemma not_negative_opp x : fgt x F0 = false → not_negative (- x)%float.
Proof.
  unfold not_negative. simpl. rewrite ltb_spec, opp_spec.
  change (Prim2SF (IEEE.float64_of_int 0)) with (S754_zero false).
  by destruct (Prim2SF x) as [[]|[]| |[]].
Qed.


Lemma value_one : (value 4503599627370496 (-52) == 1)%Q.
Proof. reflexivity. Qed.

(** [float64(n)] for an [int] that is positive: a positive number. *)
Lemma of_int_positive (n : Z) :
  1 ≤ n < 2 ^ 63 → ∃ m e, Prim2SF (of_int n) = S754_finite false m e.
Proof.
  intros Hn. simpl. unfold IEEE.float64_of_int.
  destruct (decide (n < 0)); [lia|]. rewrite of_uint63_spec.
  rewrite Uint63.of_Z_spec, Z.mod_small by (change Uint63.wB with (2 ^ 63); lia).
  destruct n as [|p|p]; [lia| |lia]. unfold binary_normalize.
  assert (value (Z.pos p) 0 == inject_Z (Z.pos p))%Q as Hp.
  { unfold value, p2. change (2 ^ 0)%Q with 1%Q. apply Qmult_1_r. }
  assert (SFleb (S754_finite false 4503599627370496 (-52))
                (binary_round prec emax false p 0) = true) as Hlb.
  { apply binary_round_lb; [done|]. rewrite value_one, Hp.
    change 1%Q with (inject_Z 1). rewrite <- Zle_Qle. lia. }
  assert (SFleb (binary_round prec emax false p 0)
                (S754_finite false 4503599627370496 11) = true) as Hub.
  { apply binary_round_ub; [done|]. rewrite Hp.
    assert (value 4503599627370496 11 == inject_Z (2 ^ 63))%Q as ->
      by reflexivity.
    rewrite <- Zle_Qle. lia. }
  destruct (binary_round prec emax false p 0) as [[]|[]| |[] m e];
    try done. by eexists _, _.
Qed.

Lemma of_int_nonneg_finite (n : Z) :
  0 ≤ n < 2 ^ 63 →
  Prim2SF (of_int n) = S754_zero false
  ∨ ∃ m e, Prim2SF (of_int n) = S754_finite false m e.
Proof.
  intros Hn. destruct (decide (n = 0)) as [->|Hne]; [by left|].
  right. apply of_int_positive. lia.
Qed.

Lemma is_nan_spec x : is_nan x = true ↔ Prim2SF x = S754_nan.
Proof.
  unfold is_nan. rewrite FloatAxioms.eqb_spec.
  destruct (Prim2SF x) as [s|s| |s m e]; simpl; try (split; [done|done]).
  - unfold SFeqb, SFcompare. by destruct s.
  - unfold SFeqb, SFcompare. rewrite Z.compare_refl.
    destruct s; simpl; rewrite Pos.compare_cont_refl; simpl; done.
Qed.

Lemma is_nan_nan x : is_nan x = true → x = nan.
Proof. intros Hx%is_nan_spec. by apply Prim2SF_inj. Qed.

(** [100 - 100/(1 + rs)] for [rs] that is not negative: NaN when [rs]
    is, in [0, 100] otherwise. *)
Lemma rsi_formula_cases (rs : float) :
  nonneg_float rs →
  is_nan rs = true ∧ is_nan (100 - 100 / (1 + rs))%float = true
  ∨ is_nan rs = false ∧ in_percent_range (100 - 100 / (1 + rs))%float = true.
Proof.
  unfold nonneg_float. intros Hrs.
  destruct (is_nan rs) eqn:Hnan.
  { left. apply is_nan_nan in Hnan. rewrite Hnan. split; reflexivity. }
  right. split; [done|].
  assert (Prim2SF rs ≠ S754_nan) as Hnot.
  { intros Hx%is_nan_spec. congruence. }
  pose proof (Prim2SF_valid rs) as Hvrs.
  pose proof (add_spec 1 rs) as Ht. unfold SF64add in Ht.
  change (Prim2SF 1) with (S754_finite false 4503599627370496 (-52)) in Ht.
  destruct (Prim2SF rs) as [[]|[]| |[] mr er] eqn:Hr; try done.
  - (* rs = +0 *)
    apply (Prim2SF_inj _ 1%float) in Ht. rewrite Ht. by vm_compute.
  - (* rs = +Inf *)
    apply (Prim2SF_inj _ infinity) in Ht. rewrite Ht. by vm_compute.
  - (* rs finite and positive: 1 <= 1 + rs *)
    assert (SFleb (S754_finite false 4503599627370496 (-52))
                  (Prim2SF (1 + rs)) = true) as Hone.
    { rewrite Ht. by apply SFadd_lb. }
    clear Ht. set (t := (1 + rs)%float) in *.
    pose proof (Prim2SF_valid t) as Hvt.
    pose proof (div_spec 100 t) as Hq. unfold SF64div in Hq.
    change (Prim2SF 100) with (S754_finite false 7036874417766400 (-46)) in Hq.
    destruct (Prim2SF t) as [[]|[]| |[] mt et] eqn:Ht; try done.
    + (* 1 + rs = +Inf *)
      apply (Prim2SF_inj _ 0%float) in Hq. rewrite Hq. by vm_compute.
    + apply leb_value in Hone; [|done..]. rewrite value_one in Hone.
      destruct (SFdiv_range 7036874417766400 (-46) mt et eq_refl Hone)
        as [Hq0 Hq100].
      rewrite <- Hq in Hq0, Hq100. clear Hq. set (q := (100 / t)%float) in *.
      pose proof (Prim2SF_valid q) as Hvq.
      pose proof (sub_spec 100 q) as Hs. unfold SF64sub in Hs.
      change (Prim2SF 100) with (S754_finite false 7036874417766400 (-46)) in Hs.
      destruct (Prim2SF q) as [[]|[]| |[] mq eq] eqn:Hq; try done.
      * apply (Prim2SF_inj _ 100%float) in Hs. rewrite Hs. by vm_compute.
      * apply (Prim2SF_inj _ 100%float) in Hs. rewrite Hs. by vm_compute.
      * destruct (SFsub_range 7036874417766400 (-46) mq eq eq_refl Hvq Hq100)
          as [Hr0 Hr100].
        rewrite <- Hs in Hr0, Hr100. unfold in_percent_range.
        rewrite !leb_spec. apply andb_true_iff. by split.
Qed.

Lemma nonneg_sum_gains (ds : list float) gains :
  nonneg_float gains →
  nonneg_float
    (foldl (λ gains d, if fgt d F0 then (gains + d)%F else gains) gains ds).
Proof.
  revert gains. induction ds as [|d ds IH]; intros gains Hg; simpl; [done|].
  apply IH. destruct (PrimFloat.ltb _ d) eqn:Hd; [|done].
  apply nonneg_add; [done|]. by apply nonneg_not_negative, nonneg_gt.
Qed.

Lemma nonneg_sum_losses (ds : list float) losses :
  nonneg_float losses →
  nonneg_float
    (foldl (λ losses d, if fgt d F0 then losses else (losses + - d)%F)
           losses ds).
Proof.
  revert losses. induction ds as [|d ds IH]; intros losses Hl; simpl; [done|].
  apply IH. destruct (PrimFloat.ltb _ d) eqn:Hd; [done|].
  apply nonneg_add; [done|]. by apply not_negative_opp.
Qed.

Lemma nonneg_wilder (period : nat) avg contribution :
  (1 ≤ period)%nat → nonneg_float avg → not_negative contribution →
  nonneg_float (wilder period avg contribution).
Proof.
  intros Hp Ha Hc. unfold wilder.
  apply nonneg_div; [|apply nonneg_of_int; lia].
  apply nonneg_add; [|done].
  apply nonneg_mul; [done|apply nonneg_of_int; lia].
Qed.

Lemma nonneg_wilder_decay (period : nat) avg :
  (1 ≤ period)%nat → nonneg_float avg →
  nonneg_float (wilder_decay period avg).
Proof.
  intros Hp Ha. unfold wilder_decay.
  apply nonneg_div; [|apply nonneg_of_int; lia].
  apply nonneg_mul; [done|apply nonneg_of_int; lia].
Qed.

Lemma nonneg_rsi_step (period : nat) (avgs : float * float) d :
  (1 ≤ period)%nat → nonneg_float avgs.1 → nonneg_float avgs.2 →
  nonneg_float (rsi_step period avgs d).1
  ∧ nonneg_float (rsi_step period avgs d).2.
Proof.
  intros Hp Hg Hl. unfold rsi_step. destruct (fgt d F0) eqn:Hd; simpl.
  - split; [|by apply nonneg_wilder_decay].
    apply nonneg_wilder; [done..|]. by apply nonneg_not_negative, nonneg_gt.
  - split; [by apply nonneg_wilder_decay|].
    apply nonneg_wilder; [done..|]. by apply not_negative_opp.
Qed.

(** avgGain and avgLoss never have their sign bit set, unless NaN. *)
Lemma nonneg_rsi_averages (klines : list (Kline float)) (period : nat) :
  (1 ≤ period)%nat →
  nonneg_float (rsi_averages klines period).1
  ∧ nonneg_float (rsi_averages klines period).2.
Proof.
  intros Hp. unfold rsi_averages.
  assert (nonneg_float (rsi_seed klines period).1
          ∧ nonneg_float (rsi_seed klines period).2) as Hseed.
  { unfold rsi_seed. simpl.
    split; (apply nonneg_div; [|apply nonneg_of_int; lia]).
    - by apply nonneg_sum_gains.
    - by apply nonneg_sum_losses. }
  revert Hseed. generalize (rsi_seed klines period).
  induction (drop period (deltas klines)) as [|d ds IH]; intros avgs [Hg Hl];
    simpl; [done|].
  apply IH. by apply nonneg_rsi_step.
Qed.

(** ** A zero average stays a zero *)

Lemma feq_zero x : feq x F0 = true ↔ signed_zero x.
Proof.
  unfold signed_zero. simpl. rewrite FloatAxioms.eqb_spec.
  change (Prim2SF (IEEE.float64_of_int 0)) with (S754_zero false).
  by destruct (Prim2SF x) as [[]|[]| |[] m e].
Qed.

Lemma signed_zero_mul x y :
  signed_zero x →
  (Prim2SF y = S754_zero false ∨ ∃ m e, Prim2SF y = S754_finite false m e) →
  signed_zero (x * y)%float.
Proof.
  unfold signed_zero. rewrite mul_spec. intros Hx Hy.
  destruct (Prim2SF x) as [s| | |]; try done.
  by destruct Hy as [->|(m & e & ->)].
Qed.

Lemma signed_zero_div x y m e :
  signed_zero x → Prim2SF y = S754_finite false m e → signed_zero (x / y)%float.
Proof.
  unfold signed_zero. rewrite div_spec. intros Hx ->.
  by destruct (Prim2SF x) as [s| | |].
Qed.

Lemma signed_zero_add x y : signed_zero x → signed_zero y → signed_zero (x + y)%float.
Proof.
  unfold signed_zero. rewrite add_spec. intros Hx Hy.
  destruct (Prim2SF x) as [[]| | |], (Prim2SF y) as [[]| | |]; done.
Qed.

Lemma signed_zero_opp x : signed_zero x → signed_zero (- x)%float.
Proof.
  unfold signed_zero. rewrite opp_spec. by destruct (Prim2SF x).
Qed.

(** A delta that is neither positive nor negative is a zero. *)
Lemma signed_zero_delta d :
  PrimFloat.leb 0 d = true → fgt d F0 = false → signed_zero d.
Proof.
  unfold signed_zero. simpl. rewrite leb_spec, ltb_spec.
  change (Prim2SF (IEEE.float64_of_int 0)) with (S754_zero false).
  change (Prim2SF 0) with (S754_zero false).
  by destruct (Prim2SF d) as [[]|[]| |[] m e].
Qed.

Lemma signed_zero_rsi_step (period : nat) (avgs : float * float) d :
  (1 ≤ period)%nat → Z.of_nat period < 2 ^ 63 →
  signed_zero avgs.2 → PrimFloat.leb 0 d = true →
  signed_zero (rsi_step period avgs d).2.
Proof.
  intros Hp Hint Hl Hd.
  destruct (of_int_positive (Z.of_nat period) ltac:(lia)) as (m & e & Hperiod).
  pose proof (of_int_nonneg_finite (Z.of_nat period - 1) ltac:(lia)) as Hpred.
  unfold rsi_step. destruct (fgt d F0) eqn:Hgt; cbn [fst snd].
  - unfold wilder_decay. eapply signed_zero_div; [|exact Hperiod].
    by apply signed_zero_mul.
  - unfold wilder. eapply signed_zero_div; [|exact Hperiod].
    apply signed_zero_add; [by apply signed_zero_mul|].
    by apply signed_zero_opp, signed_zero_delta.
Qed.

Lemma signed_zero_rsi_averages (klines : list (Kline float)) (period : nat) :
  (1 ≤ period)%nat → Z.of_nat period < 2 ^ 63 →
  signed_zero (rsi_seed klines period).2 →
  Forall (λ d, PrimFloat.leb 0 d = true) (drop period (deltas klines)) →
  signed_zero (rsi_averages klines period).2.
Proof.
  intros Hp Hint. unfold rsi_averages. generalize (rsi_seed klines period).
  induction (drop period (deltas klines)) as [|d ds IH]; intros avgs Hl Hds;
    cbn [foldl]; [done|].
  apply Forall_cons in Hds as [Hd Hds].
  apply IH; [|done]. by apply signed_zero_rsi_step.
Qed.

(** On binary64 and for a period of at least 1, [calculateRSI] returns
    NaN when the final avgLoss is not 0 and avgGain/avgLoss is NaN, and
    a number in [0, 100] in every other case. *)
Lemma float_calculateRSI_cases (klines : list (Kline float)) (period : nat) :
  (1 ≤ period)%nat →
  ∃ rsi,
    calculateRSI klines (Z.of_nat period) = Some rsi
    ∧ nonneg_float (rsi_averages klines period).1
    ∧ nonneg_float (rsi_averages klines period).2
    ∧ (Z.of_nat period < len klines →
       feq (rsi_averages klines period).2 F0 = false →
       is_nan ((rsi_averages klines period).1
               / (rsi_averages klines period).2)%float = true →
       is_nan rsi = true)
    ∧ (len klines ≤ Z.of_nat period
       ∨ feq (rsi_averages klines period).2 F0 = true
       ∨ is_nan ((rsi_averages klines period).1
                 / (rsi_averages klines period).2)%float = false →
       in_percent_range rsi = true).
Proof.
  intros Hp. exists (RSI klines period). split; [apply calculateRSI_spec|].
  destruct (nonneg_rsi_averages klines period Hp) as [Hg Hl].
  split; [done|]. split; [done|].
  unfold RSI, rsi_spec, rsi_of_averages.
  destruct (rsi_averages klines period) as [avgGain avgLoss].
  cbn [fst snd] in *.
  destruct (rsi_formula_cases (avgGain / avgLoss)%float) as [[Hn Hr]|[Hn Hr]];
    [by apply nonneg_div| |].
  - split.
    + intros Hlen Hne _. destruct (decide _); [lia|]. by rewrite Hne.
    + intros [Hlen|[Heq|Hnum]].
      * by destruct (decide _); [|lia].
      * destruct (decide _); [done|]. by rewrite Heq.
      * change (fdiv avgGain avgLoss) with (avgGain / avgLoss)%float in Hnum.
        congruence.
  - split.
    + intros _ _ Hnan.
      change (fdiv avgGain avgLoss) with (avgGain / avgLoss)%float in Hnan.
      congruence.
    + intros _. destruct (decide _); [done|].
      destruct (feq avgLoss F0); [done|]. exact Hr.
Qed.

End Binary64.

Section RSIClaim.

(** C3, as the source has it.  [calculateRSI] returns 0 when the
    sequence has at most [period] candles.  Otherwise it seeds avgGain
    with the sum of the positive deltas and avgLoss with the sum of the
    magnitudes of the other deltas, over the first [period] deltas, each
    divided by [period]; it applies the Wilder recurrence
    [avg = (avg*(period-1) + contribution)/period] once per later delta
    (the side that takes no part decays); and it returns exactly 100
    when the final avgLoss is 0, [100 - 100/(1 + avgGain/avgLoss)]
    otherwise.  On binary64 and for a period of at least 1, whatever
    the candles hold: the result is in [0, 100] when the sequence has
    at most [period] candles, when the final avgLoss is 0 or when
    avgGain/avgLoss is not NaN; it is NaN in the one remaining case,
    the final avgLoss not 0 and avgGain/avgLoss NaN; it is exactly 100
    when the final avgLoss is 0, and so when the seeded avgLoss is 0
    and no later delta is negative; it is 100 on the rising closes
    1..30.  The period ranges over the non-negative ints. *)
Theorem calculateRSI_wilder :
  (∀ (F : Type) (ops : Float64 F) (klines : list (Kline F)) (period : nat),
     calculateRSI klines (Z.of_nat period)
     = Some (if decide (len klines ≤ Z.of_nat period) then F0
             else rsi_of_averages (rsi_averages klines period))
     ∧ (∀ avgGain avgLoss,
          rsi_of_averages (avgGain, avgLoss)
          = if feq avgLoss F0 then F100
            else (F100 - F100 / (F1 + avgGain / avgLoss))%F)
     ∧ rsi_averages klines period
       = foldl (rsi_step period)
           ((sum_gains (take period (deltas klines))
             / of_int (Z.of_nat period))%F,
            (sum_losses (take period (deltas klines))
             / of_int (Z.of_nat period))%F)
           (drop period (deltas klines))
     ∧ (∀ avgGain avgLoss d,
          rsi_step period (avgGain, avgLoss) d
          = if fgt d F0
            then (((avgGain * of_int (Z.of_nat period - 1) + d)
                   / of_int (Z.of_nat period))%F,
                  ((avgLoss * of_int (Z.of_nat period - 1))
                   / of_int (Z.of_nat period))%F)
            else (((avgGain * of_int (Z.of_nat period - 1))
                   / of_int (Z.of_nat period))%F,
                  ((avgLoss * of_int (Z.of_nat period - 1) + - d)
                   / of_int (Z.of_nat period))%F)))
  ∧ (∀ (klines : list (Kline float)) (period : nat),
       (1 ≤ period)%nat →
       ∃ rsi avgGain avgLoss,
         calculateRSI klines (Z.of_nat period) = Some rsi
         ∧ rsi_averages klines period = (avgGain, avgLoss)
         ∧ (is_nan rsi = true ∨ in_percent_range rsi = true)
         ∧ (len klines ≤ Z.of_nat period
            ∨ feq avgLoss F0 = true
            ∨ is_nan (avgGain / avgLoss)%float = false →
            in_percent_range rsi = true)
         ∧ (Z.of_nat period < len klines →
            feq avgLoss F0 = false →
            is_nan (avgGain / avgLoss)%float = true →
            is_nan rsi = true)
         ∧ (Z.of_nat period < len klines →
            feq avgLoss F0 = true → rsi = 100%float)
         ∧ (Z.of_nat period < len klines →
            Z.of_nat period < 2 ^ 63 →
            feq (rsi_seed klines period).2 F0 = true →
            Forall (λ d, PrimFloat.leb 0 d = true)
                   (drop period (deltas klines)) →
            rsi = 100%float))
  ∧ calculateRSI rising_candles 7 = Some 100%float.
Proof.
  split; [|split; [|by vm_compute]].
  - intros F ops klines period.
    split; [apply calculateRSI_spec|]. by repeat split.
  - intros klines period Hp.
    destruct (float_calculateRSI_cases klines period Hp)
      as (rsi & Hrsi & _ & _ & Hnan & Hrange).
    pose proof Hrsi as Hspec. rewrite calculateRSI_spec in Hspec.
    injection Hspec as Hspec. unfold RSI, rsi_spec, rsi_of_averages in Hspec.
    pose proof (signed_zero_rsi_averages klines period Hp) as Hzero.
    destruct (rsi_averages klines period) as [avgGain avgLoss] eqn:Havgs.
    cbn [fst snd] in *.
    exists rsi, avgGain, avgLoss. split; [done|]. split; [done|].
    assert (Z.of_nat period < len klines →
            feq avgLoss F0 = true → rsi = 100%float) as Hfull.
    { intros Hlen Heq. destruct (decide _) in Hspec; [lia|].
      by rewrite Heq in Hspec. }
    split; [|split; [done|split; [done|split; [done|]]]].
    + destruct (decide (len klines ≤ Z.of_nat period)) as [Hlen|Hlen].
      { right. apply Hrange. by left. }
      destruct (feq avgLoss F0) eqn:Heq.
      { right. apply Hrange. right. by left. }
      destruct (is_nan (avgGain / avgLoss)%float) eqn:Hq.
      * left. apply Hnan; [lia|done..].
      * right. apply Hrange. right. by right.
    + intros Hlen Hint Hseed Hds. apply Hfull; [done|].
      apply feq_zero, Hzero; [done| |done]. by apply feq_zero.
Qed.

Lemma calculateRSI_wilder_witness :
  ∃ rsi,
    calculateRSI wave_candles 2 = Some rsi
    ∧ rsi = 0x1.1db6db6db6db7p+6%float
    ∧ in_percent_range rsi = true.
Proof.
  destruct (proj1 (proj2 calculateRSI_wilder) wave_candles 2%nat)
    as (rsi & avgGain & avgLoss & Hrsi & Havgs & _ & Hrange & _); [lia|].
  exists rsi. split; [exact Hrsi|].
  split; [vm_compute in Hrsi; congruence|].
  apply Hrange. right. right.
  vm_compute in Havgs. injection Havgs as <- <-. reflexivity.
Defined.

(** C3, counterexample.  On 8 candles whose closes alternate between 0
    and 1.7e308, all finite and none negative, the sums of the gains
    and of the losses both overflow to +Inf: [calculateRSI] with period
    7 returns NaN, which is not in [0, 100]. *)
Lemma calculateRSI_overflow_is_nan :
  len spike_candles > 7
  ∧ Forall (λ k, is_finite (Close k) = true
                 ∧ PrimFloat.leb 0 (Close k) = true) spike_candles
  ∧ calculateRSI spike_candles 7 = Some nan
  ∧ in_percent_range nan = false
  ∧ ¬ (∃ rsi, calculateRSI spike_candles 7 = Some rsi
              ∧ in_percent_range rsi = true).
Proof.
  split; [by vm_compute|]. split; [by repeat constructor|].
  split; [by vm_compute|]. split; [by vm_compute|].
  intros (rsi & Hrsi & Hrange).
  assert (calculateRSI spike_candles 7 = Some nan) as Hnan by (by vm_compute).
  rewrite Hnan in Hrsi. injection Hrsi as <-. vm_compute in Hrange.
  discriminate Hrange.
Qed.

End RSIClaim.

(** * Further properties of the code *)

(** ** The aggregator *)

Section Aggregator.
Context {F : Type} `{Float64 F}.

(** The lookback of one hour, in candles, is negative exactly for the
    scan intervals -60..-1. *)
Lemma quot_60_negative scan : scan ≠ 0 → (60 ÷ scan < 0 ↔ -60 ≤ scan ≤ -1).
Proof.
  intros Hne. destruct scan as [|p|p]; [done| |].
  - rewrite Z.quot_div_nonneg by lia.
    pose proof (Z.div_pos 60 (Z.pos p) ltac:(lia) ltac:(lia)). lia.
  - change (Z.neg p) with (- Z.pos p). rewrite Z.quot_opp_r by lia.
    rewrite Z.quot_div_nonneg by lia.
    destruct (decide (Z.pos p ≤ 60)) as [Hle|Hgt].
    + pose proof (Z.div_le_lower_bound 60 (Z.pos p) 1 ltac:(lia) ltac:(lia)).
      lia.
    + rewrite Z.div_small by lia. lia.
Qed.

Lemma at_index_beyond {A} (l : list A) i : len l ≤ i → at_index l i = None.
Proof.
  intros Hi. unfold at_index, len in *. destruct (decide _); [|done].
  apply lookup_ge_None. lia.
Qed.

Lemma at_index_within {A} (l : list A) i :
  0 ≤ i < len l → is_Some (at_index l i).
Proof.
  intros Hi. unfold at_index, len in *. destruct (decide _); [|lia].
  apply lookup_lt_is_Some. lia.
Qed.

(** [priceChange1h] panics exactly for the scan intervals -60..0:
    the division by zero, or an index past the end. *)
Lemma priceChange1h_None (klines : list (Kline F)) current scan :
  priceChange1h klines current scan = None ↔ -60 ≤ scan ≤ 0.
Proof.
  unfold priceChange1h, int_div. destruct (decide (scan = 0)) as [->|Hne].
  { simpl. split; [lia|done]. }
  simpl. pose proof (quot_60_negative scan Hne) as Hq.
  destruct (decide _) as [Hlen|Hlen].
  - destruct (decide (60 ÷ scan < 0)) as [Hneg|Hpos].
    + rewrite at_index_beyond by lia. simpl. split; [lia|done].
    + destruct (at_index_within klines (len klines - 60 ÷ scan - 1))
        as [k ->]; [lia|].
      simpl. destruct (fgt _ _); split; (done || lia).
  - assert (0 ≤ len klines) by (unfold len; lia). split; [done|lia].
Qed.

(** [GetWithInterval] once the limit is computed and both fetches have
    answered. *)
Lemma GetWithInterval_answered (w : World F) symbol scan limit
    klinesIntraday klines4h :
  calculateIntradayLimit scan = Some limit →
  getKlines w (Normalize symbol) (selectInterval scan) limit
  = Value klinesIntraday →
  getKlines w (Normalize symbol) "4h" 60 = Value klines4h →
  GetWithInterval w symbol scan
  = latest ← last klinesIntraday;
    change1h ← priceChange1h klinesIntraday (Close latest) scan;
    Some (Value
      (mkData (Normalize symbol) (Close latest) change1h
         (price_change klines4h 1 (Close latest))
         (EMA klinesIntraday 20) (MACD klinesIntraday) (RSI klinesIntraday 7)
         (open_interest_or_default w (Normalize symbol))
         (getFundingRate w (Normalize symbol)).1
         (set_Interval (intraday_spec klinesIntraday) (selectInterval scan))
         (longer_term_spec klines4h))).
Proof.
  intros Hlimit Hi H4. unfold GetWithInterval.
  rewrite Hlimit. simpl. rewrite Hi, H4.
  rewrite at_index_last. destruct (last klinesIntraday) as [latest|]; [|done].
  simpl.
  change (calculateEMA klinesIntraday 20)
    with (calculateEMA klinesIntraday (Z.of_nat 20)).
  change (calculateRSI klinesIntraday 7)
    with (calculateRSI klinesIntraday (Z.of_nat 7)).
  rewrite calculateEMA_spec, calculateMACD_spec, calculateRSI_spec. simpl.
  destruct (priceChange1h _ _ _) as [change1h|]; [|done]. simpl.
  rewrite priceChange4h_spec. simpl.
  rewrite calculateIntradaySeries_spec, calculateLongerTermData_spec.
  reflexivity.
Qed.

Lemma calculateIntradayLimit_None scan :
  calculateIntradayLimit scan = None ↔ scan = 0.
Proof.
  unfold calculateIntradayLimit, int_div.
  destruct (decide (scan = 0)); simpl; [done|].
  by destruct (decide _).
Qed.

(** [GetWithInterval] panics when the scan interval is 0, and when
    both fetches have answered with an empty intraday sequence or with
    a scan interval of -60..-1. *)
Lemma GetWithInterval_None (w : World F) symbol scan :
  GetWithInterval w symbol scan = None
  ↔ scan = 0
    ∨ ∃ limit klinesIntraday klines4h,
        calculateIntradayLimit scan = Some limit
        ∧ getKlines w (Normalize symbol) (selectInterval scan) limit
          = Value klinesIntraday
        ∧ getKlines w (Normalize symbol) "4h" 60 = Value klines4h
        ∧ (klinesIntraday = [] ∨ -60 ≤ scan ≤ -1).
Proof.
  destruct (calculateIntradayLimit scan) as [limit|] eqn:Hlimit.
  2:{ pose proof Hlimit as Hz%calculateIntradayLimit_None. subst scan.
      split; [by left|]. intros _. unfold GetWithInterval.
      by rewrite Hlimit. }
  assert (scan ≠ 0) as Hne.
  { intros Hz%calculateIntradayLimit_None. congruence. }
  destruct (getKlines w (Normalize symbol) (selectInterval scan) limit)
    as [klinesIntraday|err] eqn:Hi.
  2:{ unfold GetWithInterval. rewrite Hlimit. simpl. rewrite Hi.
      split; [done|]. intros [?|(l & kI & k4 & Hl & HkI & _)]; [done|].
      congruence. }
  destruct (getKlines w (Normalize symbol) "4h" 60) as [klines4h|err] eqn:H4.
  2:{ unfold GetWithInterval. rewrite Hlimit. simpl. rewrite Hi, H4.
      split; [done|]. intros [?|(l & kI & k4 & Hl & HkI & Hk4 & _)]; [done|].
      congruence. }
  rewrite (GetWithInterval_answered w symbol scan limit klinesIntraday klines4h)
    by done.
  destruct (last klinesIntraday) as [latest|] eqn:Hlast; simpl.
  - destruct (priceChange1h klinesIntraday (Close latest) scan) as [c|] eqn:Hc;
      simpl.
    + split; [done|].
      intros [?|(l & kI & k4 & Hl & HkI & Hk4 & [->|Hscan])]; [done| |].
      * assert (klinesIntraday = []) as -> by congruence. done.
      * assert (priceChange1h klinesIntraday (Close latest) scan = None)
          as Hnone by (apply priceChange1h_None; lia).
        congruence.
    + apply priceChange1h_None in Hc. split; [|done]. intros _. right.
      exists limit, klinesIntraday, klines4h. repeat split; try done.
      right. lia.
  - apply last_None in Hlast. split; [|done]. intros _. right.
    exists limit, klinesIntraday, klines4h. repeat split; try done. by left.
Qed.

(** X2. [calculateIntradayLimit] panics exactly on the scan interval 0.
    Otherwise the limit is between 40 and 120: 120 for the interval 1,
    60 for 2, and 40 for every interval that is negative or at least 3.
    For a positive interval the limit exceeds the [60/scan] candles of
    the one-hour lookback. *)
Theorem calculateIntradayLimit_bounds scan :
  (calculateIntradayLimit scan = None ↔ scan = 0)
  ∧ ∀ limit, calculateIntradayLimit scan = Some limit →
      40 ≤ limit ≤ 120
      ∧ (scan = 1 → limit = 120) ∧ (scan = 2 → limit = 60)
      ∧ (scan < 0 ∨ 3 ≤ scan → limit = 40)
      ∧ (1 ≤ scan → 60 ÷ scan + 1 ≤ limit).
Proof.
  split; [apply calculateIntradayLimit_None|].
  intros limit. unfold calculateIntradayLimit, int_div.
  destruct (decide (scan = 0)) as [|Hne]; [done|]. simpl.
  assert (scan < 0 ∨ scan = 1 ∨ scan = 2 ∨ 3 ≤ scan) as Hcases by lia.
  destruct Hcases as [Hneg|[->|[->|Hbig]]].
  - assert (120 ÷ scan ≤ 0) as Hq.
    { replace scan with (- - scan) by lia. rewrite Z.quot_opp_r by lia.
      rewrite Z.quot_div_nonneg by lia.
      pose proof (Z.div_pos 120 (- scan) ltac:(lia) ltac:(lia)). lia. }
    destruct (decide _); [|lia]. intros [= <-]. lia.
  - intros Hl. vm_compute in Hl. injection Hl as <-.
    change (60 ÷ 1) with 60. lia.
  - intros Hl. vm_compute in Hl. injection Hl as <-.
    change (60 ÷ 2) with 30. lia.
  - rewrite !Z.quot_div_nonneg by lia.
    assert (120 / scan ≤ 40)
      by (apply Z.div_le_upper_bound; lia).
    assert (60 / scan ≤ 20)
      by (apply Z.div_le_upper_bound; lia).
    destruct (decide _); intros [= <-]; lia.
Qed.

(** [GetWithInterval] reads its symbol through [Normalize] only. *)
Lemma GetWithInterval_Normalize_eq (w : World F) s t scan :
  Normalize s = Normalize t →
  GetWithInterval w s scan = GetWithInterval w t scan.
Proof. intros Heq. unfold GetWithInterval. by rewrite Heq. Qed.

Lemma Normalize_Normalize s : Normalize (Normalize s) = Normalize s.
Proof.
  unfold Normalize at 1. cbv zeta.
  by rewrite ToUpper_Normalize, HasSuffix_Normalize.
Qed.

Lemma Normalize_ToUpper s : Normalize (ToUpper s) = Normalize s.
Proof. unfold Normalize. cbv zeta. by rewrite ToUpper_idempotent. Qed.

Lemma Normalize_with_suffix s t :
  ToUpper t = "USDT" →
  HasSuffix (ToUpper s) "USDT" = false →
  Normalize (s +:+ t) = Normalize s.
Proof.
  intros Ht Hs. unfold Normalize. cbv zeta.
  rewrite ToUpper_app, Ht, HasSuffix_app, Hs. done.
Qed.

(** X3. For a symbol that is ASCII text, the snapshot depends on the
    symbol through [Normalize] only: [GetWithInterval] and [Get] return
    the same for the symbol, for its upper-case spelling and for its
    normalized form; and, when the symbol does not end with USDT in
    either case, for the symbol followed by "USDT" or by "usdt". *)
Theorem GetWithInterval_symbol_spelling (w : World F) s scan :
  is_ascii s = true →
  GetWithInterval w (Normalize s) scan = GetWithInterval w s scan
  ∧ GetWithInterval w (ToUpper s) scan = GetWithInterval w s scan
  ∧ (HasSuffix (ToUpper s) "USDT" = false →
     GetWithInterval w (s +:+ "USDT") scan = GetWithInterval w s scan
     ∧ GetWithInterval w (s +:+ "usdt") scan = GetWithInterval w s scan)
  ∧ Get w (Normalize s) = Get w s
  ∧ Get w (ToUpper s) = Get w s.
Proof.
  intros _.
  split; [apply GetWithInterval_Normalize_eq, Normalize_Normalize|].
  split; [apply GetWithInterval_Normalize_eq, Normalize_ToUpper|].
  split.
  { intros Hs.
    split; apply GetWithInterval_Normalize_eq, Normalize_with_suffix; done. }
  split; apply GetWithInterval_Normalize_eq;
    [apply Normalize_Normalize|apply Normalize_ToUpper].
Qed.

(** ** The series *)

(** The indices of a range that reach a gate are a range. *)
Lemma filter_seqZ_ge gate (n : nat) a :
  filter (λ i, gate ≤ i) (seqZ a (Z.of_nat n))
  = seqZ (Z.max a gate) (a + Z.of_nat n - Z.max a gate).
Proof.
  revert a. induction n as [|n IH]; intros a.
  - rewrite !seqZ_nil by lia. done.
  - rewrite (seqZ_cons a) by lia.
    replace (Z.pred (Z.of_nat (S n))) with (Z.of_nat n) by lia.
    rewrite filter_cons, IH. destruct (decide (gate ≤ a)) as [Hle|Hgt].
    + rewrite (seqZ_cons (Z.max a gate)) by lia.
      replace (Z.max a gate) with a by lia. f_equal. f_equal; lia.
    + f_equal; lia.
Qed.

Lemma sample_range gate indicator (klines : list (Kline F)) :
  0 ≤ gate →
  sample gate indicator klines
  = (λ i, indicator (prefix klines i))
      <$> seqZ (Z.max (len klines - 10) gate)
               (Z.min 10 (len klines - gate)).
Proof.
  intros Hgate. unfold sample, sample_on, trailing_window.
  assert (0 ≤ len klines) as Hlen by (unfold len; lia).
  replace (Z.min 10 (len klines))
    with (Z.of_nat (Z.to_nat (Z.min 10 (len klines)))) by lia.
  rewrite filter_seqZ_ge. f_equal.
  destruct (decide (len klines - gate ≤ 0)).
  - rewrite !seqZ_nil by lia. done.
  - f_equal; lia.
Qed.

Lemma sample_length gate indicator (klines : list (Kline F)) :
  0 ≤ gate →
  len (sample gate indicator klines) = Z.max 0 (Z.min 10 (len klines - gate)).
Proof.
  intros Hgate. rewrite sample_range by done. unfold len at 1.
  rewrite length_fmap, length_seqZ. lia.
Qed.

Lemma prefix_all (klines : list (Kline F)) :
  prefix klines (len klines - 1) = klines.
Proof. unfold prefix, len. apply take_ge. lia. Qed.

(** The latest point of a series is the indicator on the whole
    sequence. *)
Lemma sample_last gate indicator (klines : list (Kline F)) :
  0 ≤ gate → gate < len klines →
  last (sample gate indicator klines) = Some (indicator klines).
Proof.
  intros Hgate Hlen. rewrite sample_range by done.
  set (b := Z.max (len klines - 10) gate).
  set (n := Z.min 10 (len klines - gate)).
  replace n with ((n - 1) + 1) by lia.
  rewrite seqZ_app by lia.
  rewrite (seqZ_cons _ 1), (seqZ_nil _ (Z.pred 1)) by lia.
  rewrite fmap_snoc, last_snoc. f_equal.
  replace (b + (n - 1)) with (len klines - 1) by lia.
  by rewrite prefix_all.
Qed.

Lemma sample_nonempty gate indicator (klines : list (Kline F)) :
  0 ≤ gate → sample gate indicator klines ≠ [] → gate < len klines.
Proof.
  intros Hgate Hne. pose proof (sample_length gate indicator klines Hgate) as Hl.
  destruct (sample gate indicator klines); [done|].
  unfold len at 1 in Hl. simpl in Hl. lia.
Qed.

Lemma mid_prices_last (klines : list (Kline F)) :
  last (mid_prices klines) = Close <$> last klines.
Proof.
  unfold mid_prices. rewrite fmap_last. f_equal.
  destruct klines as [|k klines]; [done|].
  rewrite !last_lookup, lookup_drop, length_drop. f_equal.
  simpl length. lia.
Qed.

Lemma GetWithInterval_Value (w : World F) symbol scan data :
  GetWithInterval w symbol scan = Some (Value data) →
  ∃ limit klinesIntraday klines4h latest change1h,
    calculateIntradayLimit scan = Some limit
    ∧ getKlines w (Normalize symbol) (selectInterval scan) limit
      = Value klinesIntraday
    ∧ getKlines w (Normalize symbol) "4h" 60 = Value klines4h
    ∧ last klinesIntraday = Some latest
    ∧ priceChange1h klinesIntraday (Close latest) scan = Some change1h
    ∧ data
      = mkData (Normalize symbol) (Close latest) change1h
          (price_change klines4h 1 (Close latest))
          (EMA klinesIntraday 20) (MACD klinesIntraday) (RSI klinesIntraday 7)
          (open_interest_or_default w (Normalize symbol))
          (getFundingRate w (Normalize symbol)).1
          (set_Interval (intraday_spec klinesIntraday) (selectInterval scan))
          (longer_term_spec klines4h).
Proof.
  intros Hget.
  destruct (calculateIntradayLimit scan) as [limit|] eqn:Hlimit.
  2:{ unfold GetWithInterval in Hget. by rewrite Hlimit in Hget. }
  destruct (getKlines w (Normalize symbol) (selectInterval scan) limit)
    as [klinesIntraday|err] eqn:Hi.
  2:{ unfold GetWithInterval in Hget. rewrite Hlimit in Hget. simpl in Hget.
      by rewrite Hi in Hget. }
  destruct (getKlines w (Normalize symbol) "4h" 60) as [klines4h|err] eqn:H4.
  2:{ unfold GetWithInterval in Hget. rewrite Hlimit in Hget. simpl in Hget.
      by rewrite Hi, H4 in Hget. }
  rewrite (GetWithInterval_answered w symbol scan limit klinesIntraday klines4h)
    in Hget by done.
  destruct (last klinesIntraday) as [latest|] eqn:Hlast; [|done].
  simpl in Hget.
  destruct (priceChange1h klinesIntraday (Close latest) scan)
    as [change1h|] eqn:Hc; [|done].
  simpl in Hget. injection Hget as <-.
  by exists limit, klinesIntraday, klines4h, latest, change1h.
Qed.

(** X4. In a snapshot that [GetWithInterval] returns, the latest mid price
    is [CurrentPrice], and the latest point of the EMA20, MACD and RSI7
    series, whenever the series is not empty, is [CurrentEMA20],
    [CurrentMACD] and [CurrentRSI7]. *)
Theorem GetWithInterval_series_end (w : World F) symbol scan data :
  GetWithInterval w symbol scan = Some (Value data) →
  let series := IntradaySeries data in
  last (MidPrices series) = Some (CurrentPrice data)
  ∧ (EMA20Values series ≠ [] →
     last (EMA20Values series) = Some (CurrentEMA20 data))
  ∧ (MACDValues series ≠ [] →
     last (MACDValues series) = Some (CurrentMACD data))
  ∧ (RSI7Values series ≠ [] →
     last (RSI7Values series) = Some (CurrentRSI7 data)).
Proof.
  intros (limit & kI & k4 & latest & change1h & _ & _ & _ & Hlast & _ & ->)
    %GetWithInterval_Value.
  simpl. split; [by rewrite mid_prices_last, Hlast|].
  split; [|split]; intros Hlen%sample_nonempty; try lia.
  - rewrite sample_last by lia. unfold EMA.
    by destruct (decide _); [lia|].
  - rewrite sample_last by lia. unfold MACD.
    by destruct (decide _); [lia|].
  - rewrite sample_last by lia. unfold RSI.
    by destruct (decide _); [lia|].
Qed.

(** X5. In a snapshot that [GetWithInterval] returns for a symbol that
    is ASCII text, [Symbol] is the normalized symbol, ASCII text in
    upper case ending with USDT, and the [Interval] of the intraday
    series is the interval that [selectInterval] names for the scan
    interval: one of 1m, 3m, 5m, 15m, 30m and 1h, never the empty
    string. *)
Theorem GetWithInterval_labels (w : World F) symbol scan data :
  is_ascii symbol = true →
  GetWithInterval w symbol scan = Some (Value data) →
  Symbol data = Normalize symbol
  ∧ is_ascii (Symbol data) = true
  ∧ ToUpper (Symbol data) = Symbol data
  ∧ HasSuffix (Symbol data) "USDT" = true
  ∧ Interval (IntradaySeries data) = selectInterval scan
  ∧ Interval (IntradaySeries data) ∈ ["1m"; "3m"; "5m"; "15m"; "30m"; "1h"]
  ∧ Interval (IntradaySeries data) ≠ EmptyString.
Proof.
  intros Hascii
    (limit & kI & k4 & latest & change1h & _ & _ & _ & _ & _ & ->)
    %GetWithInterval_Value.
  cbn [Symbol IntradaySeries set_Interval Interval].
  split; [done|]. split; [by apply is_ascii_Normalize|].
  split; [apply ToUpper_Normalize|].
  split; [apply HasSuffix_Normalize|]. split; [done|].
  unfold selectInterval.
  repeat (destruct (decide _); [split; [rewrite !elem_of_cons; auto 10|done]|]).
  split; [rewrite !elem_of_cons; auto 10|done].
Qed.

Lemma mid_prices_length (klines : list (Kline F)) :
  len (mid_prices klines) = Z.min 10 (len klines).
Proof. unfold mid_prices, len. rewrite length_fmap, length_drop. lia. Qed.

(** X6. [calculateIntradaySeries] and [calculateLongerTermData] return on
    every sequence.  On [N] candles the mid prices hold [min(10, N)]
    points, and a series gated at index [g] holds
    [max(0, min(10, N - g))] points, [g] being 19 for EMA20, 25 for
    MACD, 7 for RSI7 and 14 for RSI14.  From 35 candles on, every
    series holds 10 points. *)
Theorem series_lengths (klines : list (Kline F)) :
  ∃ intraday longer,
    calculateIntradaySeries klines = Some intraday
    ∧ calculateLongerTermData klines = Some longer
    ∧ len (MidPrices intraday) = Z.min 10 (len klines)
    ∧ len (EMA20Values intraday) = Z.max 0 (Z.min 10 (len klines - 19))
    ∧ len (MACDValues intraday) = Z.max 0 (Z.min 10 (len klines - 25))
    ∧ len (RSI7Values intraday) = Z.max 0 (Z.min 10 (len klines - 7))
    ∧ len (RSI14Values intraday) = Z.max 0 (Z.min 10 (len klines - 14))
    ∧ len (LongerTerm.MACDValues longer)
      = Z.max 0 (Z.min 10 (len klines - 25))
    ∧ len (LongerTerm.RSI14Values longer)
      = Z.max 0 (Z.min 10 (len klines - 14))
    ∧ (35 ≤ len klines →
       Forall (λ series, len series = 10)
         [MidPrices intraday; EMA20Values intraday; MACDValues intraday;
          RSI7Values intraday; RSI14Values intraday;
          LongerTerm.MACDValues longer; LongerTerm.RSI14Values longer]).
Proof.
  exists (intraday_spec klines), (longer_term_spec klines).
  split; [apply calculateIntradaySeries_spec|].
  split; [apply calculateLongerTermData_spec|]. simpl.
  rewrite mid_prices_length, !sample_length by lia.
  repeat split; try done. intros Hlen.
  repeat constructor;
    rewrite ?mid_prices_length, ?sample_length by lia; lia.
Qed.

End Aggregator.

Lemma GetWithInterval_labels_witness :
  ∃ data,
    GetWithInterval (sample_world jump_candles two_4h_candles) "btc" 3
    = Some (Value data)
    ∧ Symbol data = "BTCUSDT"
    ∧ Interval (IntradaySeries data) = "3m".
Proof.
  destruct (GetWithInterval_snapshot
              (sample_world jump_candles two_4h_candles) "btc" 3
              jump_candles two_4h_candles)
    as (latest & Hlast & Hget); [lia|reflexivity|reflexivity|discriminate|].
  eexists. split; [exact Hget|].
  destruct (GetWithInterval_labels _ "btc" _ _ eq_refl Hget)
    as (Hsym & _ & _ & _ & Hint & _).
  split; [exact Hsym|exact Hint].
Defined.

Lemma GetWithInterval_symbol_spelling_witness :
  is_ascii "btc" = true
  ∧ GetWithInterval (sample_world jump_candles two_4h_candles) "BTCUSDT" 3
    = GetWithInterval (sample_world jump_candles two_4h_candles) "btc" 3
  ∧ GetWithInterval (sample_world jump_candles two_4h_candles) "btcusdt" 3
    = GetWithInterval (sample_world jump_candles two_4h_candles) "btc" 3.
Proof.
  destruct (GetWithInterval_symbol_spelling
              (sample_world jump_candles two_4h_candles) "btc" 3 eq_refl)
    as (Hnorm & _ & Hsuffix & _).
  split; [reflexivity|]. split; [exact Hnorm|].
  exact (proj2 (Hsuffix eq_refl)).
Defined.

Lemma GetWithInterval_series_end_witness :
  ∃ data,
    GetWithInterval (sample_world jump_candles two_4h_candles) "btc" 3
    = Some (Value data)
    ∧ last (MidPrices (IntradaySeries data)) = Some (CurrentPrice data)
    ∧ last (EMA20Values (IntradaySeries data)) = Some (CurrentEMA20 data).
Proof.
  destruct (GetWithInterval_snapshot
              (sample_world jump_candles two_4h_candles) "btc" 3
              jump_candles two_4h_candles)
    as (latest & Hlast & Hget); [lia|reflexivity|reflexivity|discriminate|].
  eexists. split; [exact Hget|].
  destruct (GetWithInterval_series_end _ _ _ _ Hget) as (Hmid & Hema & _).
  split; [exact Hmid|]. apply Hema.
  intros Hnil%(f_equal length). by vm_compute in Hnil.
Defined.

(** The interval and the lookback of one hour, in candles, for each
    scan interval; the candle limit exceeds the lookback. *)
Lemma lookback_bars scan :
  1 ≤ scan →
  0 ≤ 60 / scan < Z.max 40 (120 / scan)
  ∧ (scan = 1 → selectInterval scan = "1m" ∧ 60 / scan = 60)
  ∧ (scan = 2 → selectInterval scan = "3m" ∧ 60 / scan = 30)
  ∧ (scan = 3 → selectInterval scan = "3m" ∧ 60 / scan = 20)
  ∧ (scan = 4 → selectInterval scan = "5m" ∧ 60 / scan = 15)
  ∧ (scan = 5 → selectInterval scan = "5m" ∧ 60 / scan = 12)
  ∧ (6 ≤ scan ≤ 15 → selectInterval scan = "15m" ∧ 4 ≤ 60 / scan ≤ 10)
  ∧ (scan = 6 → 60 / scan = 10)
  ∧ (scan = 10 → 60 / scan = 6)
  ∧ (scan = 15 → 60 / scan = 4)
  ∧ (16 ≤ scan ≤ 30 → selectInterval scan = "30m" ∧ 2 ≤ 60 / scan ≤ 3)
  ∧ (31 ≤ scan ≤ 60 → selectInterval scan = "1h" ∧ 60 / scan = 1)
  ∧ (60 < scan → selectInterval scan = "1h" ∧ 60 / scan = 0).
Proof.
  intros Hscan. destruct (decide (scan ≤ 60)) as [Hle|Hgt].
  - assert (scan ∈ seqZ 1 60) as Hin by (apply elem_of_seqZ; lia).
    vm_compute (seqZ 1 60) in Hin.
    repeat (apply elem_of_cons in Hin as [->|Hin]);
      try (by apply elem_of_nil in Hin);
      (split; [by vm_compute|]);
      repeat split; first [lia|reflexivity|by vm_compute].
  - rewrite Z.div_small by lia.
    assert (selectInterval scan = "1h") as ->.
    { unfold selectInterval. by repeat (destruct (decide _); [lia|]). }
    repeat split; lia.
Qed.

(** X7. In a snapshot that [GetWithInterval] returns for a scan interval
    of at least 1, [PriceChange1h] is measured against the candle
    [60/scan] candles before the latest one, among candles of the
    interval [selectInterval scan], the one the snapshot records: 60
    candles of 1m for the scan interval 1; 30 and 20 candles of 3m for
    2 and 3; 15 and 12 candles of 5m for 4 and 5; between 10 (for 6)
    and 4 (for 15) candles of 15m for 6..15, 6 of them for 10; 3 or 2
    candles of 30m for 16..30; 1 candle of 1h for 31..60; and no
    candle, the latest close against itself, above 60.  The number of
    candles asked from the provider always exceeds the lookback; when
    the provider returns no more candles than the lookback, the change
    is 0. *)
Theorem one_hour_lookback {F} `{Float64 F} (w : World F) symbol scan data :
  1 ≤ scan →
  GetWithInterval w symbol scan = Some (Value data) →
  ∃ limit bars klinesIntraday latest,
    let interval := Interval (IntradaySeries data) in
    calculateIntradayLimit scan = Some limit
    ∧ int_div 60 scan = Some bars
    ∧ getKlines w (Normalize symbol) interval limit = Value klinesIntraday
    ∧ at_index klinesIntraday (len klinesIntraday - 1) = Some latest
    ∧ CurrentPrice data = Close latest
    ∧ 0 ≤ bars < limit
    ∧ (bars < len klinesIntraday →
       ∃ past,
         at_index klinesIntraday (len klinesIntraday - 1 - bars) = Some past
         ∧ PriceChange1h data
           = if fgt (Close past) F0
             then ((Close latest - Close past) / Close past * F100)%F
             else F0)
    ∧ (len klinesIntraday ≤ bars → PriceChange1h data = F0)
    ∧ (scan = 1 → interval = "1m" ∧ bars = 60)
    ∧ (scan = 2 → interval = "3m" ∧ bars = 30)
    ∧ (scan = 3 → interval = "3m" ∧ bars = 20)
    ∧ (scan = 4 → interval = "5m" ∧ bars = 15)
    ∧ (scan = 5 → interval = "5m" ∧ bars = 12)
    ∧ (6 ≤ scan ≤ 15 → interval = "15m" ∧ 4 ≤ bars ≤ 10)
    ∧ (scan = 6 → bars = 10)
    ∧ (scan = 10 → bars = 6)
    ∧ (scan = 15 → bars = 4)
    ∧ (16 ≤ scan ≤ 30 → interval = "30m" ∧ 2 ≤ bars ≤ 3)
    ∧ (31 ≤ scan ≤ 60 → interval = "1h" ∧ bars = 1)
    ∧ (60 < scan → interval = "1h" ∧ bars = 0).
Proof.
  intros Hscan
    (limit & kI & k4 & latest & change1h & Hlimit & Hi & _ & Hlast & Hchange
     & ->)%GetWithInterval_Value.
  cbn [IntradaySeries set_Interval Interval CurrentPrice PriceChange1h].
  rewrite priceChange1h_spec in Hchange by done. injection Hchange as <-.
  pose proof Hlimit as Hl. rewrite calculateIntradayLimit_spec in Hl by done.
  injection Hl as <-. unfold intraday_limit.
  pose proof (lookback_bars scan Hscan) as (Hbars & Htable).
  exists (Z.max 40 (120 / scan)), (60 / scan), kI, latest. cbv zeta.
  split; [done|]. split.
  { unfold int_div. destruct (decide _); [lia|].
    by rewrite Z.quot_div_nonneg by lia. }
  split; [done|]. split; [by rewrite at_index_last|]. split; [done|].
  split; [done|]. split; [|split; [|exact Htable]].
  - intros Hlen.
    destruct (price_change_enough kI (Z.to_nat (60 / scan)) (Close latest))
      as (past & Hpast & _ & ->); [unfold len in Hlen; lia|].
    exists past. rewrite Z2Nat.id in Hpast by lia. done.
  - intros Hlen. apply price_change_short. unfold len in Hlen. lia.
Qed.

Lemma one_hour_lookback_witness :
  ∃ data,
    GetWithInterval (sample_world jump_candles two_4h_candles) "btc" 6
    = Some (Value data)
    ∧ Interval (IntradaySeries data) = "15m"
    ∧ at_index jump_candles (len jump_candles - 1 - 10) = Some (candle_at 100)
    ∧ PriceChange1h data = 10%float.
Proof.
  destruct (GetWithInterval_snapshot
              (sample_world jump_candles two_4h_candles) "btc" 6
              jump_candles two_4h_candles)
    as (latest' & Hlast' & Hget); [lia|reflexivity|reflexivity|discriminate|].
  eexists. split; [exact Hget|].
  destruct (one_hour_lookback _ "btc" 6 _ ltac:(lia) Hget)
    as (limit & bars & kI & latest & _ & Hbars & HkI & Hlast & _ & _ & Hpast
        & _ & _ & _ & _ & _ & _ & H15 & _).
  injection Hbars as <-. destruct H15 as [Hinterval _]; [lia|].
  rewrite Hinterval in HkI. injection HkI as <-.
  injection Hlast as <-.
  destruct Hpast as (past & Hpast & Hchange); [by vm_compute|].
  injection Hpast as <-.
  split; [exact Hinterval|]. split; [reflexivity|]. exact Hchange.
Defined.

(** ** The ATR in arithmetic without rounding *)

Section ExactIndicators.
Local Open Scope Q_scope.

Lemma exact_true_range_nonneg (prev cur : Kline Q) : 0 <= true_range prev cur.
Proof.
  change (0 <= Qmax (High cur - Low cur)
                    (Qmax (Qabs (High cur - Close prev))
                          (Qabs (Low cur - Close prev)))).
  pose proof (Qabs_nonneg (High cur - Close prev)).
  pose proof (Q.le_max_r (High cur - Low cur)
                (Qmax (Qabs (High cur - Close prev))
                      (Qabs (Low cur - Close prev)))).
  pose proof (Q.le_max_l (Qabs (High cur - Close prev))
                (Qabs (Low cur - Close prev))).
  lra.
Qed.

Lemma exact_true_ranges_nonneg (klines : list (Kline Q)) :
  Forall (λ tr, 0 <= tr) (true_ranges klines).
Proof.
  unfold true_ranges. generalize (tail klines).
  induction klines as [|k ks IH]; intros [|c cs]; simpl; try constructor.
  - apply exact_true_range_nonneg.
  - apply IH.
Qed.

Lemma exact_sum_nonneg (xs : list Q) (acc : Q) :
  Forall (λ x, 0 <= x) xs → acc <= foldl Qplus acc xs.
Proof.
  intros Hxs. revert acc. induction Hxs as [|x xs Hx _ IH]; intros acc; simpl.
  - lra.
  - pose proof (IH (acc + x)). lra.
Qed.

Lemma exact_atr_nonneg (klines : list (Kline Q)) (period : nat) :
  (1 ≤ period)%nat →
  ∃ atr, calculateATR klines (Z.of_nat period) = Some atr ∧ 0 <= atr.
Proof.
  intros Hp. exists (ATR klines period). split; [apply calculateATR_spec|].
  unfold ATR. destruct (decide _); [done|]. unfold atr_spec. cbv zeta.
  pose proof (exact_true_ranges_nonneg klines) as Htrs.
  assert (0 <= (sum_list (take period (true_ranges klines))
                / of_int (Z.of_nat period))%F) as Hseed.
  { pose proof (exact_period_pos period Hp) as Hpos.
    pose proof (exact_sum_nonneg (take period (true_ranges klines)) 0
                  (Forall_take _ _ _ Htrs)) as Hsum.
    apply Qle_shift_div_l; [exact Hpos|]. rewrite Qmult_0_l. exact Hsum. }
  assert (Forall (λ tr, 0 <= tr) (drop period (true_ranges klines))) as Hrest
    by (by apply Forall_drop).
  revert Hseed.
  generalize (sum_list (take period (true_ranges klines))
              / of_int (Z.of_nat period))%F.
  induction Hrest as [|tr trs Htr _ IH]; intros atr Hatr; [exact Hatr|].
  cbn [foldl]. apply IH. by apply exact_wilder_nonneg.
Qed.

End ExactIndicators.

(** ** The indicators on binary64 *)

Section Binary64Indicators.

Lemma nonneg_abs x : nonneg_float (abs x).
Proof.
  unfold nonneg_float. rewrite abs_spec. by destruct (Prim2SF x) as [[]|[]| |[]].
Qed.

(** The sign of a zero, as [math.Signbit] reads it. *)
Lemma get_sign_zero x s : Prim2SF x = S754_zero s → get_sign x = s.
Proof.
  intros Hx. unfold get_sign, is_zero.
  rewrite FloatAxioms.eqb_spec, Hx.
  change (Prim2SF PrimFloat.zero) with (S754_zero false). cbn [SFeqb SFcompare].
  rewrite ltb_spec, div_spec, Hx.
  change (Prim2SF PrimFloat.one) with (S754_finite false 4503599627370496 (-52)).
  change (Prim2SF PrimFloat.zero) with (S754_zero false).
  by destruct s.
Qed.

Lemma nonneg_math_Max x y : nonneg_float y → nonneg_float (IEEE.math_Max x y).
Proof.
  intros Hy. unfold IEEE.math_Max.
  destruct (_ || _); [done|]. destruct (_ || _); [done|].
  destruct (PrimFloat.eqb x 0 && PrimFloat.eqb x y) eqn:Hzero.
  - destruct (get_sign x) eqn:Hsign; [done|].
    apply andb_true_iff in Hzero as [Hx _].
    rewrite FloatAxioms.eqb_spec in Hx.
    change (Prim2SF 0) with (S754_zero false) in Hx.
    unfold nonneg_float.
    destruct (Prim2SF x) as [s| | |] eqn:HX; try done.
    + apply get_sign_zero in HX. by rewrite <- HX, Hsign.
    + by destruct s.
    + by destruct s.
  - destruct (PrimFloat.ltb y x) eqn:Hlt; [|done].
    rewrite ltb_spec in Hlt. unfold nonneg_float in *.
    by destruct (Prim2SF x) as [[]|[]| |[]], (Prim2SF y) as [[]|[]| |[]].
Qed.

Lemma nonneg_true_range (prev cur : Kline float) :
  nonneg_float (true_range prev cur).
Proof. unfold true_range. apply nonneg_math_Max, nonneg_math_Max, nonneg_abs. Qed.

Lemma nonneg_true_ranges (klines : list (Kline float)) :
  Forall nonneg_float (true_ranges klines).
Proof.
  unfold true_ranges. generalize (tail klines).
  induction klines as [|k ks IH]; intros [|c cs]; simpl; try constructor.
  - apply nonneg_true_range.
  - apply IH.
Qed.

Lemma nonneg_sum (xs : list float) acc :
  nonneg_float acc → Forall nonneg_float xs → nonneg_float (foldl fadd acc xs).
Proof.
  intros Hacc Hxs. revert acc Hacc.
  induction Hxs as [|x xs Hx _ IH]; intros acc Hacc; [done|].
  cbn [foldl]. apply IH, nonneg_add; [done|by apply nonneg_not_negative].
Qed.

Lemma nonneg_zero : nonneg_float F0.
Proof. by apply nonneg_of_int. Qed.

(** A float that is not negative is NaN or at least 0. *)
Lemma nonneg_float_cases x :
  nonneg_float x → is_nan x = true ∨ PrimFloat.leb 0 x = true.
Proof.
  unfold nonneg_float, is_nan. rewrite FloatAxioms.eqb_spec, leb_spec.
  change (Prim2SF 0) with (S754_zero false).
  destruct (Prim2SF x) as [[]|[]| |[] m e]; try done; intros _; auto.
Qed.

Lemma nonneg_atr (klines : list (Kline float)) (period : nat) :
  (1 ≤ period)%nat → nonneg_float (ATR klines period).
Proof.
  intros Hp. unfold ATR. destruct (decide _); [apply nonneg_zero|].
  unfold atr_spec. cbv zeta.
  pose proof (nonneg_true_ranges klines) as Htrs.
  assert (nonneg_float (sum_list (take period (true_ranges klines))
                        / of_int (Z.of_nat period))%F) as Hseed.
  { apply nonneg_div; [|apply nonneg_of_int; lia].
    apply nonneg_sum; [apply nonneg_zero|by apply Forall_take]. }
  assert (Forall nonneg_float (drop period (true_ranges klines))) as Hrest
    by (by apply Forall_drop).
  revert Hseed.
  generalize (sum_list (take period (true_ranges klines))
              / of_int (Z.of_nat period))%F.
  induction Hrest as [|tr trs Htr _ IH]; intros atr Hatr; [exact Hatr|].
  cbn [foldl]. apply IH, nonneg_wilder; [done..|by apply nonneg_not_negative].
Qed.

(** X12. For a period of at least 1, [calculateATR] returns on every
    sequence and the ATR is not negative: at least 0 in arithmetic
    without rounding; NaN or at least 0 on binary64, whatever the
    candles hold. *)
Theorem calculateATR_not_negative :
  (∀ (klines : list (Kline Q)) (period : nat),
     (1 ≤ period)%nat →
     ∃ atr, calculateATR klines (Z.of_nat period) = Some atr ∧ (0 <= atr)%Q)
  ∧ (∀ (klines : list (Kline float)) (period : nat),
       (1 ≤ period)%nat →
       ∃ atr, calculateATR klines (Z.of_nat period) = Some atr
              ∧ (is_nan atr = true ∨ PrimFloat.leb 0 atr = true)).
Proof.
  split; [apply exact_atr_nonneg|].
  intros klines period Hp. exists (ATR klines period).
  split; [apply calculateATR_spec|]. by apply nonneg_float_cases, nonneg_atr.
Qed.

(** ** RSI on flat closes *)

(** A finite float is a zero or a number. *)
Lemma is_finite_cases x :
  is_finite x = true →
  match Prim2SF x with
  | S754_zero _ | S754_finite _ _ _ => True
  | _ => False
  end.
Proof.
  unfold is_finite, is_nan, is_infinity.
  rewrite !FloatAxioms.eqb_spec, abs_spec.
  change (Prim2SF infinity) with (S754_infinity false).
  by destruct (Prim2SF x) as [[]|[]| |[] m e].
Qed.

(** A finite float less itself is [+0]. *)
Lemma sub_diag_finite x : is_finite x = true → (x - x)%float = 0%float.
Proof.
  intros Hx%is_finite_cases. apply Prim2SF_inj. rewrite sub_spec.
  change (Prim2SF 0) with (S754_zero false).
  destruct (Prim2SF x) as [[]| | |s m e]; try done.
  unfold SF64sub, SFsub. cbv zeta. by rewrite Z.sub_diag.
Qed.

(** [0 * y] and [0 / y] for [y] a positive number or zero. *)
Lemma zero_mul_finite y :
  (Prim2SF y = S754_zero false ∨ ∃ m e, Prim2SF y = S754_finite false m e) →
  (0 * y)%float = 0%float.
Proof.
  intros Hy. apply Prim2SF_inj. rewrite mul_spec.
  change (Prim2SF 0) with (S754_zero false).
  by destruct Hy as [->|(m & e & ->)].
Qed.

Lemma zero_div_positive y m e :
  Prim2SF y = S754_finite false m e → (0 / y)%float = 0%float.
Proof.
  intros Hy. apply Prim2SF_inj. rewrite div_spec, Hy. done.
Qed.

Lemma flat_sum_gains n gains :
  foldl (λ gains d, if fgt d F0 then (gains + d)%F else gains) gains
        (replicate n 0%float) = gains.
Proof. induction n as [|n IH]; [done|]. cbn [replicate foldl]. apply IH. Qed.

Lemma flat_sum_losses n :
  foldl (λ losses d, if fgt d F0 then losses else (losses + - d)%F) 0%float
        (replicate n 0%float) = 0%float.
Proof. induction n as [|n IH]; [done|]. cbn [replicate foldl]. apply IH. Qed.

Lemma flat_rsi_step (period : nat) :
  (1 ≤ period)%nat → Z.of_nat period < 2 ^ 63 →
  rsi_step period (0%float, 0%float) 0%float = (0%float, 0%float).
Proof.
  intros Hp Hint. unfold rsi_step.
  change (fgt 0%float F0) with false. cbn [fst snd].
  destruct (of_int_positive (Z.of_nat period) ltac:(lia)) as (m & e & Hperiod).
  pose proof (of_int_nonneg_finite (Z.of_nat period - 1) ltac:(lia)) as Hpred.
  unfold wilder_decay, wilder.
  change (fmul 0%float (of_int (Z.of_nat period - 1)))
    with (0 * of_int (Z.of_nat period - 1))%float.
  rewrite (zero_mul_finite _ Hpred).
  change (fadd 0%float (fneg 0%float)) with 0%float.
  change (fdiv 0%float (of_int (Z.of_nat period)))
    with (0 / of_int (Z.of_nat period))%float.
  by rewrite (zero_div_positive _ m e Hperiod).
Qed.

Lemma flat_deltas (klines : list (Kline float)) c :
  is_finite c = true → Forall (λ k, Close k = c) klines →
  deltas klines = replicate (length klines - 1) 0%float.
Proof.
  intros Hc. unfold deltas.
  induction klines as [|k [|k' ks] IH]; intros Hks; [done..|].
  apply Forall_cons in Hks as [Hk Hks]. specialize (IH Hks).
  pose proof Hks as [Hk' _]%Forall_cons.
  cbn [tail] in IH |- *.
  match goal with
  | |- context [zip_with ?f (k :: k' :: ks) (k' :: ks)] =>
      change (zip_with f (k :: k' :: ks) (k' :: ks))
        with (f k k' :: zip_with f (k' :: ks) ks)
  end.
  rewrite IH, Hk, Hk'.
  change (fsub c c) with (c - c)%float. rewrite sub_diag_finite by done.
  simpl length. replace (S (S (length ks)) - 1)%nat with (S (length ks - 0))
    by lia.
  replace (S (length ks) - 1)%nat with (length ks - 0)%nat by lia. done.
Qed.

(** X13. On binary64, for a period of at least 1 (an int) and more candles
    than the period: when all the closes are one finite number, the RSI
    is exactly 100. *)
Theorem calculateRSI_flat (klines : list (Kline float)) (period : nat) c :
  (1 ≤ period < length klines)%nat → Z.of_nat period < 2 ^ 63 →
  is_finite c = true → Forall (λ k, Close k = c) klines →
  calculateRSI klines (Z.of_nat period) = Some 100%float.
Proof.
  intros Hp Hint Hc Hks. rewrite calculateRSI_spec. f_equal.
  unfold RSI, len. destruct (decide _); [lia|].
  unfold rsi_spec, rsi_averages, rsi_seed. cbv zeta.
  rewrite (flat_deltas klines c) by done.
  rewrite take_replicate, drop_replicate. unfold sum_gains, sum_losses.
  rewrite flat_sum_gains. change F0 with 0%float at 2.
  rewrite flat_sum_losses.
  destruct (of_int_positive (Z.of_nat period) ltac:(lia)) as (m & e & Hperiod).
  change (fdiv F0 (of_int (Z.of_nat period)))
    with (0 / of_int (Z.of_nat period))%float.
  change (fdiv 0%float (of_int (Z.of_nat period)))
    with (0 / of_int (Z.of_nat period))%float.
  rewrite (zero_div_positive _ m e Hperiod).
  assert (∀ j, foldl (rsi_step period) (0%float, 0%float) (replicate j 0%float)
               = (0%float, 0%float)) as ->.
  { intros j. induction j as [|j IH]; [done|]. cbn [replicate foldl].
    rewrite flat_rsi_step by lia. apply IH. }
  reflexivity.
Qed.

(** ** RSI on closes that never rise *)

Lemma falling_sum_gains (ds : list float) gains :
  Forall (λ d, fgt d F0 = false) ds →
  foldl (λ gains d, if fgt d F0 then (gains + d)%F else gains) gains ds
  = gains.
Proof.
  intros Hds. revert gains.
  induction Hds as [|d ds Hd _ IH]; intros gains; [done|].
  cbn [foldl]. rewrite Hd. apply IH.
Qed.

Lemma zero_decay (period : nat) :
  (1 ≤ period)%nat → Z.of_nat period < 2 ^ 63 →
  wilder_decay period 0%float = 0%float.
Proof.
  intros Hp Hint. unfold wilder_decay.
  destruct (of_int_positive (Z.of_nat period) ltac:(lia)) as (m & e & Hperiod).
  pose proof (of_int_nonneg_finite (Z.of_nat period - 1) ltac:(lia)) as Hpred.
  change (fmul 0%float (of_int (Z.of_nat period - 1)))
    with (0 * of_int (Z.of_nat period - 1))%float.
  rewrite (zero_mul_finite _ Hpred).
  change (fdiv 0%float (of_int (Z.of_nat period)))
    with (0 / of_int (Z.of_nat period))%float.
  by rewrite (zero_div_positive _ m e Hperiod).
Qed.

Lemma falling_averages (klines : list (Kline float)) (period : nat) :
  (1 ≤ period)%nat → Z.of_nat period < 2 ^ 63 →
  Forall (λ d, fgt d F0 = false) (deltas klines) →
  (rsi_averages klines period).1 = 0%float.
Proof.
  intros Hp Hint Hds. unfold rsi_averages.
  assert ((rsi_seed klines period).1 = 0%float) as Hseed.
  { unfold rsi_seed, sum_gains. cbv zeta. cbn [fst].
    rewrite falling_sum_gains by (by apply Forall_take).
    destruct (of_int_positive (Z.of_nat period) ltac:(lia))
      as (m & e & Hperiod).
    change (fdiv F0 (of_int (Z.of_nat period)))
      with (0 / of_int (Z.of_nat period))%float.
    by rewrite (zero_div_positive _ m e Hperiod). }
  assert (Forall (λ d, fgt d F0 = false) (drop period (deltas klines)))
    as Hrest by (by apply Forall_drop).
  revert Hseed. generalize (rsi_seed klines period).
  induction Hrest as [|d ds Hd _ IH]; intros avgs Hg; [done|].
  cbn [foldl]. apply IH. unfold rsi_step. rewrite Hd. cbn [fst].
  rewrite Hg. by apply zero_decay.
Qed.

(** [100 - 100/(1 + 0/l)] for an average loss [l] that is not zero and
    has no sign bit. *)
Lemma rsi_no_gain (avgLoss : float) :
  nonneg_float avgLoss → feq avgLoss F0 = false →
  (is_nan avgLoss = true
   ∧ is_nan (100 - 100 / (1 + 0 / avgLoss))%float = true)
  ∨ (is_nan avgLoss = false
     ∧ (100 - 100 / (1 + 0 / avgLoss))%float = 0%float).
Proof.
  unfold nonneg_float. intros Hl Hne.
  destruct (is_nan avgLoss) eqn:Hnan.
  { left. apply is_nan_nan in Hnan. rewrite Hnan. split; reflexivity. }
  right. split; [done|].
  assert (0 / avgLoss = 0)%float as ->; [|reflexivity].
  assert (Prim2SF avgLoss ≠ S754_nan) as Hnot.
  { intros Hx%is_nan_spec. congruence. }
  assert (¬ signed_zero avgLoss) as Hnz.
  { intros Hz%feq_zero. congruence. }
  unfold signed_zero in Hnz. apply Prim2SF_inj. rewrite div_spec.
  change (Prim2SF 0) with (S754_zero false).
  by destruct (Prim2SF avgLoss) as [[]|[]| |[] m e].
Qed.

(** X10. On binary64, for a period of at least 1 (an int) and more
    candles than the period: when no close is above the one before it,
    avgGain is 0 and the RSI is 0, unless the final avgLoss is 0, where
    it is 100 (all the closes equal, or losses so small that their
    average underflows), or NaN, where it is NaN. *)
Theorem calculateRSI_falling (klines : list (Kline float)) (period : nat) :
  (1 ≤ period < length klines)%nat → Z.of_nat period < 2 ^ 63 →
  Forall (λ d, fgt d F0 = false) (deltas klines) →
  ∃ rsi avgLoss,
    calculateRSI klines (Z.of_nat period) = Some rsi
    ∧ rsi_averages klines period = (0%float, avgLoss)
    ∧ (feq avgLoss F0 = true → rsi = 100%float)
    ∧ (is_nan avgLoss = true → is_nan rsi = true)
    ∧ (feq avgLoss F0 = false → is_nan avgLoss = false → rsi = 0%float).
Proof.
  intros Hp Hint Hds.
  pose proof (falling_averages klines period ltac:(lia) Hint Hds) as Hgain.
  destruct (nonneg_rsi_averages klines period ltac:(lia)) as [_ Hl].
  pose proof (calculateRSI_spec klines period) as Hrsi.
  unfold RSI, rsi_spec, rsi_of_averages, len in Hrsi.
  destruct (decide _) in Hrsi; [lia|].
  destruct (rsi_averages klines period) as [avgGain avgLoss].
  cbn [fst snd] in *. subst avgGain.
  eexists _, avgLoss. split; [exact Hrsi|]. split; [done|].
  destruct (feq avgLoss F0) eqn:Heq.
  - split; [done|]. split; [|done].
    intros Hnan%is_nan_spec. apply feq_zero in Heq.
    unfold signed_zero in Heq. by rewrite Hnan in Heq.
  - destruct (rsi_no_gain avgLoss Hl Heq) as [[Hnan Hr]|[Hnan Hr]].
    + split; [done|]. split; [done|]. congruence.
    + split; [done|]. split; [congruence|done].
Qed.

(** ** Volumes of the longer-term context *)

Lemma not_negative_leb x : PrimFloat.leb 0 x = true → not_negative x.
Proof.
  unfold not_negative. rewrite leb_spec.
  change (Prim2SF 0) with (S754_zero false).
  by destruct (Prim2SF x) as [[]|[]| |[] m e].
Qed.

Lemma nonneg_sum_volumes (xs : list float) acc :
  nonneg_float acc → Forall not_negative xs → nonneg_float (foldl fadd acc xs).
Proof.
  intros Hacc Hxs. revert acc Hacc.
  induction Hxs as [|x xs Hx _ IH]; intros acc Hacc; [done|].
  cbn [foldl]. by apply IH, nonneg_add.
Qed.

(** X11. On a sequence that is not empty, [CurrentVolume] is the volume
    of the latest candle, in every arithmetic; on binary64, when no
    volume is negative or NaN, [AverageVolume] is NaN or at least 0. *)
Theorem calculateLongerTermData_volumes :
  (∀ (F : Type) (ops : Float64 F) (klines : list (Kline F)) latest,
     last klines = Some latest →
     ∃ data, calculateLongerTermData klines = Some data
             ∧ LongerTerm.CurrentVolume data = Volume latest
             ∧ LongerTerm.AverageVolume data
               = (foldl (λ sum k, sum + Volume k) F0 klines
                  / of_int (len klines))%F)
  ∧ (∀ (klines : list (Kline float)),
       Forall (λ k, PrimFloat.leb 0 (Volume k) = true) klines →
       ∃ data, calculateLongerTermData klines = Some data
               ∧ (is_nan (LongerTerm.AverageVolume data) = true
                  ∨ PrimFloat.leb 0 (LongerTerm.AverageVolume data) = true)).
Proof.
  split.
  - intros F ops klines latest Hlast. exists (longer_term_spec klines).
    split; [apply calculateLongerTermData_spec|]. simpl.
    split; [unfold current_volume; by rewrite Hlast|].
    unfold average_volume. destruct klines as [|k ks]; [done|].
    unfold sum_list. by rewrite foldl_fmap.
  - intros klines Hks. exists (longer_term_spec klines).
    split; [apply calculateLongerTermData_spec|]. simpl.
    apply nonneg_float_cases. unfold average_volume.
    destruct klines as [|k ks]; [apply nonneg_zero|].
    apply nonneg_div; [|apply nonneg_of_int; unfold len; lia].
    apply nonneg_sum_volumes; [apply nonneg_zero|].
    apply Forall_fmap. eapply Forall_impl; [exact Hks|].
    intros k' Hk'. by apply not_negative_leb.
Qed.

End Binary64Indicators.

Lemma calculateATR_not_negative_witness :
  (∃ atr, calculateATR exact_candles 2 = Some atr ∧ (0 <= atr)%Q)
  ∧ (∃ atr, calculateATR jump_candles 14 = Some atr
            ∧ (is_nan atr = true ∨ PrimFloat.leb 0 atr = true)).
Proof.
  split.
  - apply (proj1 calculateATR_not_negative exact_candles 2%nat). lia.
  - apply (proj2 calculateATR_not_negative jump_candles 14%nat). lia.
Defined.

Lemma calculateRSI_flat_witness :
  calculateRSI flat_candles 7 = Some 100%float.
Proof.
  apply (calculateRSI_flat flat_candles 7%nat 100%float).
  - simpl. lia.
  - lia.
  - reflexivity.
  - repeat constructor.
Defined.

Lemma calculateRSI_falling_witness :
  calculateRSI falling_candles 2 = Some 0%float
  ∧ calculateRSI tiny_candles 2 = Some 100%float.
Proof.
  split.
  - destruct (calculateRSI_falling falling_candles 2)
      as (rsi & avgLoss & Hrsi & Havgs & _ & _ & Hzero);
      [simpl; lia|lia|repeat constructor|].
    change (Z.of_nat 2) with 2 in Hrsi.
    rewrite Hrsi. f_equal. vm_compute in Havgs. injection Havgs as <-.
    by apply Hzero.
  - destruct (calculateRSI_falling tiny_candles 2)
      as (rsi & avgLoss & Hrsi & Havgs & Hfull & _);
      [simpl; lia|lia|repeat constructor|].
    change (Z.of_nat 2) with 2 in Hrsi.
    rewrite Hrsi. f_equal. vm_compute in Havgs. injection Havgs as <-.
    by apply Hfull.
Defined.

Lemma calculateLongerTermData_volumes_witness :
  ∃ data, calculateLongerTermData falling_candles = Some data
          ∧ LongerTerm.CurrentVolume data = 4%float
          ∧ LongerTerm.AverageVolume data = 6.75%float.
Proof.
  destruct (proj1 calculateLongerTermData_volumes float _ falling_candles
              (mkKline 0 4 4 4 4 4 0)%float eq_refl)
    as (data & Hdata & Hcurrent & Haverage).
  exists data. split; [exact Hdata|]. split; [exact Hcurrent|].
  rewrite Haverage. reflexivity.
Defined.

(** ** The remote scalars and the price changes on binary64 *)

Section Binary64Snapshot.

(** [x * 0.999] is between 0 and [x] when [x] is at least 0. *)
Lemma mul_0_999_range (x : float) :
  PrimFloat.leb 0 x = true →
  PrimFloat.leb 0 (x * f0_999)%float = true
  ∧ PrimFloat.leb (x * f0_999)%float x = true.
Proof.
  rewrite !leb_spec, mul_spec. unfold SF64mul.
  change (Prim2SF 0) with (S754_zero false).
  change (Prim2SF f0_999) with (S754_finite false 8998192055486251 (-53)).
  pose proof (Prim2SF_valid x) as Hvalid.
  destruct (Prim2SF x) as [[]|[]| |[] mx ex]; try done.
  intros _. cbn [SFmul xorb].
  assert (SFleb (binary_round_aux prec emax false
                   (Z.pos (mx * 8998192055486251)) (ex + -53) loc_Exact)
                (S754_finite false mx ex) = true) as Hub.
  { apply round_aux_ub; [lia| |exact Hvalid|].
    - unfold wide. rewrite fexp64.
      assert (53 ≤ Zdigits2 (Z.pos (mx * 8998192055486251)))
        by (apply Zdigits2_ge; lia).
      lia.
    - left. rewrite Pos2Z.inj_mul, value_mul.
      pose proof (value_pos (Z.pos mx) ex ltac:(lia)) as Hx.
      assert (value 8998192055486251 (-53) < 1)%Q as Hrate by reflexivity.
      nra. }
  split; [|exact Hub].
  eapply nonneg_leb_zero; [apply binary_round_aux_nonneg|exact Hub].
Qed.

(** X14. On binary64, when [getOpenInterestData] returns a value whose
    [Latest] is at least 0, its [Average] is at least 0 and at most
    [Latest]. *)
Theorem getOpenInterestData_average (w : World float) symbol oi :
  getOpenInterestData w symbol = Value oi →
  PrimFloat.leb 0 (Latest oi) = true →
  PrimFloat.leb 0 (Average oi) = true
  ∧ PrimFloat.leb (Average oi) (Latest oi) = true.
Proof.
  unfold getOpenInterestData.
  destruct (openInterest w symbol) as [?|?|?|field]; try done.
  intros [= <-]. cbn [Latest Average]. apply mul_0_999_range.
Qed.

Lemma sub_diag_number x s m e :
  Prim2SF x = S754_finite s m e → (x - x)%float = 0%float.
Proof.
  intros Hx. apply Prim2SF_inj. rewrite sub_spec, Hx.
  unfold SF64sub, SFsub. cbv zeta. by rewrite Z.sub_diag.
Qed.

(** The change of a price against itself is 0, but for [+Inf]. *)
Lemma percent_change_diag (c : float) :
  PrimFloat.eqb c infinity = false → percent_change c c = 0%float.
Proof.
  intros Hinf. unfold percent_change. destruct (fgt c F0) eqn:Hgt; [|done].
  simpl in Hgt. rewrite ltb_spec in Hgt. rewrite FloatAxioms.eqb_spec in Hinf.
  change (Prim2SF (IEEE.float64_of_int 0)) with (S754_zero false) in Hgt.
  change (Prim2SF infinity) with (S754_infinity false) in Hinf.
  destruct (Prim2SF c) as [[]|[]| |[] m e] eqn:Hc; try done.
  change ((c - c) / c * 100 = 0)%float.
  rewrite (sub_diag_number c false m e Hc).
  by rewrite (zero_div_positive c m e Hc).
Qed.

Lemma priceChange1h_no_lookback {F} `{Float64 F} (klines : list (Kline F))
    latest scan :
  60 < scan → last klines = Some latest →
  priceChange1h klines (Close latest) scan
  = Some (percent_change (Close latest) (Close latest)).
Proof.
  intros Hscan Hlast. unfold priceChange1h, int_div.
  destruct (decide (scan = 0)); [lia|]. simpl.
  rewrite Z.quot_small by lia.
  assert (klines ≠ []) as Hne by (by intros ->).
  assert (1 ≤ len klines) by (unfold len; destruct klines; [done|simpl; lia]).
  destruct (decide _); [|lia].
  replace (len klines - 0 - 1) with (len klines - 1) by lia.
  rewrite at_index_last, Hlast. simpl. unfold percent_change.
  by destruct (fgt _ _).
Qed.

(** X15. On binary64, with a scan interval above 60 minutes the lookback of
    one hour is 0 candles, and the latest close is compared with
    itself: in every snapshot returned whose [CurrentPrice] is not +Inf,
    [PriceChange1h] is 0. *)
Theorem GetWithInterval_long_scan (w : World float) symbol scan data :
  60 < scan →
  GetWithInterval w symbol scan = Some (Value data) →
  PrimFloat.eqb (CurrentPrice data) infinity = false →
  PriceChange1h data = 0%float.
Proof.
  intros Hscan
    (limit & kI & k4 & latest & change1h & _ & _ & _ & Hlast & Hchange & ->)
    %GetWithInterval_Value. cbn [CurrentPrice PriceChange1h]. intros Hinf.
  rewrite (priceChange1h_no_lookback kI latest scan Hscan Hlast) in Hchange.
  injection Hchange as <-. by apply percent_change_diag.
Qed.

End Binary64Snapshot.

Lemma getOpenInterestData_average_witness :
  ∃ oi,
    getOpenInterestData
      (with_openInterest (sample_world [] []) (λ _, Decoded "0.0001")) "BTCUSDT"
    = Value oi
    ∧ PrimFloat.leb (Average oi) (Latest oi) = true.
Proof.
  eexists. split; [reflexivity|].
  refine (proj2 (getOpenInterestData_average
                   (with_openInterest (sample_world [] []) (λ _, Decoded "0.0001"))
                   "BTCUSDT" _ eq_refl _)).
  by vm_compute.
Defined.

Lemma GetWithInterval_long_scan_witness :
  ∃ data,
    GetWithInterval (sample_world jump_candles two_4h_candles) "btc" 90
    = Some (Value data)
    ∧ PriceChange1h data = 0%float.
Proof.
  destruct (GetWithInterval_snapshot
              (sample_world jump_candles two_4h_candles) "btc" 90
              jump_candles two_4h_candles)
    as (latest & Hlast & Hget); [lia|reflexivity|reflexivity|discriminate|].
  eexists. split; [exact Hget|].
  apply (GetWithInterval_long_scan
           (sample_world jump_candles two_4h_candles) "btc" 90 _
           ltac:(lia) Hget).
  injection Hlast as <-. by vm_compute.
Defined.

(** ** The floor of a price change on binary64 *)

Section PriceChangeFloor.

(** Rounding is symmetric in the sign. *)
Lemma binary_round_aux_opp mx ex lx :
  binary_round_aux prec emax true mx ex lx
  = SFopp (binary_round_aux prec emax false mx ex lx).
Proof.
  unfold binary_round_aux. destruct (shr_fexp _ _ _ _ _) as [mrs1 e1].
  destruct (shr_fexp _ _ _ _ _) as [mrs2 e2].
  destruct (shr_m mrs2); [done| |done]. by destruct (_ <=? _).
Qed.

Lemma binary_round_opp m e :
  binary_round prec emax true m e = SFopp (binary_round prec emax false m e).
Proof.
  unfold binary_round. destruct (shl_align _ _ _).
  apply binary_round_aux_opp.
Qed.

(** The order of two positive numbers is reversed on their opposites. *)
Lemma SFleb_opp m1 e1 m2 e2 :
  SFleb (S754_finite false m1 e1) (S754_finite false m2 e2) = true →
  SFleb (S754_finite true m2 e2) (S754_finite true m1 e1) = true.
Proof.
  unfold SFleb, SFcompare. rewrite (Z.compare_antisym e1 e2).
  destruct (e1 ?= e2); try done. simpl.
  change (Pos.compare_cont Eq m2 m1) with (Pos.compare_cont (CompOpp Eq) m2 m1).
  rewrite <- Pos.compare_cont_antisym.
  by destruct (Pos.compare_cont Eq m1 m2).
Qed.

(** For [0 < a <= b], the quotient [a / b] is at most 1. *)
Lemma SFdiv_le_one ma ea mb eb :
  (value (Z.pos ma) ea <= value (Z.pos mb) eb)%Q →
  SFleb (SFdiv prec emax (S754_finite false ma ea) (S754_finite false mb eb))
        (S754_finite false 4503599627370496 (-52)) = true.
Proof.
  intros Hle. unfold SFdiv.
  destruct (SFdiv_core_spec ma ea mb eb)
    as (q & e' & l & r & -> & Hq & Hwide & Hr & Hs & Heq & Hexact).
  simpl xorb.
  assert (value (Z.pos ma) ea
          == value q e' * value (Z.pos mb) eb + value r (eb + e'))%Q as Hval.
  { replace ea with (eb + e' + (ea - eb - e')) at 1 by lia.
    rewrite value_shift, Heq, value_add by lia.
    rewrite (Z.mul_comm (Z.pos mb)), (Z.add_comm eb e') at 1.
    by rewrite value_mul. }
  pose proof (value_nonneg q e' Hq) as HX.
  pose proof (value_pos (Z.pos mb) eb ltac:(lia)) as HB.
  pose proof (value_nonneg r (eb + e') ltac:(lia)) as HR.
  apply round_aux_ub; [done..|]. rewrite value_one.
  destruct (decide (r = 0)) as [->|Hne].
  - assert (value q e' <= 1)%Q as Hq1 by nra.
    apply Qle_lt_or_eq in Hq1 as [?|?]; auto.
  - left. pose proof (value_pos r (eb + e') ltac:(lia)). nra.
Qed.

(** For [0 <= t <= 1], the product [t * 100] is at most 100. *)
Lemma SFmul_hundred_ub mt et :
  (value (Z.pos mt) et <= 1)%Q →
  SFleb (binary_round_aux prec emax false (Z.pos (mt * 7036874417766400))
           (et + -46) loc_Exact)
        (S754_finite false 7036874417766400 (-46)) = true.
Proof.
  intros Hle. apply round_aux_ub; [lia| |done|].
  - unfold wide. rewrite fexp64.
    assert (53 ≤ Zdigits2 (Z.pos (mt * 7036874417766400)))
      by (apply Zdigits2_ge; lia).
    lia.
  - rewrite Pos2Z.inj_mul, value_mul.
    assert (value 7036874417766400 (-46) == 100)%Q as -> by reflexivity.
    apply Qle_lt_or_eq in Hle as [Hlt|Heq].
    + left. lra.
    + right. split; [|done]. rewrite Heq. reflexivity.
Qed.

Lemma SFdiv_opp_l ma ea mb eb :
  SFdiv prec emax (S754_finite true ma ea) (S754_finite false mb eb)
  = SFopp (SFdiv prec emax (S754_finite false ma ea) (S754_finite false mb eb)).
Proof.
  unfold SFdiv. destruct (SFdiv_core_binary _ _ _ _ _ _) as [[mz ez] lz].
  apply binary_round_aux_opp.
Qed.

Lemma SFdiv_nonneg ma ea mb eb :
  nonneg_or_nan
    (SFdiv prec emax (S754_finite false ma ea) (S754_finite false mb eb)).
Proof.
  unfold SFdiv. destruct (SFdiv_core_binary _ _ _ _ _ _) as [[mz ez] lz].
  apply binary_round_aux_nonneg.
Qed.

(** For [0 < t <= 1], the product [-t * 100] is at least -100. *)
Lemma neg_quotient_floor mt et :
  (value (Z.pos mt) et <= 1)%Q →
  SFleb (S754_finite true 7036874417766400 (-46))
        (SFmul prec emax (S754_finite true mt et)
               (S754_finite false 7036874417766400 (-46))) = true.
Proof.
  intros Hle. cbn [SFmul xorb]. rewrite binary_round_aux_opp.
  pose proof (SFmul_hundred_ub mt et Hle) as Hub.
  pose proof (binary_round_aux_nonneg (Z.pos (mt * 7036874417766400))
                (et + -46) loc_Exact) as Hsign.
  destruct (binary_round_aux prec emax false _ _ _) as [[]|[]| |[] mu eu];
    try done.
  by apply SFleb_opp.
Qed.

(** For [0 < d <= p], the float [-d / p * 100] is at least -100. *)
Lemma percent_of_negative (x p : float) md ed mp ep :
  Prim2SF x = S754_finite true md ed → Prim2SF p = S754_finite false mp ep →
  (value (Z.pos md) ed <= value (Z.pos mp) ep)%Q →
  PrimFloat.leb (-100) (x / p * 100)%float = true.
Proof.
  intros Hx Hp Hle. rewrite leb_spec, mul_spec.
  change (Prim2SF (-100)) with (S754_finite true 7036874417766400 (-46)).
  change (Prim2SF 100) with (S754_finite false 7036874417766400 (-46)).
  pose proof (Prim2SF_valid (x / p)) as Hvalid. rewrite div_spec in Hvalid |- *.
  rewrite Hx, Hp in Hvalid |- *. unfold SF64div, SF64mul in *.
  rewrite SFdiv_opp_l in Hvalid |- *.
  pose proof (SFdiv_le_one md ed mp ep Hle) as Hone.
  pose proof (SFdiv_nonneg md ed mp ep) as Hsign.
  destruct (SFdiv prec emax _ _) as [[]|[]| |[] mt et]; try done.
  apply neg_quotient_floor. rewrite <- value_one.
  by apply leb_value.
Qed.

Lemma not_negative_div_positive x p mp ep :
  not_negative x → Prim2SF p = S754_finite false mp ep →
  not_negative (x / p)%float.
Proof.
  unfold not_negative. rewrite div_spec. intros Hx ->. unfold SF64div.
  destruct (Prim2SF x) as [[]|[]| |[] mx ex]; try done.
  pose proof (SFdiv_nonneg mx ex mp ep) as Hsign.
  by destruct (SFdiv prec emax _ _) as [[]|[]| |[]].
Qed.

Lemma not_negative_mul_hundred x : not_negative x → not_negative (x * 100)%float.
Proof.
  unfold not_negative. rewrite mul_spec.
  change (Prim2SF 100) with (S754_finite false 7036874417766400 (-46)).
  unfold SF64mul. destruct (Prim2SF x) as [[]|[]| |[] mx ex]; try done.
  intros _. cbn [SFmul xorb].
  pose proof (binary_round_aux_nonneg (Z.pos (mx * 7036874417766400))
                (ex + -46) loc_Exact) as Hsign.
  by destruct (binary_round_aux prec emax false _ _ _) as [[]|[]| |[]].
Qed.

Lemma not_negative_floor x :
  not_negative x → is_nan x = true ∨ PrimFloat.leb (-100) x = true.
Proof.
  unfold not_negative, is_nan. rewrite FloatAxioms.eqb_spec, leb_spec.
  change (Prim2SF (-100)) with (S754_finite true 7036874417766400 (-46)).
  destruct (Prim2SF x) as [[]|[]| |[] m e]; try done; intros _; auto.
Qed.

Lemma nonneg_or_nan_not_negative x y :
  Prim2SF x = y → nonneg_or_nan y → not_negative x.
Proof. unfold not_negative. intros ->. by destruct y as [[]|[]| |[]]. Qed.

(** The floor of [(c - p) / p * 100] for [0 <= c] and [0 < p]. *)
Lemma percent_change_floor (c p : float) :
  PrimFloat.leb 0 c = true →
  is_nan (percent_change c p) = true
  ∨ PrimFloat.leb (-100) (percent_change c p) = true.
Proof.
  intros Hc. unfold percent_change. destruct (fgt p F0) eqn:Hp; [|by right].
  simpl in Hp. rewrite ltb_spec in Hp. rewrite leb_spec in Hc.
  change (Prim2SF (IEEE.float64_of_int 0)) with (S754_zero false) in Hp.
  change (Prim2SF 0) with (S754_zero false) in Hc.
  change (is_nan ((c - p) / p * 100)%float = true
          ∨ PrimFloat.leb (-100) ((c - p) / p * 100)%float = true).
  pose proof (Prim2SF_valid p) as Hvp. pose proof (Prim2SF_valid c) as Hvc.
  pose proof (Prim2SF_valid (c - p)) as Hvx.
  pose proof (sub_spec c p) as Hx. unfold SF64sub in Hx.
  destruct (Prim2SF p) as [[]|[]| |[] mp ep] eqn:HP; try done.
  - (* p = +Inf: NaN *)
    left. unfold is_nan. rewrite FloatAxioms.eqb_spec, mul_spec, div_spec, Hx, HP.
    by destruct (Prim2SF c) as [[]|[]| |[] mc ec].
  - destruct (Prim2SF c) as [s|[]| |[] mc ec] eqn:HC; try done.
    + (* c = 0 *)
      right. eapply (percent_of_negative (c - p) p mp ep mp ep); [|done|lra].
      rewrite Hx. by destruct s.
    + (* c = +Inf *)
      apply not_negative_floor, not_negative_mul_hundred.
      eapply not_negative_div_positive; [|exact HP].
      unfold not_negative. by rewrite Hx.
    + (* c a positive number *)
      unfold SFsub in Hx. cbv zeta in Hx. simpl cond_Zopp in Hx.
      pose proof (aligned_value mc ec (Z.min ec ep) ltac:(lia)) as Ha.
      pose proof (aligned_value mp ep (Z.min ec ep) ltac:(lia)) as Hb.
      set (a := (shl_align mc ec (Z.min ec ep)).1) in *.
      set (b := (shl_align mp ep (Z.min ec ep)).1) in *.
      destruct (Z.pos a - Z.pos b) as [|k|k] eqn:Hk; simpl binary_normalize in Hx.
      * apply not_negative_floor, not_negative_mul_hundred.
        eapply not_negative_div_positive; [|exact HP].
        unfold not_negative. by rewrite Hx.
      * apply not_negative_floor, not_negative_mul_hundred.
        eapply not_negative_div_positive; [|exact HP].
        eapply nonneg_or_nan_not_negative; [exact Hx|].
        apply binary_round_nonneg.
      * rewrite binary_round_opp in Hx.
        assert (SFleb (binary_round prec emax false k (Z.min ec ep))
                      (S754_finite false mp ep) = true) as Hub.
        { apply binary_round_ub; [done|]. rewrite <- Hb. apply value_le. lia. }
        pose proof (binary_round_nonneg k (Z.min ec ep)) as Hsign.
        rewrite Hx in Hvx.
        destruct (binary_round prec emax false k (Z.min ec ep))
          as [[]|[]| |[] md ed] eqn:HD; try done.
        -- apply not_negative_floor, not_negative_mul_hundred.
           eapply not_negative_div_positive; [|exact HP].
           unfold not_negative. by rewrite Hx.
        -- right. eapply (percent_of_negative (c - p) p md ed mp ep); [done..|].
           by apply leb_value.
Qed.

(** What [priceChange1h] returns is 0 or a change against a close. *)
Lemma priceChange1h_cases {F} `{Float64 F} (klines : list (Kline F))
    current scan change :
  priceChange1h klines current scan = Some change →
  change = F0 ∨ ∃ past, change = percent_change current (Close past).
Proof.
  unfold priceChange1h, int_div. destruct (decide (scan = 0)); [done|]. simpl.
  destruct (decide _); [|intros [= <-]; by left].
  destruct (at_index klines _) as [past|]; [|done]. simpl.
  intros Hchange. right. exists past. unfold percent_change.
  destruct (fgt (Close past) F0); by injection Hchange as <-.
Qed.

(** X16. On binary64, in every snapshot that [GetWithInterval] returns with
    a [CurrentPrice] of at least 0, [PriceChange1h] and [PriceChange4h]
    are NaN or at least -100 (percent), whatever the candles hold. *)
Theorem GetWithInterval_price_change_floor
    (w : World float) symbol scan data :
  GetWithInterval w symbol scan = Some (Value data) →
  PrimFloat.leb 0 (CurrentPrice data) = true →
  (is_nan (PriceChange1h data) = true
   ∨ PrimFloat.leb (-100) (PriceChange1h data) = true)
  ∧ (is_nan (PriceChange4h data) = true
     ∨ PrimFloat.leb (-100) (PriceChange4h data) = true).
Proof.
  intros (limit & kI & k4 & latest & change1h & _ & _ & _ & _ & Hchange & ->)
    %GetWithInterval_Value. cbn [CurrentPrice PriceChange1h PriceChange4h].
  intros Hcurrent. split.
  - apply priceChange1h_cases in Hchange as [->|[past ->]]; [by right|].
    by apply percent_change_floor.
  - unfold price_change. destruct (lookback k4 1) as [past|]; [|by right].
    by apply percent_change_floor.
Qed.

End PriceChangeFloor.

Lemma GetWithInterval_price_change_floor_witness :
  ∃ data,
    GetWithInterval (sample_world jump_candles two_4h_candles) "btc" 3
    = Some (Value data)
    ∧ (is_nan (PriceChange1h data) = true
       ∨ PrimFloat.leb (-100) (PriceChange1h data) = true)
    ∧ (is_nan (PriceChange4h data) = true
       ∨ PrimFloat.leb (-100) (PriceChange4h data) = true).
Proof.
  destruct (GetWithInterval_snapshot
              (sample_world jump_candles two_4h_candles) "btc" 3
              jump_candles two_4h_candles)
    as (latest & Hlast & Hget); [lia|reflexivity|reflexivity|discriminate|].
  eexists. split; [exact Hget|].
  apply (GetWithInterval_price_change_floor
           (sample_world jump_candles two_4h_candles) "btc" 3 _ Hget).
  injection Hlast as <-. by vm_compute.
Defined.

(** ** The candle fetch *)

Section WireTheorems.
Context {F : Type} `{Float64 F}.

(** A loop that fills the slots of [dst] from the entries of [src]. *)
Lemma fill_loop {A B} (src : list A) (g : A → option B) body (n lo : nat)
    (dst : list B) :
  (∀ i dst, body i dst = item ← at_index src i; v ← g item; set_index dst i v) →
  (lo + n = length src)%nat → length dst = length src →
  loop body (seqZ (Z.of_nat lo) (Z.of_nat n)) dst
  = vs ← mapM g (drop lo src); Some (take lo dst ++ vs).
Proof.
  intros Hbody. revert lo dst.
  induction n as [|n IH]; intros lo dst Hn Hdst.
  - simpl. rewrite drop_ge by lia. simpl. by rewrite take_ge, app_nil_r by lia.
  - rewrite seqZ_cons by lia. simpl.
    destruct (lookup_lt_is_Some_2 src lo) as [item Hitem]; [lia|].
    rewrite Hbody, at_index_lookup, Hitem. simpl.
    rewrite (drop_S src item lo) by done. simpl.
    destruct (g item) as [v|]; [|done]. simpl.
    unfold set_index. destruct (decide _) as [_|Hout]; [|unfold len in Hout; lia].
    simpl. rewrite Nat2Z.id.
    replace (Z.succ (Z.of_nat lo)) with (Z.of_nat (S lo)) by lia.
    replace (Z.pred (Z.of_nat (S n))) with (Z.of_nat n) by lia.
    rewrite IH by (rewrite ?length_insert; lia).
    destruct (mapM g (drop (S lo) src)) as [vs|]; [|done]. simpl. f_equal.
    rewrite (take_S_r _ lo v) by (apply list_lookup_insert_eq; lia).
    rewrite take_insert_ge by lia. by rewrite <- app_assoc.
Qed.

Lemma getKlines_decoded (e : Endpoint F) symbol interval limit rawData :
  klines_response e (Wire.klines_url symbol interval limit)
  = KlinesDecoded rawData →
  Wire.getKlines e symbol interval limit
  = klines ← mapM (kline_of_row e) rawData; Some (Value klines).
Proof.
  intros Hresponse. unfold Wire.getKlines. cbv zeta. rewrite Hresponse.
  unfold for_range. rewrite Z.sub_0_r. unfold len. change 0 with (Z.of_nat 0).
  rewrite (fill_loop rawData (kline_of_row e) _ (length rawData) 0);
    [|..|done|by rewrite length_replicate].
  - rewrite drop_0, take_0. by destruct (mapM _ _).
  - intros i klines.
    destruct (at_index rawData i) as [item|]; [|done]. simpl.
    destruct item as [|[] [|v1 [|v2 [|v3 [|v4 [|v5 [|[] rest]]]]]]]; done.
Qed.

(** A row is malformed when it has fewer than 7 entries, or when its
    entry 0 or its entry 6 is not a number. *)
Lemma kline_of_row_None (e : Endpoint F) item :
  kline_of_row e item = None
  ↔ (length item < 7)%nat
    ∨ (∀ t, item !! 0%nat ≠ Some (AnyFloat64 t))
    ∨ (∀ t, item !! 6%nat ≠ Some (AnyFloat64 t)).
Proof.
  destruct item as [|v0 item]; [split; [left; simpl; lia|done]|].
  destruct v0 as [s|t0|n|n|T].
  2:{ destruct item as [|v1 [|v2 [|v3 [|v4 [|v5 [|v6 rest]]]]]];
        try (split; [intros _; left; simpl; lia|done]).
      destruct v6; simpl; split; try done;
        try (intros _; right; right; by intros ?);
        intros [?|[Hv|Hv]]; [lia|by destruct (Hv _ eq_refl)..]. }
  all: split; [intros _; right; left; by intros ?|done].
Qed.

(** X17. [getKlines] returns an error exactly when [http.Get],
    [ioutil.ReadAll] or [json.Unmarshal] fails, with the error of that
    call unchanged.  It panics exactly when the body decodes to rows of
    which one has fewer than 7 entries, or an entry 0 or 6 that is not
    a number.  An empty array of rows gives an empty sequence and no
    error. *)
Theorem getKlines_outcomes (e : Endpoint F) symbol interval limit :
  let response := klines_response e (Wire.klines_url symbol interval limit) in
  (∀ err, Wire.getKlines e symbol interval limit = Some (Error err)
          ↔ response = KlinesGetFailed err
            ∨ response = KlinesReadAllFailed err
            ∨ response = KlinesUnmarshalFailed err)
  ∧ (Wire.getKlines e symbol interval limit = None
     ↔ ∃ rawData,
         response = KlinesDecoded rawData
         ∧ Exists (λ item, (length item < 7)%nat
                           ∨ (∀ t, item !! 0%nat ≠ Some (AnyFloat64 t))
                           ∨ (∀ t, item !! 6%nat ≠ Some (AnyFloat64 t)))
                  rawData)
  ∧ (∀ rawData, response = KlinesDecoded rawData → rawData = [] →
       Wire.getKlines e symbol interval limit = Some (Value [])).
Proof.
  cbv zeta.
  destruct (klines_response e (Wire.klines_url symbol interval limit))
    as [err'|err'|err'|rawData] eqn:Hresponse.
  1-3: unfold Wire.getKlines; cbv zeta; rewrite Hresponse;
    (split; [|split]);
    [ intros err; split; [intros [= <-]; auto|intros [[= <-]|[[= <-]|[= <-]]]; done]
    | split; [done|by intros (? & ? & _)]
    | done ].
  rewrite (getKlines_decoded e symbol interval limit rawData Hresponse).
  split; [|split].
  - intros err. split; [|by intros [?|[?|?]]].
    by destruct (mapM _ _).
  - split.
    + intros Hnone. exists rawData. split; [done|].
      destruct (mapM (kline_of_row e) rawData) as [klines|] eqn:Hrows; [done|].
      apply mapM_None in Hrows. eapply Exists_impl; [exact Hrows|].
      intros item Hitem. by apply kline_of_row_None in Hitem.
    + intros (rawData' & [= <-] & Hbad).
      assert (mapM (kline_of_row e) rawData = None) as ->; [|done].
      apply mapM_None. eapply Exists_impl; [exact Hbad|].
      intros item Hitem. by apply kline_of_row_None.
  - intros rawData' [= <-] ->. done.
Qed.

Lemma kline_of_row_Some (e : Endpoint F) item k :
  kline_of_row e item = Some k →
  ∃ t0 v1 v2 v3 v4 v5 t6,
    take 7 item = [AnyFloat64 t0; v1; v2; v3; v4; v5; AnyFloat64 t6]
    ∧ k = mkKline (int64_of_float64 e t0)
            (Wire.parseFloat e v1).1 (Wire.parseFloat e v2).1
            (Wire.parseFloat e v3).1 (Wire.parseFloat e v4).1
            (Wire.parseFloat e v5).1 (int64_of_float64 e t6).
Proof.
  destruct item as [|[s|t0|n|n|T] item]; try done.
  destruct item as [|v1 [|v2 [|v3 [|v4 [|v5 [|[s|t6|n|n|T] rest]]]]]];
    try done.
  intros [= <-]. by exists t0, v1, v2, v3, v4, v5, t6.
Qed.

(** X18. When [getKlines] returns candles, there is one per row, in order;
    the times of a candle are the conversions to [int64] of the entries
    0 and 6 of its row, and its prices and volume are the entries 1 to
    5 as [parseFloat] reads them, the error of [parseFloat] being
    dropped: a number is kept, a string is what [strconv.ParseFloat]
    returns for it, and an entry of an unsupported type is read as
    0. *)
Theorem getKlines_candles (e : Endpoint F) symbol interval limit rawData klines :
  klines_response e (Wire.klines_url symbol interval limit)
  = KlinesDecoded rawData →
  Wire.getKlines e symbol interval limit = Some (Value klines) →
  length klines = length rawData
  ∧ ∀ (i : nat) item,
      rawData !! i = Some item →
      ∃ k t0 v1 v2 v3 v4 v5 t6,
        klines !! i = Some k
        ∧ take 7 item = [AnyFloat64 t0; v1; v2; v3; v4; v5; AnyFloat64 t6]
        ∧ OpenTime k = int64_of_float64 e t0
        ∧ CloseTime k = int64_of_float64 e t6
        ∧ Forall2 (λ v x, x = (Wire.parseFloat e v).1
                          ∧ (∀ x', v = AnyFloat64 x' → x = x')
                          ∧ (∀ s, v = AnyString s
                                  → x = (strconv_ParseFloat e s).1)
                          ∧ (∀ T, v = AnyOther T → x = F0))
            [v1; v2; v3; v4; v5] [Open k; High k; Low k; Close k; Volume k].
Proof.
  intros Hresponse Hget.
  rewrite (getKlines_decoded e symbol interval limit rawData Hresponse) in Hget.
  destruct (mapM (kline_of_row e) rawData) as [klines'|] eqn:Hrows; [|done].
  injection Hget as ->. apply mapM_Some in Hrows.
  split; [symmetry; by eapply Forall2_length|].
  intros i item Hitem.
  destruct (Forall2_lookup_l _ _ _ _ _ Hrows Hitem) as (k & Hk & Hrow).
  apply kline_of_row_Some in Hrow
    as (t0 & v1 & v2 & v3 & v4 & v5 & t6 & Htake & ->).
  eexists _, t0, v1, v2, v3, v4, v5, t6.
  split; [exact Hk|]. split; [exact Htake|]. split; [done|]. split; [done|].
  repeat constructor; try done; by intros ? ->.
Qed.

Lemma kline_of_row_app (e : Endpoint F) item extra :
  (7 ≤ length item)%nat →
  kline_of_row e (item ++ extra) = kline_of_row e item.
Proof.
  intros Hlen.
  destruct item as [|v0 [|v1 [|v2 [|v3 [|v4 [|v5 [|v6 rest]]]]]]];
    simpl in Hlen; try lia.
  done.
Qed.

(** X19. [getKlines] reads the first 7 entries of a row and nothing else:
    entries added after them to rows of at least 7 entries change
    nothing of what it returns. *)
Theorem getKlines_extra_columns (e : Endpoint F) symbol interval limit
    rawData extras :
  klines_response e (Wire.klines_url symbol interval limit)
  = KlinesDecoded rawData →
  Forall (λ item, (7 ≤ length item)%nat) rawData →
  length extras = length rawData →
  Wire.getKlines
    (with_klines_response e (λ _, KlinesDecoded (zip_with app rawData extras)))
    symbol interval limit
  = Wire.getKlines e symbol interval limit.
Proof.
  intros Hresponse Hrows Hlen.
  rewrite (getKlines_decoded e symbol interval limit rawData Hresponse).
  rewrite (getKlines_decoded
             (with_klines_response e
                (λ _, KlinesDecoded (zip_with app rawData extras)))
             symbol interval limit (zip_with app rawData extras) eq_refl).
  change (kline_of_row (with_klines_response e _)) with (kline_of_row e).
  assert (mapM (kline_of_row e) (zip_with app rawData extras)
          = mapM (kline_of_row e) rawData) as ->; [|done].
  clear Hresponse. revert extras Hlen.
  induction Hrows as [|item rows Hitem _ IH]; intros [|extra extras] Hlen;
    try done.
  cbn [zip_with mapM]. rewrite kline_of_row_app by done.
  rewrite IH by (simpl in Hlen; lia). done.
Qed.

End WireTheorems.

Lemma getKlines_candles_witness :
  ∃ klines,
    Wire.getKlines sample_endpoint "BTCUSDT" "3m" 40 = Some (Value klines)
    ∧ length klines = 2%nat
    ∧ Close <$> klines = [100%float; 0%float]
    ∧ OpenTime <$> klines = [1700000000000; 1700000180000].
Proof.
  assert (∃ klines,
            Wire.getKlines sample_endpoint "BTCUSDT" "3m" 40
            = Some (Value klines)
            ∧ Close <$> klines = [100%float; 0%float]
            ∧ OpenTime <$> klines = [1700000000000; 1700000180000])
    as (klines & Hget & Hclose & Htime).
  { eexists. split; [by vm_compute|]. split; by vm_compute. }
  exists klines. split; [exact Hget|].
  destruct (getKlines_candles sample_endpoint "BTCUSDT" "3m" 40
              sample_rows klines eq_refl Hget) as [Hlen _].
  split; [exact Hlen|]. split; [exact Hclose|exact Htime].
Defined.

Lemma getKlines_extra_columns_witness :
  Wire.getKlines
    (with_klines_response sample_endpoint
       (λ _, KlinesDecoded
               (zip_with app (take 7 <$> sample_rows) (drop 7 <$> sample_rows))))
    "BTCUSDT" "3m" 40
  = Wire.getKlines
      (with_klines_response sample_endpoint
         (λ _, KlinesDecoded (take 7 <$> sample_rows)))
      "BTCUSDT" "3m" 40.
Proof.
  apply (getKlines_extra_columns
           (with_klines_response sample_endpoint
              (λ _, KlinesDecoded (take 7 <$> sample_rows)))
           "BTCUSDT" "3m" 40 (take 7 <$> sample_rows) (drop 7 <$> sample_rows)).
  - reflexivity.
  - repeat constructor.
  - reflexivity.
Defined.

(** ** The aggregator over the endpoint *)

Section WireAggregator.
Context {F : Type} `{Float64 F}.

Lemma selectInterval_not_4h scan : String.eqb (selectInterval scan) "4h" = false.
Proof. unfold selectInterval. by repeat destruct (decide _). Qed.

(** Where neither candle fetch panics, [Wire.GetWithInterval] is
    [GetWithInterval] over the provider that answers as the endpoint
    does. *)
Lemma GetWithInterval_over_endpoint (e : Endpoint F) (w : World F) symbol scan
    limit answerIntraday answer4h :
  calculateIntradayLimit scan = Some limit →
  Wire.getKlines e (Normalize symbol) (selectInterval scan) limit
  = Some answerIntraday →
  (is_error answerIntraday
   ∨ Wire.getKlines e (Normalize symbol) "4h" 60 = Some answer4h) →
  Wire.GetWithInterval e w symbol scan
  = GetWithInterval (with_getKlines w answerIntraday answer4h) symbol scan.
Proof.
  intros Hlimit Hi H4. unfold Wire.GetWithInterval, GetWithInterval.
  cbv zeta. rewrite Hlimit. simpl. rewrite Hi, selectInterval_not_4h. simpl.
  destruct answerIntraday as [klinesIntraday|err]; [|done].
  destruct H4 as [[]| ->]. simpl. reflexivity.
Qed.

(** X1. [GetWithInterval], with its candle fetches as the source has
    them, panics exactly when the scan interval is 0 (the integer
    division of the candle limit), when the intraday fetch panics, when
    the intraday fetch returns candles and the 4h fetch panics, or when
    both fetches return candles and either the intraday sequence is
    empty (the index [len-1]) or the scan interval is one of -60..-1
    (the index of the one-hour lookback is past the end).  [Get], whose
    scan interval is 3, panics exactly when the fetch of 40 candles of
    3m panics, or it returns candles and either the 4h fetch panics or
    it returns candles too and the 3m sequence is empty.  Where neither
    fetch panics, the result is that of [GetWithInterval] over a
    provider answering as the endpoint does. *)
Theorem GetWithInterval_panics (e : Endpoint F) (w : World F) symbol scan :
  let intraday limit :=
    Wire.getKlines e (Normalize symbol) (selectInterval scan) limit in
  let longTerm := Wire.getKlines e (Normalize symbol) "4h" 60 in
  (Wire.GetWithInterval e w symbol scan = None
   ↔ scan = 0
     ∨ ∃ limit,
         calculateIntradayLimit scan = Some limit
         ∧ (intraday limit = None
            ∨ ∃ klinesIntraday,
                intraday limit = Some (Value klinesIntraday)
                ∧ (longTerm = None
                   ∨ ∃ klines4h,
                       longTerm = Some (Value klines4h)
                       ∧ (klinesIntraday = [] ∨ -60 ≤ scan ≤ -1))))
  ∧ (Wire.Get e w symbol = None
     ↔ Wire.getKlines e (Normalize symbol) "3m" 40 = None
       ∨ ∃ klinesIntraday,
           Wire.getKlines e (Normalize symbol) "3m" 40
           = Some (Value klinesIntraday)
           ∧ (longTerm = None
              ∨ klinesIntraday = [] ∧ ∃ klines4h, longTerm = Some (Value klines4h)))
  ∧ (∀ limit answerIntraday answer4h,
       calculateIntradayLimit scan = Some limit →
       intraday limit = Some answerIntraday →
       longTerm = Some answer4h →
       Wire.GetWithInterval e w symbol scan
       = GetWithInterval (with_getKlines w answerIntraday answer4h) symbol scan).
Proof.
  cbv zeta.
  assert (∀ scan,
    Wire.GetWithInterval e w symbol scan = None
    ↔ scan = 0
      ∨ ∃ limit,
          calculateIntradayLimit scan = Some limit
          ∧ (Wire.getKlines e (Normalize symbol) (selectInterval scan) limit
             = None
             ∨ ∃ klinesIntraday,
                 Wire.getKlines e (Normalize symbol) (selectInterval scan) limit
                 = Some (Value klinesIntraday)
                 ∧ (Wire.getKlines e (Normalize symbol) "4h" 60 = None
                    ∨ ∃ klines4h,
                        Wire.getKlines e (Normalize symbol) "4h" 60
                        = Some (Value klines4h)
                        ∧ (klinesIntraday = [] ∨ -60 ≤ scan ≤ -1)))) as Hnone.
  { clear scan. intros scan.
    destruct (calculateIntradayLimit scan) as [limit|] eqn:Hlimit.
    2:{ pose proof Hlimit as Hz%calculateIntradayLimit_None. subst scan.
        split; [by left|]. intros _. unfold Wire.GetWithInterval.
        cbv zeta. by rewrite Hlimit. }
    assert (scan ≠ 0) as Hne.
    { intros Hz%calculateIntradayLimit_None. congruence. }
    destruct (Wire.getKlines e (Normalize symbol) (selectInterval scan) limit)
      as [[klinesIntraday|err]|] eqn:Hi.
    3:{ split; [intros _; right; exists limit; auto|].
        intros _. unfold Wire.GetWithInterval. cbv zeta.
        rewrite Hlimit. simpl. by rewrite Hi. }
    2:{ rewrite (GetWithInterval_over_endpoint e w symbol scan limit
                   (Error err) (Error err)); [|done|done|by left].
        split.
        - intros [?|(l & kI & k4 & Hl & HkI & _)]%GetWithInterval_None; [done|].
          rewrite ?Hlimit in Hl. injection Hl as <-. simpl in HkI.
          by rewrite selectInterval_not_4h in HkI.
        - intros [?|(l & Hl & [?|(kI & ? & _)])]; [done|..];
            rewrite ?Hlimit in Hl; injection Hl as <-; congruence. }
    destruct (Wire.getKlines e (Normalize symbol) "4h" 60)
      as [[klines4h|err]|] eqn:H4.
    3:{ split.
        - intros _. right. exists limit. split; [done|]. right.
          exists klinesIntraday. auto.
        - intros _. unfold Wire.GetWithInterval. cbv zeta.
          rewrite Hlimit. simpl. rewrite Hi. simpl. by rewrite H4. }
    2:{ rewrite (GetWithInterval_over_endpoint e w symbol scan limit
                   (Value klinesIntraday) (Error err)); [|done|done|by right].
        split.
        - intros [?|(l & kI & k4 & Hl & _ & Hk4 & _)]%GetWithInterval_None;
            [done|].
          done.
        - intros [?|(l & Hl & [?|(kI & ? & [?|(k4 & ? & _)])])]; [done|..];
            rewrite ?Hlimit in Hl; injection Hl as <-; congruence. }
    rewrite (GetWithInterval_over_endpoint e w symbol scan limit
               (Value klinesIntraday) (Value klines4h)); [|done|done|by right].
    rewrite GetWithInterval_None. simpl. rewrite selectInterval_not_4h.
    split.
    - intros [?|(l & kI & k4 & Hl & [= <-] & [= <-] & Hcase)]; [done|].
      right. exists limit. split; [done|]. right. exists klinesIntraday.
      split; [done|]. right. by exists klines4h.
    - intros [?|(l & Hl & [?|(kI & HkI & [?|(k4 & Hk4 & Hcase)])])]; [done|..];
        rewrite ?Hlimit in Hl; injection Hl as <-; try congruence.
      right. exists limit, klinesIntraday, klines4h.
      assert (kI = klinesIntraday) as -> by congruence. auto. }
  split; [apply Hnone|]. split.
  - unfold Wire.Get. rewrite Hnone.
    change (calculateIntradayLimit 3) with (Some 40).
    change (selectInterval 3) with "3m". split.
    + intros [?|(l & [= <-] & [?|(kI & HkI & [?|(k4 & Hk4 & [->|?])])])];
        [lia|by left|right; exists kI; auto|right|lia].
      exists []. split; [done|]. right. split; [done|by exists k4].
    + intros [Hi|(kI & HkI & [H4|(-> & k4 & Hk4)])]; right; exists 40;
        (split; [done|]); [by left|right; exists kI; auto|].
      right. exists []. split; [done|]. right. exists k4. auto.
  - intros limit answerIntraday answer4h Hlimit Hi H4.
    apply (GetWithInterval_over_endpoint e w symbol scan limit); auto.
Qed.

End WireAggregator.
